(** * OpenSubdiv: mask kernels (sdc/scheme.h) and refinement tables
      (far/refineTables.cpp)

    A shallow embedding of the two core sources and the properties of the
    specification that concern them.

    Conventions.
    - [float] is rendered as the exact rationals [Q]: every property below is
      about which branch is taken and which expression is evaluated, not about
      rounding.  NaN has no counterpart (the specification calls NaN
      sharpness a programmer error).
    - [int] counts and indices of the mask classes are [Z]; indices of the
      topology tables ([VtrIndex]) are [nat].
    - A mask is the triple of counts and the three weight arrays the C++
      mask classes expose; an array is a total function from indices, so a
      write never goes out of bounds (in C++ the caller sizes the arrays).
    - Code that lives in headers outside the two sources (the scheme
      specialisations, [SdcCrease], [VtrRefinement], [VtrSparseSelector]) is
      taken as an interface or modelled from the specification, and says so. *)

From stdpp Require Import gmap list.
From Stdlib Require Import QArith Lqa.

Local Open Scope Q_scope.

(* ===================================================================== *)
(** ** Rational comparisons as the code writes them *)
(* ===================================================================== *)

(** [x < y] on floats, as a boolean. *)
Definition Qlt_bool (x y : Q) : bool := negb (Qle_bool y x).

(** [x] clamped to [0,1]. *)
Definition clamp01 (x : Q) : Q :=
  if Qle_bool x 0 then 0 else if Qle_bool 1 x then 1 else x.

(* ===================================================================== *)
(** ** sdc: rules, options, masks *)
(* ===================================================================== *)

(** [SdcCrease::Rule]. *)
Inductive Rule : Set :=
  | RULE_UNKNOWN
  | RULE_SMOOTH
  | RULE_DART
  | RULE_CREASE
  | RULE_CORNER.

Definition Rule_eqb (a b : Rule) : bool :=
  match a, b with
  | RULE_UNKNOWN, RULE_UNKNOWN
  | RULE_SMOOTH, RULE_SMOOTH
  | RULE_DART, RULE_DART
  | RULE_CREASE, RULE_CREASE
  | RULE_CORNER, RULE_CORNER => true
  | _, _ => false
  end.

(** [SdcType] and the creasing method of [SdcOptions]. *)
Inductive SdcType : Set := TYPE_BILINEAR | TYPE_CATMARK | TYPE_LOOP.

Inductive CreasingMethod : Set := CREASE_UNIFORM | CREASE_CHAIKIN.

Record SdcOptions : Set := mkSdcOptions {
  creasingMethod : CreasingMethod
}.

(** [SdcCrease crease(_options)]: the crease algebra is built from the
    options and nothing else. *)
Record SdcCrease : Set := mkSdcCrease {
  crease_options : SdcOptions
}.

(** Modelled from the spec: [SdcCrease::IsUniform] (sdc/crease.h is not among
    the sources); the creasing method is Uniform or Chaikin and [isUniform()]
    tells which. *)
Definition IsUniform (crease : SdcCrease) : bool :=
  match creasingMethod (crease_options crease) with
  | CREASE_UNIFORM => true
  | CREASE_CHAIKIN => false
  end.

(** The mask classes: [LocalMask<WEIGHT>] of scheme.h, and any user mask with
    the same members. *)
Record Mask : Type := mkMask {
  vCount : Z;
  eCount : Z;
  fCount : Z;
  vWeights : Z -> Q;
  eWeights : Z -> Q;
  fWeights : Z -> Q
}.

Definition GetVertexWeightCount (m : Mask) : Z := vCount m.
Definition GetEdgeWeightCount (m : Mask) : Z := eCount m.
Definition GetFaceWeightCount (m : Mask) : Z := fCount m.

Definition SetVertexWeightCount (count : Z) (m : Mask) : Mask :=
  mkMask count (eCount m) (fCount m) (vWeights m) (eWeights m) (fWeights m).
Definition SetEdgeWeightCount (count : Z) (m : Mask) : Mask :=
  mkMask (vCount m) count (fCount m) (vWeights m) (eWeights m) (fWeights m).
Definition SetFaceWeightCount (count : Z) (m : Mask) : Mask :=
  mkMask (vCount m) (eCount m) count (vWeights m) (eWeights m) (fWeights m).

(** [w[index] = x]. *)
Definition store (w : Z -> Q) (index : Z) (x : Q) : Z -> Q :=
  fun j => if (j =? index)%Z then x else w j.

Definition VertexWeight (m : Mask) (index : Z) : Q := vWeights m index.
Definition EdgeWeight (m : Mask) (index : Z) : Q := eWeights m index.
Definition FaceWeight (m : Mask) (index : Z) : Q := fWeights m index.

Definition setVertexWeight (index : Z) (x : Q) (m : Mask) : Mask :=
  mkMask (vCount m) (eCount m) (fCount m)
         (store (vWeights m) index x) (eWeights m) (fWeights m).
Definition setEdgeWeight (index : Z) (x : Q) (m : Mask) : Mask :=
  mkMask (vCount m) (eCount m) (fCount m)
         (vWeights m) (store (eWeights m) index x) (fWeights m).
Definition setFaceWeight (index : Z) (x : Q) (m : Mask) : Mask :=
  mkMask (vCount m) (eCount m) (fCount m)
         (vWeights m) (eWeights m) (store (fWeights m) index x).

(** [for (int i = 0; i < count; ++i) body(i)]. *)
Definition forLoop {S : Type} (count : Z) (body : Z -> S -> S) (s : S) : S :=
  foldl (fun acc i => body i acc) s (seqZ 0 count).

(** The weights a mask holds, as lists (the first [count] entries of each
    array). *)
Definition vertexWeights (m : Mask) : list Q := map (VertexWeight m) (seqZ 0 (vCount m)).
Definition edgeWeights (m : Mask) : list Q := map (EdgeWeight m) (seqZ 0 (eCount m)).
Definition faceWeights (m : Mask) : list Q := map (FaceWeight m) (seqZ 0 (fCount m)).

(** A weight read through its count: an index the mask does not hold
    contributes nothing. *)
Definition inCount (count index : Z) : bool := (0 <=? index)%Z && (index <? count)%Z.
Definition edgeWeightOr0 (m : Mask) (i : Z) : Q :=
  if inCount (eCount m) i then EdgeWeight m i else 0.
Definition faceWeightOr0 (m : Mask) (i : Z) : Q :=
  if inCount (fCount m) i then FaceWeight m i else 0.

(** [LocalMask::CombineVertexVertexMasks(thisCoeff, dstCoeff, dst)], with
    [this] the first argument. *)
Definition CombineVertexVertexMasks (this : Mask) (thisCoeff dstCoeff : Q) (dst : Mask) : Mask :=
  let dst := setVertexWeight 0
               (dstCoeff * VertexWeight dst 0 + thisCoeff * VertexWeight this 0) dst in
  let edgeWeightCount := GetEdgeWeightCount this in
  let dst :=
    if (edgeWeightCount =? 0)%Z then dst
    else if (GetEdgeWeightCount dst =? 0)%Z then
      forLoop edgeWeightCount
        (fun i d => setEdgeWeight i (thisCoeff * EdgeWeight this i) d)
        (SetEdgeWeightCount edgeWeightCount dst)
    else
      forLoop edgeWeightCount
        (fun i d => setEdgeWeight i
                      (dstCoeff * EdgeWeight d i + thisCoeff * EdgeWeight this i) d)
        dst in
  let faceWeightCount := GetFaceWeightCount this in
  if (faceWeightCount =? 0)%Z then dst
  else if (GetFaceWeightCount dst =? 0)%Z then
    forLoop faceWeightCount
      (fun i d => setFaceWeight i (thisCoeff * FaceWeight this i) d)
      (SetFaceWeightCount faceWeightCount dst)
  else
    forLoop faceWeightCount
      (fun i d => setFaceWeight i
                    (dstCoeff * FaceWeight d i + thisCoeff * FaceWeight this i) d)
      dst.

(** [assignCreaseMaskForEdge]: the edge is not inspected. *)
Definition assignCreaseMaskForEdge {EDGE : Type} (_ : EDGE) (mask : Mask) : Mask :=
  let mask := SetVertexWeightCount 2 mask in
  let mask := SetEdgeWeightCount 0 mask in
  let mask := SetFaceWeightCount 0 mask in
  let mask := setVertexWeight 0 (1 # 2) mask in
  setVertexWeight 1 (1 # 2) mask.

(** [assignCornerMaskForVertex]. *)
Definition assignCornerMaskForVertex {VERTEX : Type} (_ : VERTEX) (mask : Mask) : Mask :=
  let mask := SetVertexWeightCount 1 mask in
  let mask := SetEdgeWeightCount 0 mask in
  let mask := SetFaceWeightCount 0 mask in
  setVertexWeight 0 1 mask.

(** The edge part of [CombineVertexVertexMasks], on its own. *)
Definition combineEdgeWeights (this : Mask) (thisCoeff dstCoeff : Q) (dst : Mask) : Mask :=
  let edgeWeightCount := GetEdgeWeightCount this in
  if (edgeWeightCount =? 0)%Z then dst
  else if (GetEdgeWeightCount dst =? 0)%Z then
    forLoop edgeWeightCount
      (fun i d => setEdgeWeight i (thisCoeff * EdgeWeight this i) d)
      (SetEdgeWeightCount edgeWeightCount dst)
  else
    forLoop edgeWeightCount
      (fun i d => setEdgeWeight i
                    (dstCoeff * EdgeWeight d i + thisCoeff * EdgeWeight this i) d)
      dst.

(** The face part of [CombineVertexVertexMasks], on its own. *)
Definition combineFaceWeights (this : Mask) (thisCoeff dstCoeff : Q) (dst : Mask) : Mask :=
  let faceWeightCount := GetFaceWeightCount this in
  if (faceWeightCount =? 0)%Z then dst
  else if (GetFaceWeightCount dst =? 0)%Z then
    forLoop faceWeightCount
      (fun i d => setFaceWeight i (thisCoeff * FaceWeight this i) d)
      (SetFaceWeightCount faceWeightCount dst)
  else
    forLoop faceWeightCount
      (fun i d => setFaceWeight i
                    (dstCoeff * FaceWeight d i + thisCoeff * FaceWeight this i) d)
      dst.

(** The child mask's edge (face) weights cover the parent's: the parent has
    none, or as many as the child. *)
Definition covers (childCount parentCount : Z) : Prop :=
  parentCount = 0%Z \/ parentCount = childCount.

(* ===================================================================== *)
(** ** sdc: the neighbourhood interfaces and what each scheme supplies *)
(* ===================================================================== *)

(** The members the mask queries call on their [EDGE] template argument. *)
Module EDGE.
Class Neighborhood (E : Type) : Type := {
  GetSharpness : E -> Q;
  (** [GetChildSharpnesses(crease, float[2])] *)
  GetChildSharpnesses : E -> SdcCrease -> Q * Q
}.
End EDGE.

(** The members the mask queries call on their [VERTEX] template argument.
    A [float*] result is the list of per-edge values. *)
Module VERTEX.
Class Neighborhood (V : Type) : Type := {
  GetEdgeCount : V -> Z;
  GetSharpness : V -> Q;
  GetSharpnessPerEdge : V -> list Q;
  GetChildSharpnessPerEdge : V -> SdcCrease -> list Q;
  GetChildSharpness : V -> SdcCrease -> Q
}.
End VERTEX.

(** The protected methods each scheme specialisation implements
    (sdc/catmarkScheme.h and its siblings are not among the sources).  The
    sharpness pointer handed to the crease mask may be null, hence the
    [option]. *)
Class SchemeMasks (E V : Type) : Type := {
  assignSmoothMaskForEdge : E -> Mask -> Mask;
  assignCreaseMaskForVertex : V -> Mask -> option (list Q) -> Mask;
  assignSmoothMaskForVertex : V -> Mask -> Mask
}.

(** The two [SdcCrease] queries of the vertex-vertex mask (sdc/crease.h is
    not among the sources). *)
Class CreaseQueries : Type := {
  DetermineVertexVertexRule : SdcCrease -> Q -> Z -> option (list Q) -> Rule;
  ComputeFractionalWeightAtVertex :
    SdcCrease -> Q -> Q -> Z -> option (list Q) -> option (list Q) -> Q
}.

Section Scheme.
Context {E V : Type}.
Context `{EN : EDGE.Neighborhood E} `{VN : VERTEX.Neighborhood V}.
Context `{SM : SchemeMasks E V} `{CQ : CreaseQueries}.

(** [_options] of the scheme object. *)
Variable _options : SdcOptions.

(** What the on-stack child mask of the vertex-vertex query holds before an
    assign method fills it (indeterminate in C++). *)
Variable stackMask : Mask.

(** *** Edge-vertex masks *)

(** The local [childIsCrease] of [ComputeEdgeVertexMask], computed when the
    child rule was left unspecified. *)
Definition childIsCrease (edge : E) (parentRule : Rule) : bool :=
  let crease := mkSdcCrease _options in
  if Rule_eqb parentRule RULE_CREASE then true
  else if Qle_bool 1 (EDGE.GetSharpness edge) then true
  else if IsUniform crease then false
  else
    let cEdgeSharpness := EDGE.GetChildSharpnesses edge crease in
    Qlt_bool 0 (fst cEdgeSharpness) && Qlt_bool 0 (snd cEdgeSharpness).

(** The tail of [ComputeEdgeVertexMask]: the smooth mask of the child
    combined with the crease of the parent. *)
Definition creaseToSmoothMask (edge : E) (mask : Mask) : Mask :=
  let mask := assignSmoothMaskForEdge edge mask in
  let pWeight := EDGE.GetSharpness edge in
  let cWeight := 1 - pWeight in
  let mask := setVertexWeight 0 (pWeight * (1 # 2) + cWeight * VertexWeight mask 0) mask in
  let mask := setVertexWeight 1 (pWeight * (1 # 2) + cWeight * VertexWeight mask 1) mask in
  let faceCount := GetFaceWeightCount mask in
  forLoop faceCount (fun i m => setFaceWeight i (FaceWeight m i * cWeight) m) mask.

(** The same blend as the specification words it, "let w = parentSharpness
    clamped to [0,1]", to set against [creaseToSmoothMask]. *)
Definition creaseToSmoothMask_clamped (edge : E) (mask : Mask) : Mask :=
  let mask := assignSmoothMaskForEdge edge mask in
  let w := clamp01 (EDGE.GetSharpness edge) in
  let mask := setVertexWeight 0 (w * (1 # 2) + (1 - w) * VertexWeight mask 0) mask in
  let mask := setVertexWeight 1 (w * (1 # 2) + (1 - w) * VertexWeight mask 1) mask in
  let faceCount := GetFaceWeightCount mask in
  forLoop faceCount (fun i m => setFaceWeight i (FaceWeight m i * (1 - w)) m) mask.

Definition ComputeEdgeVertexMask (edge : E) (mask : Mask)
                                 (parentRule childRule : Rule) : Mask :=
  if Rule_eqb parentRule RULE_SMOOTH
     || (Rule_eqb parentRule RULE_UNKNOWN && Qle_bool (EDGE.GetSharpness edge) 0)
  then assignSmoothMaskForEdge edge mask
  else if Rule_eqb childRule RULE_CREASE
  then assignCreaseMaskForEdge edge mask
  else if Rule_eqb childRule RULE_UNKNOWN && childIsCrease edge parentRule
  then assignCreaseMaskForEdge edge mask
  else creaseToSmoothMask edge mask.

(** *** Vertex-vertex masks *)

Definition isSmoothOrDart (rule : Rule) : bool :=
  Rule_eqb rule RULE_SMOOTH || Rule_eqb rule RULE_DART.

(** "If unspecified, assign the child rule to match the parent rule if
    specified". *)
Definition defaultChildRule (pRule cRule : Rule) : Rule :=
  if Rule_eqb cRule RULE_UNKNOWN && negb (Rule_eqb pRule RULE_UNKNOWN)
  then pRule else cRule.

Definition requireParentSharpness (pRule cRule : Rule) : bool :=
  Rule_eqb pRule RULE_UNKNOWN
  || Rule_eqb pRule RULE_CREASE
  || negb (Rule_eqb pRule cRule).

(** [pVertexSharpness] and [pEdgeSharpness] after the gathering step: 0 and
    the null pointer unless the parent sharpness is required. *)
Definition parentVertexSharpness (vertex : V) (pRule cRule : Rule) : Q :=
  if requireParentSharpness pRule cRule then VERTEX.GetSharpness vertex else 0.

Definition parentEdgeSharpness (vertex : V) (pRule cRule : Rule) : option (list Q) :=
  if requireParentSharpness pRule cRule
  then Some (VERTEX.GetSharpnessPerEdge vertex) else None.

(** [pRule] after the gathering step ([cRule] is the defaulted child rule). *)
Definition parentRuleOf (vertex : V) (pRule cRule : Rule) : Rule :=
  if requireParentSharpness pRule cRule && Rule_eqb pRule RULE_UNKNOWN
  then DetermineVertexVertexRule (mkSdcCrease _options)
         (parentVertexSharpness vertex pRule cRule)
         (VERTEX.GetEdgeCount vertex)
         (parentEdgeSharpness vertex pRule cRule)
  else pRule.

(** The mask assigned for a non-smooth rule: the [else if] chain on
    Crease and Corner; any other rule leaves the mask as it is. *)
Definition assignMaskForRule (vertex : V) (mask : Mask) (rule : Rule)
                             (edgeSharpness : option (list Q)) : Mask :=
  if isSmoothOrDart rule then assignSmoothMaskForVertex vertex mask
  else if Rule_eqb rule RULE_CREASE then assignCreaseMaskForVertex vertex mask edgeSharpness
  else if Rule_eqb rule RULE_CORNER then assignCornerMaskForVertex vertex mask
  else mask.

(** [cRule] once determined from the child sharpness when still unknown. *)
Definition childRuleOf (vertex : V) (cRule : Rule) : Rule :=
  let crease := mkSdcCrease _options in
  if Rule_eqb cRule RULE_UNKNOWN
  then DetermineVertexVertexRule crease
         (VERTEX.GetChildSharpness vertex crease)
         (VERTEX.GetEdgeCount vertex)
         (Some (VERTEX.GetChildSharpnessPerEdge vertex crease))
  else cRule.

(** The local child mask [cMask]. *)
Definition childMaskOf (vertex : V) (cRule : Rule) : Mask :=
  let crease := mkSdcCrease _options in
  assignMaskForRule vertex stackMask cRule
    (Some (VERTEX.GetChildSharpnessPerEdge vertex crease)).

(** [pWeight] of the blend. *)
Definition fractionalWeightOf (vertex : V) (pRule cRule : Rule) : Q :=
  let crease := mkSdcCrease _options in
  ComputeFractionalWeightAtVertex crease
    (parentVertexSharpness vertex pRule cRule)
    (VERTEX.GetChildSharpness vertex crease)
    (VERTEX.GetEdgeCount vertex)
    (parentEdgeSharpness vertex pRule cRule)
    (Some (VERTEX.GetChildSharpnessPerEdge vertex crease)).

Definition ComputeVertexVertexMask (vertex : V) (mask : Mask)
                                   (pRule cRule : Rule) : Mask :=
  if isSmoothOrDart pRule then assignSmoothMaskForVertex vertex mask
  else
    let cRule := defaultChildRule pRule cRule in
    let pEdgeSharpness := parentEdgeSharpness vertex pRule cRule in
    let pRule' := parentRuleOf vertex pRule cRule in
    if isSmoothOrDart pRule' then assignSmoothMaskForVertex vertex mask
    else
      let mask := assignMaskForRule vertex mask pRule' pEdgeSharpness in
      if Rule_eqb cRule pRule' then mask
      else
        let cRule' := childRuleOf vertex cRule in
        if Rule_eqb cRule RULE_UNKNOWN && Rule_eqb cRule' pRule' then mask
        else
          let cMask := childMaskOf vertex cRule' in
          let pWeight := fractionalWeightOf vertex pRule cRule in
          let cWeight := 1 - pWeight in
          CombineVertexVertexMasks cMask cWeight pWeight mask.

End Scheme.


(* ===================================================================== *)
(** ** vtr: levels *)
(* ===================================================================== *)

Definition VtrIndex : Set := nat.

(** Modelled from the spec: the topology snapshot of one subdivision depth
    (vtr/level.h is not among the sources): counts, depth, the six adjacency
    tables and the two sharpness tables. *)
Record VtrLevel : Type := mkVtrLevel {
  depth : nat;
  faceCount : nat;
  edgeCount : nat;
  vertCount : nat;
  faceVerts : list (list VtrIndex);
  faceEdges : list (list VtrIndex);
  edgeVerts : list (list VtrIndex);
  edgeFaces : list (list VtrIndex);
  vertFaces : list (list VtrIndex);
  vertEdges : list (list VtrIndex);
  edgeSharpnessTable : list Q;
  vertSharpnessTable : list Q
}.

(** A default-constructed level: what [_levels(1)] and [resize] create. *)
Definition VtrLevel_new : VtrLevel :=
  mkVtrLevel 0 0 0 0 [] [] [] [] [] [] [] [].

(** The adjacency views; an index outside its table reads as the empty view
    (in C++ it is not to be asked for). *)
Definition accessFaceVerts (level : VtrLevel) (f : VtrIndex) : list VtrIndex := nth f (faceVerts level) [].
Definition accessFaceEdges (level : VtrLevel) (f : VtrIndex) : list VtrIndex := nth f (faceEdges level) [].
Definition accessEdgeVerts (level : VtrLevel) (e : VtrIndex) : list VtrIndex := nth e (edgeVerts level) [].
Definition accessEdgeFaces (level : VtrLevel) (e : VtrIndex) : list VtrIndex := nth e (edgeFaces level) [].
Definition accessVertFaces (level : VtrLevel) (v : VtrIndex) : list VtrIndex := nth v (vertFaces level) [].
Definition accessVertEdges (level : VtrLevel) (v : VtrIndex) : list VtrIndex := nth v (vertEdges level) [].
Definition edgeSharpness (level : VtrLevel) (e : VtrIndex) : Q := nth e (edgeSharpnessTable level) 0.
Definition vertSharpness (level : VtrLevel) (v : VtrIndex) : Q := nth v (vertSharpnessTable level) 0.

(** [array[i]] of an index view; an index past its end reads as 0 (in C++ it
    is not to be asked for: a quad has four edges). *)
Definition at_ (a : list VtrIndex) (i : nat) : VtrIndex := nth i a 0%nat.

(** [VtrRefinement::Options]. *)
Record RefineOptions : Set := mkRefineOptions {
  _sparse : bool;
  _faceTopologyOnly : bool;
  _computeMasks : bool;
  _parentTagging : bool;
  _childTagging : bool
}.

Definition set_sparse (b : bool) (o : RefineOptions) : RefineOptions :=
  mkRefineOptions b (_faceTopologyOnly o) (_computeMasks o) (_parentTagging o) (_childTagging o).
Definition set_faceTopologyOnly (b : bool) (o : RefineOptions) : RefineOptions :=
  mkRefineOptions (_sparse o) b (_computeMasks o) (_parentTagging o) (_childTagging o).
Definition set_computeMasks (b : bool) (o : RefineOptions) : RefineOptions :=
  mkRefineOptions (_sparse o) (_faceTopologyOnly o) b (_parentTagging o) (_childTagging o).
Definition set_parentTagging (b : bool) (o : RefineOptions) : RefineOptions :=
  mkRefineOptions (_sparse o) (_faceTopologyOnly o) (_computeMasks o) b (_childTagging o).
Definition set_childTagging (b : bool) (o : RefineOptions) : RefineOptions :=
  mkRefineOptions (_sparse o) (_faceTopologyOnly o) (_computeMasks o) (_parentTagging o) b.

Definition SdcType_eqb (a b : SdcType) : bool :=
  match a, b with
  | TYPE_BILINEAR, TYPE_BILINEAR | TYPE_CATMARK, TYPE_CATMARK | TYPE_LOOP, TYPE_LOOP => true
  | _, _ => false
  end.

(** What the refinement tables need of [VtrRefinement] (vtr/refinement.h is
    not among the sources). *)
Class Refinement (R : Type) : Type := {
  (** a default-constructed refinement: what [resize] creates *)
  VtrRefinement_new : R;
  (** Modelled from the spec: [initialize(parent, child)] links the pair and
      empties the child, and [refine(options)] then builds the child level and
      fills the refinement from the parent, the options and, when sparse, the
      faces the selector marked; nothing the two objects held before
      survives. *)
  refine : RefineOptions -> VtrLevel -> gset VtrIndex -> R * VtrLevel;
  (** the "incomplete" tag of a child vertex of the refinement *)
  childVertexIncomplete : R -> VtrIndex -> bool;
  (** a default-constructed [VtrRefinement::Options] *)
  RefineOptions_new : RefineOptions
}.

(* ===================================================================== *)
(** ** far: the sparse selector and the feature-adaptive analyzer *)
(* ===================================================================== *)

Section Far.
Context {R : Type} `{RF : Refinement R}.

(** [SdcCrease::INFINITE] (declared in sdc/crease.h). *)
Variable INFINITE : Q.

(** Modelled from the spec: the sparse selector (vtr/sparseSelector.h is not
    among the sources): the parent level of the refinement it marks, the
    previous refinement, and the set of selected faces.  Its
    Unstarted/Selecting/Finalized protocol is followed by the one caller
    and is left out. *)
Record VtrSparseSelector : Type := mkSelector {
  parent : VtrLevel;
  previousRefinement : option R;
  selectedFaces : gset VtrIndex
}.

(** [VtrSparseSelector selector(refinement)], the refinement being
    initialized on [parentLevel]: nothing selected yet. *)
Definition VtrSparseSelector_new (parentLevel : VtrLevel) : VtrSparseSelector :=
  mkSelector parentLevel None ∅.

Definition setPreviousRefinement (prev : option R) (s : VtrSparseSelector) : VtrSparseSelector :=
  mkSelector (parent s) prev (selectedFaces s).

Definition beginSelection (parentTagging : bool) (s : VtrSparseSelector) : VtrSparseSelector := s.
Definition endSelection (s : VtrSparseSelector) : VtrSparseSelector := s.

Definition selectFace (f : VtrIndex) (s : VtrSparseSelector) : VtrSparseSelector :=
  mkSelector (parent s) (previousRefinement s) (selectedFaces s ∪ {[ f ]}).

(** "marks all faces incident to v" *)
Definition selectVertexFaces (v : VtrIndex) (s : VtrSparseSelector) : VtrSparseSelector :=
  foldl (fun acc f => selectFace f acc) s (accessVertFaces (parent s) v).

Definition isSelectionEmpty (s : VtrSparseSelector) : bool :=
  bool_decide (selectedFaces s = ∅).

(** "children of unselected parent components are flagged incomplete in the
    current parent"; without a previous refinement no vertex is. *)
Definition isVertexIncomplete (s : VtrSparseSelector) (v : VtrIndex) : bool :=
  match previousRefinement s with
  | Some prev => childVertexIncomplete prev v
  | None => false
  end.

(** [(level.accessEdgeFaces(faceEdges[i]).size() == 1)] as the int it is
    summed as. *)
Definition isBoundaryEdge (level : VtrLevel) (e : VtrIndex) : nat :=
  if (length (accessEdgeFaces level e) =? 1)%nat then 1%nat else 0%nat.

Definition boundaryEdgeSum (level : VtrLevel) (face : VtrIndex) : nat :=
  let faceEdges := accessFaceEdges level face in
  (isBoundaryEdge level (at_ faceEdges 0) +
   isBoundaryEdge level (at_ faceEdges 1) +
   isBoundaryEdge level (at_ faceEdges 2) +
   isBoundaryEdge level (at_ faceEdges 3))%nat.

(** The test under which the face loop selects a quad. *)
Definition quadNeedsIsolation (level : VtrLevel) (face : VtrIndex) : bool :=
  let faceEdges := accessFaceEdges level face in
  (2 <? boundaryEdgeSum level face)%nat
  || ((boundaryEdgeSum level face =? 2)%nat
      && (length (accessEdgeFaces level (at_ faceEdges 0))
          =? length (accessEdgeFaces level (at_ faceEdges 2)))%nat).

(** Body of the loop over faces. *)
Definition selectorFaceStep (level : VtrLevel) (selector : VtrSparseSelector)
                            (face : VtrIndex) : VtrSparseSelector :=
  let faceVerts := accessFaceVerts level face in
  if negb (length faceVerts =? 4)%nat then selectFace face selector
  else if quadNeedsIsolation level face then selectFace face selector
  else selector.

(** The local [selectVertex] of the loop over vertices. *)
Definition selectVertex (level : VtrLevel) (vert : VtrIndex) : bool :=
  let vertSharpness := vertSharpness level vert in
  if Qlt_bool 0 vertSharpness then
    negb (length (accessVertFaces level vert) =? 1)%nat || Qlt_bool vertSharpness INFINITE
  else
    let vertFaces := accessVertFaces level vert in
    let vertEdges := accessVertEdges level vert in
    if (length vertFaces =? length vertEdges)%nat
    then negb (length vertFaces =? 4)%nat
    else negb (length vertFaces =? 2)%nat.

(** Body of the loop over vertices. *)
Definition selectorVertStep (level : VtrLevel) (selector : VtrSparseSelector)
                            (vert : VtrIndex) : VtrSparseSelector :=
  if isVertexIncomplete selector vert then selector
  else if selectVertex level vert then selectVertexFaces vert selector
  else selector.

(** Body of the loop over edges. *)
Definition selectorEdgeStep (level : VtrLevel) (selector : VtrSparseSelector)
                            (edge : VtrIndex) : VtrSparseSelector :=
  if Qle_bool (edgeSharpness level edge) 0
     || (length (accessEdgeFaces level edge) <? 2)%nat
  then selector
  else
    let edgeVerts := accessEdgeVerts level edge in
    let selector :=
      if negb (isVertexIncomplete selector (at_ edgeVerts 0))
      then selectVertexFaces (at_ edgeVerts 0) selector else selector in
    if negb (isVertexIncomplete selector (at_ edgeVerts 1))
    then selectVertexFaces (at_ edgeVerts 1) selector else selector.

(** The three passes of [catmarkFeatureAdaptiveSelector]. *)
Definition selectorFacePass (selector : VtrSparseSelector) : VtrSparseSelector :=
  let level := parent selector in
  if (depth level =? 0)%nat
  then foldl (selectorFaceStep level) selector (seq 0 (faceCount level))
  else selector.

Definition selectorVertPass (selector : VtrSparseSelector) : VtrSparseSelector :=
  let level := parent selector in
  foldl (selectorVertStep level) selector (seq 0 (vertCount level)).

Definition selectorEdgePass (selector : VtrSparseSelector) : VtrSparseSelector :=
  let level := parent selector in
  foldl (selectorEdgeStep level) selector (seq 0 (edgeCount level)).

Definition catmarkFeatureAdaptiveSelector (selector : VtrSparseSelector) : VtrSparseSelector :=
  selectorEdgePass (selectorVertPass (selectorFacePass selector)).

(* =================================================================== *)
(** ** far: the refinement tables *)
(* =================================================================== *)

Record FarRefineTables : Type := mkFarRefineTables {
  _subdivType : SdcType;
  _subdivOptions : SdcOptions;
  _isUniform : bool;
  _maxLevel : Z;
  _levels : list VtrLevel;
  _refinements : list R
}.

Definition FarRefineTables_new (schemeType : SdcType) (schemeOptions : SdcOptions) : FarRefineTables :=
  mkFarRefineTables schemeType schemeOptions true 0 (replicate 1 VtrLevel_new) [].

Definition Unrefine (t : FarRefineTables) : FarRefineTables :=
  mkFarRefineTables (_subdivType t) (_subdivOptions t) (_isUniform t) (_maxLevel t)
    (if (length (_levels t) =? 0)%nat then _levels t else resize 1 VtrLevel_new (_levels t))
    [].

Definition Clear (t : FarRefineTables) : FarRefineTables :=
  mkFarRefineTables (_subdivType t) (_subdivOptions t) (_isUniform t) (_maxLevel t) [] [].

(** [sum of _levels[i].vertCount()] and its siblings. *)
Definition GetVertCount (t : FarRefineTables) : nat := foldl (fun sum l => (sum + vertCount l)%nat) 0%nat (_levels t).
Definition GetEdgeCount (t : FarRefineTables) : nat := foldl (fun sum l => (sum + edgeCount l)%nat) 0%nat (_levels t).
Definition GetFaceCount (t : FarRefineTables) : nat := foldl (fun sum l => (sum + faceCount l)%nat) 0%nat (_levels t).

(** The two assertions on entry of the refine methods, and the sizes the
    vectors are asked to take: the call does not complete on an empty level
    vector, an empty base level, a scheme other than Catmark, or a negative
    level count (a [resize] to a negative size throws). *)
Definition refinePrecondition (maxLevel : Z) (t : FarRefineTables) : bool :=
  match _levels t with
  | [] => false
  | base :: _ =>
      (0 <? vertCount base)%nat
      && SdcType_eqb (_subdivType t) TYPE_CATMARK
      && (0 <=? maxLevel)%Z
  end.

(** [_isUniform = ...; _maxLevel = ...; _levels.resize(maxLevel + 1);
    _refinements.resize(maxLevel)]. *)
Definition allocateLevels (isUniform : bool) (maxLevel : Z) (t : FarRefineTables) : FarRefineTables :=
  mkFarRefineTables (_subdivType t) (_subdivOptions t) isUniform maxLevel
    (resize (Z.to_nat (maxLevel + 1)) VtrLevel_new (_levels t))
    (resize (Z.to_nat maxLevel) VtrRefinement_new (_refinements t)).

(** [_refinements[i-1].initialize(_levels[i-1], _levels[i]);
    _refinements[i-1].refine(options)] with the faces marked so far. *)
Definition refineLevel (options : RefineOptions) (i : nat) (marked : gset VtrIndex)
                       (t : FarRefineTables) : FarRefineTables :=
  let parentLevel := nth (i - 1) (_levels t) VtrLevel_new in
  let '(refinement, childLevel) := refine options parentLevel marked in
  mkFarRefineTables (_subdivType t) (_subdivOptions t) (_isUniform t) (_maxLevel t)
    (<[ i := childLevel ]> (_levels t))
    (<[ (i - 1)%nat := refinement ]> (_refinements t)).

(** Body of the loop of [RefineUniform]; the options are a local of the
    method and are carried along. *)
Definition uniformStep (maxLevel : nat) (fullTopology : bool)
                       (st : RefineOptions * FarRefineTables) (i : nat)
  : RefineOptions * FarRefineTables :=
  let refineOptions :=
    set_faceTopologyOnly (if fullTopology then false else (i =? maxLevel)%nat) (fst st) in
  (refineOptions, refineLevel refineOptions i ∅ (snd st)).

Definition RefineUniform (maxLevel : Z) (fullTopology computeMasks : bool)
                         (t : FarRefineTables) : option FarRefineTables :=
  if negb (refinePrecondition maxLevel t) then None
  else
    let t := allocateLevels true maxLevel t in
    let refineOptions := set_computeMasks computeMasks (set_sparse false RefineOptions_new) in
    Some (snd (foldl (uniformStep (Z.to_nat maxLevel) fullTopology)
                     (refineOptions, t) (seq 1 (Z.to_nat maxLevel)))).

(** The selection made at iteration [i] of [RefineAdaptive]. *)
Definition adaptiveSelection (parentTagging : bool) (i : nat) (t : FarRefineTables) : VtrSparseSelector :=
  let parentLevel := nth (i - 1) (_levels t) VtrLevel_new in
  let selector := VtrSparseSelector_new parentLevel in
  let selector :=
    setPreviousRefinement
      (if negb (i - 1 =? 0)%nat then Some (nth (i - 2) (_refinements t) VtrRefinement_new) else None)
      selector in
  let selector := beginSelection parentTagging selector in
  let selector := catmarkFeatureAdaptiveSelector selector in
  endSelection selector.

(** The [else] branch of the loop: trim both vectors and stop. *)
Definition truncateAt (i : nat) (t : FarRefineTables) : FarRefineTables :=
  let maxLevel := (Z.of_nat i - 1)%Z in
  mkFarRefineTables (_subdivType t) (_subdivOptions t) (_isUniform t) maxLevel
    (resize (Z.to_nat (maxLevel + 1)) VtrLevel_new (_levels t))
    (resize (Z.to_nat maxLevel) VtrRefinement_new (_refinements t)).

(** The loop of [RefineAdaptive] over the iterations still to run. *)
Fixpoint adaptiveLoop (parentTagging : bool) (refineOptions : RefineOptions)
                      (iterations : list nat) (t : FarRefineTables) : FarRefineTables :=
  match iterations with
  | [] => t
  | i :: rest =>
      let refineOptions := set_faceTopologyOnly false refineOptions in
      let selector := adaptiveSelection parentTagging i t in
      if negb (isSelectionEmpty selector) then
        adaptiveLoop parentTagging refineOptions rest
          (refineLevel refineOptions i (selectedFaces selector) t)
      else truncateAt i t
  end.

(** The options [RefineAdaptive] sets up before its loop. *)
Definition adaptiveOptions (fullTopology computeMasks parentTagging childTagging : bool) : RefineOptions :=
  set_childTagging childTagging
    (set_parentTagging parentTagging
       (set_computeMasks computeMasks
          (set_faceTopologyOnly (negb fullTopology)
             (set_sparse true RefineOptions_new)))).

Definition RefineAdaptive (subdivLevel : Z) (fullTopology computeMasks : bool)
                          (t : FarRefineTables) : option FarRefineTables :=
  if negb (refinePrecondition subdivLevel t) then None
  else
    let t := allocateLevels false subdivLevel t in
    let parentTagging := true in
    let childTagging := true in
    let refineOptions := adaptiveOptions fullTopology computeMasks parentTagging childTagging in
    Some (adaptiveLoop parentTagging refineOptions (seq 1 (Z.to_nat subdivLevel)) t).

(* =================================================================== *)
(** ** Notions the properties are stated with *)
(* =================================================================== *)

(** [s'] is [s] with possibly more faces selected. *)
Definition extends (s s' : VtrSparseSelector) : Prop :=
  parent s' = parent s /\
  previousRefinement s' = previousRefinement s /\
  selectedFaces s ⊆ selectedFaces s'.

(** Edge [i] of the face is a boundary edge. *)
Definition boundaryAt (level : VtrLevel) (face : VtrIndex) (i : nat) : Prop :=
  length (accessEdgeFaces level (at_ (accessFaceEdges level face) i)) = 1%nat.

(** The quad has exactly two boundary edges, and they face each other. *)
Definition twoOppositeBoundaries (level : VtrLevel) (face : VtrIndex) : Prop :=
  (boundaryAt level face 0 /\ boundaryAt level face 2
   /\ ~ boundaryAt level face 1 /\ ~ boundaryAt level face 3)
  \/ (boundaryAt level face 1 /\ boundaryAt level face 3
      /\ ~ boundaryAt level face 0 /\ ~ boundaryAt level face 2).

(** Each of the four edges of the face has one or two incident faces. *)
Definition manifoldFaceEdges (level : VtrLevel) (face : VtrIndex) : Prop :=
  forall i, (i < 4)%nat ->
    (1 <= length (accessEdgeFaces level (at_ (accessFaceEdges level face) i)) <= 2)%nat.

(** The options every iteration of [RefineAdaptive] refines with. *)
Definition adaptiveLoopOptions (fullTopology computeMasks : bool) : RefineOptions :=
  set_faceTopologyOnly false (adaptiveOptions fullTopology computeMasks true true).

(** The tables after [k] iterations of [RefineAdaptive] that each selected
    something: the state iteration [k + 1] starts from. *)
Fixpoint adaptiveStateAfter (subdivLevel : Z) (fullTopology computeMasks : bool)
                            (t : FarRefineTables) (k : nat) : FarRefineTables :=
  match k with
  | O => allocateLevels false subdivLevel t
  | S k' =>
      let before := adaptiveStateAfter subdivLevel fullTopology computeMasks t k' in
      refineLevel (adaptiveLoopOptions fullTopology computeMasks) k
        (selectedFaces (adaptiveSelection true k before)) before
  end.

(** Two tables that differ at most in levels [j] and above and in
    refinements [j - 1] and above. *)
Definition agreeBelow (j : nat) (s s' : FarRefineTables) : Prop :=
  _subdivType s = _subdivType s' /\ _subdivOptions s = _subdivOptions s' /\
  _isUniform s = _isUniform s' /\ _maxLevel s = _maxLevel s' /\
  length (_levels s) = length (_levels s') /\
  length (_refinements s) = length (_refinements s') /\
  take j (_levels s) = take j (_levels s') /\
  take (j - 1) (_refinements s) = take (j - 1) (_refinements s').

End Far.

(* ===================================================================== *)
(** ** far: uniform refinement on the objects the vectors hold *)
(* ===================================================================== *)

(** [RefineUniform] calls [initialize] and [refine] on the refinement and on
    the child level that [_refinements] and [_levels] hold after [resize]:
    fresh objects when the vectors had to grow, the objects of an earlier
    call when they had not.  Here the step is given these two objects and
    may fail on them. *)
Module InPlace.
Section Tables.
Context {R : Type} `{RF : Refinement R}.

(** Modelled from the spec: [initialize(parent, child)] followed by
    [refine(options)], as a function of the options, the parent level, the
    marked faces, and the refinement and the child level they are called on
    (vtr/refinement.h is not among the sources); [None] is a fatal
    assertion. *)
Variable initializeAndRefine :
  RefineOptions -> VtrLevel -> gset VtrIndex -> R -> VtrLevel -> option (R * VtrLevel).

(** Modelled from the spec: on a default-constructed refinement and child
    level the step completes ("Failure: none at runtime in valid inputs"),
    with the result of [refine]. *)
Definition completesOnFresh : Prop :=
  forall options parentLevel marked,
    initializeAndRefine options parentLevel marked VtrRefinement_new VtrLevel_new
    = Some (refine options parentLevel marked).

(** Modelled from the spec: [initialize] "empties child", so a step that
    completes on objects of an earlier call gives what it gives on fresh
    ones; it need not complete ("called twice without Unrefine" is a fatal
    assertion). *)
Definition emptiesChild : Prop :=
  forall options parentLevel marked refinement childLevel result,
    initializeAndRefine options parentLevel marked refinement childLevel = Some result ->
    result = refine options parentLevel marked.

(** [_refinements[i-1].initialize(_levels[i-1], _levels[i]);
    _refinements[i-1].refine(options)]. *)
Definition refineLevel (options : RefineOptions) (i : nat) (marked : gset VtrIndex)
                       (t : FarRefineTables (R := R)) : option (FarRefineTables (R := R)) :=
  let parentLevel := nth (i - 1) (_levels t) VtrLevel_new in
  let childLevel := nth i (_levels t) VtrLevel_new in
  let refinement := nth (i - 1) (_refinements t) VtrRefinement_new in
  match initializeAndRefine options parentLevel marked refinement childLevel with
  | Some (refinement, childLevel) =>
      Some (mkFarRefineTables (_subdivType t) (_subdivOptions t) (_isUniform t) (_maxLevel t)
              (<[ i := childLevel ]> (_levels t))
              (<[ (i - 1)%nat := refinement ]> (_refinements t)))
  | None => None
  end.

(** Body of the loop of [RefineUniform]; a failed assertion ends the call. *)
Definition uniformStep (maxLevel : nat) (fullTopology : bool)
                       (st : option (RefineOptions * FarRefineTables (R := R))) (i : nat)
  : option (RefineOptions * FarRefineTables (R := R)) :=
  match st with
  | None => None
  | Some (refineOptions, t) =>
      let refineOptions :=
        set_faceTopologyOnly (if fullTopology then false else (i =? maxLevel)%nat)
                             refineOptions in
      match refineLevel refineOptions i ∅ t with
      | Some t => Some (refineOptions, t)
      | None => None
      end
  end.

Definition RefineUniform (maxLevel : Z) (fullTopology computeMasks : bool)
                         (t : FarRefineTables (R := R)) : option (FarRefineTables (R := R)) :=
  if negb (refinePrecondition maxLevel t) then None
  else
    let t := allocateLevels true maxLevel t in
    let refineOptions := set_computeMasks computeMasks (set_sparse false RefineOptions_new) in
    match foldl (uniformStep (Z.to_nat maxLevel) fullTopology)
                (Some (refineOptions, t)) (seq 1 (Z.to_nat maxLevel)) with
    | Some (_, t) => Some t
    | None => None
    end.

End Tables.
End InPlace.

(* ===================================================================== *)
(** ** Concrete neighbourhoods, kernels and meshes to run the code on *)
(* ===================================================================== *)

Module Sample.

(** An edge neighbourhood given by its values. *)
Record Edge : Set := mkEdge {
  edge_sharpness : Q;
  edge_childSharpnesses : Q * Q;
  edge_faceCount : Z
}.

#[global] Instance Edge_neighborhood : EDGE.Neighborhood Edge := {|
  EDGE.GetSharpness := edge_sharpness;
  EDGE.GetChildSharpnesses := fun e _ => edge_childSharpnesses e
|}.

(** A vertex neighbourhood given by its values. *)
Record Vertex : Set := mkVertex {
  vertex_edgeCount : Z;
  vertex_sharpness : Q;
  vertex_sharpnessPerEdge : list Q;
  vertex_childSharpness : Q;
  vertex_childSharpnessPerEdge : list Q
}.

#[global] Instance Vertex_neighborhood : VERTEX.Neighborhood Vertex := {|
  VERTEX.GetEdgeCount := vertex_edgeCount;
  VERTEX.GetSharpness := vertex_sharpness;
  VERTEX.GetSharpnessPerEdge := vertex_sharpnessPerEdge;
  VERTEX.GetChildSharpnessPerEdge := fun v _ => vertex_childSharpnessPerEdge v;
  VERTEX.GetChildSharpness := fun v _ => vertex_childSharpness v
|}.

(** Modelled from the spec: the smooth Catmark edge mask (sdc/catmarkScheme.h
    is not among the sources): the two endpoints weigh 3/8 each and there
    is one face weight per incident face; the remaining 1/4 is shared
    equally by the faces, 1/8 each for the two faces of an interior edge. *)
Definition smoothMaskForEdge (edge : Edge) (mask : Mask) : Mask :=
  let faceCount := edge_faceCount edge in
  let mask := SetVertexWeightCount 2 mask in
  let mask := SetEdgeWeightCount 0 mask in
  let mask := SetFaceWeightCount faceCount mask in
  let mask := setVertexWeight 0 (3 # 8) mask in
  let mask := setVertexWeight 1 (3 # 8) mask in
  forLoop faceCount (fun i m => setFaceWeight i ((1 # 4) / inject_Z faceCount) m) mask.

(** Modelled from the spec: the smooth Catmark vertex mask on valence n:
    the vertex weighs (n-2)/n, each incident edge 1/n^2 and each incident
    face 1/n^2. *)
Definition smoothMaskForVertex (vertex : Vertex) (mask : Mask) : Mask :=
  let n := vertex_edgeCount vertex in
  let mask := SetVertexWeightCount 1 mask in
  let mask := SetEdgeWeightCount n mask in
  let mask := SetFaceWeightCount n mask in
  let mask := setVertexWeight 0 (inject_Z (n - 2) / inject_Z n) mask in
  let mask := forLoop n (fun i m => setEdgeWeight i (1 / inject_Z (n * n)) m) mask in
  forLoop n (fun i m => setFaceWeight i (1 / inject_Z (n * n)) m) mask.

(** Modelled from the spec: the Catmark crease mask of a vertex: the vertex
    weighs 6/8, the far ends of the sharp incident edges 1/8 each, every
    other edge weight is zero and there are no face weights.  A null
    sharpness pointer is read as no sharp edge. *)
Definition creaseMaskForVertex (vertex : Vertex) (mask : Mask) (sharpness : option (list Q)) : Mask :=
  let n := vertex_edgeCount vertex in
  let s := default [] sharpness in
  let mask := SetVertexWeightCount 1 mask in
  let mask := SetEdgeWeightCount n mask in
  let mask := SetFaceWeightCount 0 mask in
  let mask := setVertexWeight 0 (6 # 8) mask in
  forLoop n (fun i m =>
               setEdgeWeight i (if Qlt_bool 0 (nth (Z.to_nat i) s 0) then 1 # 8 else 0) m) mask.

#[global] Instance Catmark_masks : SchemeMasks Edge Vertex := {|
  assignSmoothMaskForEdge := smoothMaskForEdge;
  assignCreaseMaskForVertex := creaseMaskForVertex;
  assignSmoothMaskForVertex := smoothMaskForVertex
|}.

(** Modelled from the spec: [determineVertexRule] (sdc/crease.h is not among
    the sources): with k the number of incident edges of sharpness > 0,
    Corner when the vertex sharpness is at least 1, else Smooth, Dart,
    Crease or Corner as k is 0, 1, 2 or more. *)
Definition determineVertexRule (vertexSharpness : Q) (edgeSharpness : option (list Q)) : Rule :=
  let k := length (filter (fun s => Qlt_bool 0 s = true) (default [] edgeSharpness)) in
  if Qle_bool 1 vertexSharpness then RULE_CORNER
  else match k with
       | 0%nat => RULE_SMOOTH
       | 1%nat => RULE_DART
       | 2%nat => RULE_CREASE
       | _ => RULE_CORNER
       end.

(** Modelled from the spec: [computeFractionalWeight]: 0 when no sharpness
    of the parent turns to 0 in the child, otherwise the parent sharpness
    of what does (the mean, when several values do), clamped to at most
    1. *)
Definition fractionalWeight (pVertexSharpness cVertexSharpness : Q)
                            (pEdgeSharpness cEdgeSharpness : option (list Q)) : Q :=
  let pairs := (pVertexSharpness, cVertexSharpness)
               :: zip (default [] pEdgeSharpness) (default [] cEdgeSharpness) in
  let turning := filter (fun pc => Qlt_bool 0 (fst pc) && Qle_bool (snd pc) 0 = true) pairs in
  match turning with
  | [] => 0
  | _ =>
      let mean := foldr Qplus 0 (map fst turning) / inject_Z (Z.of_nat (length turning)) in
      if Qle_bool 1 mean then 1 else mean
  end.

#[global] Instance Crease_queries : CreaseQueries := {|
  DetermineVertexVertexRule := fun _ vs _ es => determineVertexRule vs es;
  ComputeFractionalWeightAtVertex := fun _ pvs cvs _ pes ces => fractionalWeight pvs cvs pes ces
|}.

Definition uniformOptions : SdcOptions := mkSdcOptions CREASE_UNIFORM.
Definition chaikinOptions : SdcOptions := mkSdcOptions CREASE_CHAIKIN.

(** A mask whose arrays are cleared, for the caller to hand in. *)
Definition blankMask : Mask := mkMask 0 0 0 (fun _ => 0) (fun _ => 0) (fun _ => 0).

(** The weights of a mask in lowest terms. *)
Definition readMask (m : Mask) : list Q * list Q * list Q :=
  (map Qred (vertexWeights m), map Qred (edgeWeights m), map Qred (faceWeights m)).

(** An interior edge of sharpness 2 (both child edges of sharpness 1 under
    the uniform method). *)
Definition sharpEdge : Edge := mkEdge 2 (1, 1) 2.

(** An interior edge of sharpness 1/2 whose two child edges stay sharp, and
    one whose second child edge has become smooth (Chaikin). *)
Definition fadingEdgeBothSharp : Edge := mkEdge (1 # 2) (1 # 4, 1 # 8) 2.
Definition fadingEdgeOneSmooth : Edge := mkEdge (1 # 2) (1 # 4, 0) 2.

(** An interior edge of sharpness 6/5 whose two child edges are smooth: with
    smooth neighbours the Chaikin method gives 3 * (6/5) / 4 - 1 < 0, that
    is 0, so the child of this crease is Smooth. *)
Definition overSharpEdge : Edge := mkEdge (6 # 5) (0, 0) 2.

(** A smooth interior edge. *)
Definition smoothEdge : Edge := mkEdge 0 (0, 0) 2.

(** A valence-4 vertex with three incident edges of sharpness 1/4 that all
    turn smooth in the child: a Corner whose child is Smooth. *)
Definition fadingCorner : Vertex :=
  mkVertex 4 0 [1 # 4; 1 # 4; 1 # 4; 0] 0 [0; 0; 0; 0].

(** *** A stand-in for [VtrRefinement] *)

(** What a sample refinement remembers: the options it was refined with,
    the depth of its parent and the faces that were marked. *)
Record Refined : Type := mkRefined {
  refined_options : option RefineOptions;
  refined_parentDepth : nat;
  refined_marked : list VtrIndex
}.

(** Modelled from the spec: the counts of a refinement step on a quad mesh
    (every face yields one child vertex and four child faces, every edge
    one child vertex and two child edges, every vertex survives); the
    child's adjacency tables are left empty. *)
Definition refineCounts (options : RefineOptions) (parentLevel : VtrLevel)
                        (marked : gset VtrIndex) : Refined * VtrLevel :=
  (mkRefined (Some options) (depth parentLevel) (elements marked),
   mkVtrLevel (S (depth parentLevel))
              (4 * faceCount parentLevel)
              (2 * edgeCount parentLevel + 4 * faceCount parentLevel)
              (vertCount parentLevel + edgeCount parentLevel + faceCount parentLevel)
              [] [] [] [] [] [] [] []).

#[global] Instance Refined_refinement : Refinement Refined := {|
  VtrRefinement_new := mkRefined None 0 [];
  refine := refineCounts;
  childVertexIncomplete := fun _ _ => false;
  RefineOptions_new := mkRefineOptions false false false false false
|}.

(** The sentinel of infinite sharpness used in the runs. *)
Definition infinite : Q := 10.

(** *** Meshes *)

(** A 2 x 2 grid of quads, all smooth:
<<
    6---7---8
    | 2 | 3 |
    3---4---5
    | 0 | 1 |
    0---1---2
>>
    edges 0..5 are the horizontal ones, bottom row first, edges 6..11 the
    vertical ones, bottom row first. *)
Definition grid2x2 : VtrLevel := {|
  depth := 0; faceCount := 4; edgeCount := 12; vertCount := 9;
  faceVerts := [[0;1;4;3]; [1;2;5;4]; [3;4;7;6]; [4;5;8;7]];
  faceEdges := [[0;7;2;6]; [1;8;3;7]; [2;10;4;9]; [3;11;5;10]];
  edgeVerts := [[0;1]; [1;2]; [3;4]; [4;5]; [6;7]; [7;8];
                [0;3]; [1;4]; [2;5]; [3;6]; [4;7]; [5;8]];
  edgeFaces := [[0]; [1]; [0;2]; [1;3]; [2]; [3];
                [0]; [0;1]; [1]; [2]; [2;3]; [3]];
  vertFaces := [[0]; [0;1]; [1]; [0;2]; [0;1;3;2]; [1;3]; [2]; [2;3]; [3]];
  vertEdges := [[0;6]; [0;1;7]; [1;8]; [2;6;9]; [2;3;7;10]; [3;8;11];
                [4;9]; [4;5;10]; [5;11]];
  edgeSharpnessTable := replicate 12 0%Q;
  vertSharpnessTable := replicate 9 0%Q
|}%nat.

(** The same grid with corner vertex 0 infinitely sharp and the centre
    vertex 4 of sharpness 2. *)
Definition grid2x2Sharp : VtrLevel := {|
  depth := 0; faceCount := 4; edgeCount := 12; vertCount := 9;
  faceVerts := faceVerts grid2x2; faceEdges := faceEdges grid2x2;
  edgeVerts := edgeVerts grid2x2; edgeFaces := edgeFaces grid2x2;
  vertFaces := vertFaces grid2x2; vertEdges := vertEdges grid2x2;
  edgeSharpnessTable := replicate 12 0%Q;
  vertSharpnessTable := [infinite; 0; 0; 0; 2; 0; 0; 0; 0]%Q
|}%nat.

(** A non-manifold mesh of six quads, all smooth.  Face 0 = (0 1 2 3) has
    the boundary edges 1 = (1,2) and 3 = (3,0), which are opposite; its edge
    0 = (0,1) is shared with face 1 and its edge 2 = (2,3) with the two
    faces 2 and 3.  Faces 4 and 5 close the fans of vertices 2 and 3, which
    so have four faces and four edges each. *)
Definition finMesh : VtrLevel := {|
  depth := 0; faceCount := 6; edgeCount := 17; vertCount := 12;
  faceVerts := [[0;1;2;3]; [1;0;4;5]; [3;2;6;7]; [3;2;8;9]; [2;6;10;8]; [3;7;11;9]];
  faceEdges := [[0;1;2;3]; [0;4;5;6]; [2;7;8;9]; [2;10;11;12]; [7;13;14;10]; [9;15;16;12]];
  edgeVerts := [[0;1]; [1;2]; [2;3]; [3;0]; [0;4]; [4;5]; [5;1]; [2;6]; [6;7];
                [7;3]; [2;8]; [8;9]; [9;3]; [6;10]; [10;8]; [7;11]; [11;9]];
  edgeFaces := [[0;1]; [0]; [0;2;3]; [0]; [1]; [1]; [1]; [2;4]; [2];
                [2;5]; [3;4]; [3]; [3;5]; [4]; [4]; [5]; [5]];
  vertFaces := [[0;1]; [0;1]; [0;2;3;4]; [0;2;3;5]; [1]; [1];
                [2;4]; [2;5]; [3;4]; [3;5]; [4]; [5]];
  vertEdges := [[0;3;4]; [0;1;6]; [1;2;7;10]; [2;3;9;12]; [4;5]; [5;6];
                [7;8;13]; [8;9;15]; [10;11;14]; [11;12;16]; [13;14]; [15;16]];
  edgeSharpnessTable := replicate 17 0%Q;
  vertSharpnessTable := replicate 12 0%Q
|}%nat.

(** A 2 x 2 torus of quads, all smooth: every vertex has four faces and
    four edges and no edge is a boundary.  Vertex (i,j) is i + 2j; edges
    0..3 are the horizontal ones and 4..7 the vertical ones. *)
Definition torus2x2 : VtrLevel := {|
  depth := 0; faceCount := 4; edgeCount := 8; vertCount := 4;
  faceVerts := [[0;1;3;2]; [1;0;2;3]; [2;3;1;0]; [3;2;0;1]];
  faceEdges := [[0;5;2;4]; [1;4;3;5]; [2;7;0;6]; [3;6;1;7]];
  edgeVerts := [[0;1]; [1;0]; [2;3]; [3;2]; [0;2]; [1;3]; [2;0]; [3;1]];
  edgeFaces := [[0;2]; [1;3]; [2;0]; [3;1]; [0;1]; [1;0]; [2;3]; [3;2]];
  vertFaces := [[0;1;2;3]; [0;1;2;3]; [0;1;2;3]; [0;1;2;3]];
  vertEdges := [[0;4;1;6]; [1;5;0;7]; [2;6;3;4]; [3;7;2;5]];
  edgeSharpnessTable := replicate 8 0%Q;
  vertSharpnessTable := replicate 4 0%Q
|}%nat.

(** Refinement tables whose base level the factory has filled. *)
Definition tablesOn (base : VtrLevel) : FarRefineTables (R := Refined) :=
  mkFarRefineTables TYPE_CATMARK uniformOptions true 0 [base] [].

End Sample.

(* ===================================================================== *)
(** ** sdc: face-vertex masks, and the sum of a mask *)
(* ===================================================================== *)

(** The member the face-vertex query calls on its [FACE] template
    argument. *)
Module FACE.
Class Neighborhood (F : Type) : Type := {
  GetVertexCount : F -> Z
}.
End FACE.

(** [SdcScheme::ComputeFaceVertexMask].  [1.0f / vertCount] is the exact
    quotient here; for a count of 0 the C++ quotient is infinite and the
    loop does not run. *)
Definition ComputeFaceVertexMask {F : Type} `{FACE.Neighborhood F}
                                 (face : F) (mask : Mask) : Mask :=
  let vertCount := FACE.GetVertexCount face in
  let mask := SetVertexWeightCount vertCount mask in
  let mask := SetEdgeWeightCount 0 mask in
  let mask := SetFaceWeightCount 0 mask in
  let vWeight := 1 / inject_Z vertCount in
  forLoop vertCount (fun i m => setVertexWeight i vWeight m) mask.

(** The sum of a list of weights. *)
Definition sumQ (l : list Q) : Q := foldr Qplus 0 l.

(** The sum of the first [n] entries of a weight array. *)
Definition sumTo (w : Z -> Q) (n : Z) : Q := sumQ (map w (seqZ 0 n)).

(** The sum of all the weights a mask holds. *)
Definition maskSum (m : Mask) : Q :=
  sumTo (VertexWeight m) (vCount m)
  + sumTo (EdgeWeight m) (eCount m)
  + sumTo (FaceWeight m) (fCount m).

(* ===================================================================== *)
(** ** The vertex container of far_tutorial_4.cpp *)
(* ===================================================================== *)

Module Tutorial.

(** [struct Vertex]: [float _position[3]]. *)
Record Vertex : Set := mkVertex {
  _position0 : Q;
  _position1 : Q;
  _position2 : Q
}.

(** [Vertex(Vertex const & src)]: the members are not initialized before the
    body runs, and the body assigns [_position[0]], [_position[1]] and
    [_position[1]] again; [uninitialized] is what the new object's storage
    held. *)
Definition Vertex_copy (uninitialized src : Vertex) : Vertex :=
  let this := uninitialized in
  let this := mkVertex (_position0 src) (_position1 this) (_position2 this) in
  let this := mkVertex (_position0 this) (_position1 src) (_position2 this) in
  mkVertex (_position0 this) (_position1 src) (_position2 this).

Definition Clear (this : Vertex) : Vertex := mkVertex 0 0 0.

Definition AddWithWeight (src : Vertex) (weight : Q) (this : Vertex) : Vertex :=
  mkVertex (_position0 this + weight * _position0 src)
           (_position1 this + weight * _position1 src)
           (_position2 this + weight * _position2 src).

Definition AddVaryingWithWeight (src : Vertex) (weight : Q) (this : Vertex) : Vertex := this.

Definition SetPosition (x y z : Q) (this : Vertex) : Vertex := mkVertex x y z.

Definition GetPosition (this : Vertex) : list Q :=
  [_position0 this; _position1 this; _position2 this].

(** A destination vertex cleared and then fed a list of weighted sources,
    the way a mask or a stencil is applied through this interface. *)
Definition accumulate (sources : list (Vertex * Q)) (this : Vertex) : Vertex :=
  foldl (fun acc sw => AddWithWeight (fst sw) (snd sw) acc) (Clear this) sources.

(** Two positions that are equal as rationals. *)
Definition samePosition (a b : Vertex) : Prop :=
  _position0 a == _position0 b /\ _position1 a == _position1 b
  /\ _position2 a == _position2 b.

End Tutorial.

(* ===================================================================== *)
(** ** far: notions for the further properties *)
(* ===================================================================== *)

Section FarMore.
Context {R : Type} `{RF : Refinement R}.
Variable INFINITE : Q.

(** The options iteration [i] of [RefineUniform] refines with. *)
Definition uniformOptionsAt (maxLevel : nat) (fullTopology computeMasks : bool) (i : nat)
  : RefineOptions :=
  set_faceTopologyOnly (if fullTopology then false else (i =? maxLevel)%nat)
    (set_computeMasks computeMasks (set_sparse false RefineOptions_new)).

(** The faces of a vertex, unless the vertex is flagged incomplete. *)
Definition facesOfComplete (s : VtrSparseSelector (R := R)) (v : VtrIndex) : gset VtrIndex :=
  if isVertexIncomplete s v then ∅ else list_to_set (accessVertFaces (parent s) v).

(** What the iterations of the three loops of the analyzer add to the
    selection, iteration by iteration. *)
Definition faceContribution (s : VtrSparseSelector (R := R)) (f : VtrIndex) : gset VtrIndex :=
  if negb (length (accessFaceVerts (parent s) f) =? 4)%nat || quadNeedsIsolation (parent s) f
  then {[ f ]} else ∅.

Definition vertContribution (s : VtrSparseSelector (R := R)) (v : VtrIndex) : gset VtrIndex :=
  if selectVertex INFINITE (parent s) v then facesOfComplete s v else ∅.

Definition edgeContribution (s : VtrSparseSelector (R := R)) (e : VtrIndex) : gset VtrIndex :=
  if Qle_bool (edgeSharpness (parent s) e) 0
     || (length (accessEdgeFaces (parent s) e) <? 2)%nat
  then ∅
  else facesOfComplete s (at_ (accessEdgeVerts (parent s) e) 0)
       ∪ facesOfComplete s (at_ (accessEdgeVerts (parent s) e) 1).

(** A level without anything to isolate: quads only, none with more than two
    boundary edges or with two boundary edges and as many faces at edge 0 as
    at edge 2; smooth vertices only, each with four faces and four edges or
    with two faces and another number of edges; smooth edges only. *)
Definition regularLevel (level : VtrLevel) : Prop :=
  (forall f, (f < faceCount level)%nat ->
     length (accessFaceVerts level f) = 4%nat /\
     (boundaryEdgeSum level f <= 2)%nat /\
     (boundaryEdgeSum level f = 2%nat ->
      length (accessEdgeFaces level (at_ (accessFaceEdges level f) 0))
      <> length (accessEdgeFaces level (at_ (accessFaceEdges level f) 2)))) /\
  (forall v, (v < vertCount level)%nat ->
     vertSharpness level v <= 0 /\
     ((length (accessVertFaces level v) = length (accessVertEdges level v)
       /\ length (accessVertFaces level v) = 4%nat)
      \/ (length (accessVertFaces level v) <> length (accessVertEdges level v)
          /\ length (accessVertFaces level v) = 2%nat))) /\
  (forall e, (e < edgeCount level)%nat -> edgeSharpness level e <= 0).

End FarMore.

(* ===================================================================== *)
(** ** Further concrete inputs *)
(* ===================================================================== *)

Module SampleMore.

(** A face neighbourhood given by its vertex count. *)
Record Face : Set := mkFace {
  face_vertexCount : Z
}.

#[global] Instance Face_neighborhood : FACE.Neighborhood Face := {|
  FACE.GetVertexCount := face_vertexCount
|}.

Definition pentagon : Face := mkFace 5.

(** An interior edge of sharpness 1/2 under the uniform method. *)
Definition halfSharpEdge : Sample.Edge := Sample.mkEdge (1 # 2) (0, 0) 2.

(** A valence-4 vertex without any sharpness. *)
Definition smoothVertex : Sample.Vertex :=
  Sample.mkVertex 4 0 [0; 0; 0; 0] 0 [0; 0; 0; 0].

(** The corner mask and the smooth mask of the fading corner. *)
Definition cornerMask : Mask := assignCornerMaskForVertex Sample.fadingCorner Sample.blankMask.
Definition smoothMask : Mask := Sample.smoothMaskForVertex Sample.fadingCorner Sample.blankMask.

(** Three positions of the interface of the tutorial. *)
Definition p100 : Tutorial.Vertex := Tutorial.mkVertex 1 0 0.
Definition p010 : Tutorial.Vertex := Tutorial.mkVertex 0 1 0.
Definition p123 : Tutorial.Vertex := Tutorial.mkVertex 1 2 3.

(** Modelled from the spec: a refinement step that asserts that it is given
    a fresh child level (depth 0 and no vertices) and then refines as the
    sample refinement does. *)
Definition assertingStep (options : RefineOptions) (parentLevel : VtrLevel)
                         (marked : gset VtrIndex) (refinement : Sample.Refined)
                         (childLevel : VtrLevel)
  : option (Sample.Refined * VtrLevel) :=
  if (depth childLevel =? 0)%nat && (vertCount childLevel =? 0)%nat
  then Some (Sample.refineCounts options parentLevel marked)
  else None.

End SampleMore.

(* ===================================================================== *)
(** ** Facts about comparisons and rules *)
(* ===================================================================== *)

Lemma Qlt_bool_true (x y : Q) : Qlt_bool x y = true <-> x < y.
Proof.
  unfold Qlt_bool. rewrite negb_true_iff.
  split.
  - intros Hb. apply Qnot_le_lt. intros Hle.
    apply Qle_bool_iff in Hle. congruence.
  - intros Hlt. destruct (Qle_bool y x) eqn:E; [|reflexivity].
    apply Qle_bool_iff in E. exfalso. exact (Qlt_not_le _ _ Hlt E).
Qed.

Lemma Qlt_bool_false (x y : Q) : Qlt_bool x y = false <-> y <= x.
Proof.
  unfold Qlt_bool. rewrite negb_false_iff. apply Qle_bool_iff.
Qed.

Lemma Qle_bool_false (x y : Q) : Qle_bool x y = false <-> y < x.
Proof.
  rewrite <- Qlt_bool_true. unfold Qlt_bool.
  destruct (Qle_bool x y); simpl; split; congruence.
Qed.

Lemma Rule_eqb_eq (a b : Rule) : Rule_eqb a b = true <-> a = b.
Proof. destruct a, b; simpl; split; congruence. Qed.

Lemma Rule_eqb_neq (a b : Rule) : Rule_eqb a b = false <-> a <> b.
Proof. destruct a, b; simpl; split; congruence. Qed.

(* ===================================================================== *)
(** ** Facts about the weight loops *)
(* ===================================================================== *)

Lemma inCount_nonpos (n j : Z) : (n <= 0)%Z -> inCount n j = false.
Proof. unfold inCount. intros H. destruct (Z.leb_spec 0 j), (Z.ltb_spec j n); simpl; try reflexivity; lia. Qed.

Lemma inCount_succ (k : nat) (j : Z) :
  inCount (Z.of_nat (S k)) j = inCount (Z.of_nat k) j || (j =? Z.of_nat k)%Z.
Proof.
  unfold inCount.
  destruct (Z.leb_spec 0 j), (Z.ltb_spec j (Z.of_nat (S k))),
           (Z.ltb_spec j (Z.of_nat k)), (Z.eqb_spec j (Z.of_nat k)); simpl; try reflexivity; lia.
Qed.

Lemma inCount_self (n : Z) : inCount n n = false.
Proof. unfold inCount. rewrite Z.ltb_irrefl. apply andb_false_r. Qed.

Lemma forLoop_nonpos {S : Type} (n : Z) (body : Z -> S -> S) (s : S) :
  (n <= 0)%Z -> forLoop n body s = s.
Proof. intros H. unfold forLoop. rewrite seqZ_nil by lia. reflexivity. Qed.

Lemma forLoop_succ {S : Type} (k : nat) (body : Z -> S -> S) (s : S) :
  forLoop (Z.of_nat (Datatypes.S k)) body s = body (Z.of_nat k) (forLoop (Z.of_nat k) body s).
Proof. unfold forLoop. rewrite seqZ_S, foldl_snoc. simpl. reflexivity. Qed.

(** A loop that rewrites edge weight [i] from its old value touches the
    first [n] edge weights and nothing else. *)
Lemma forLoop_edge (g : Z -> Q -> Q) (n : Z) (d0 : Mask) :
  let r := forLoop n (fun i d => setEdgeWeight i (g i (EdgeWeight d i)) d) d0 in
  vCount r = vCount d0 /\ eCount r = eCount d0 /\ fCount r = fCount d0 /\
  vWeights r = vWeights d0 /\ fWeights r = fWeights d0 /\
  forall j, eWeights r j = if inCount n j then g j (eWeights d0 j) else eWeights d0 j.
Proof.
  destruct (Z.le_gt_cases n 0) as [Hn|Hn].
  - simpl. rewrite forLoop_nonpos by exact Hn.
    repeat split. intros j. rewrite inCount_nonpos by exact Hn. reflexivity.
  - rewrite <- (Z2Nat.id n) by lia. clear Hn.
    induction (Z.to_nat n) as [|k IH].
    + simpl. rewrite forLoop_nonpos by lia.
      repeat split. intros j. rewrite inCount_nonpos by lia. reflexivity.
    + simpl in *. rewrite forLoop_succ.
      destruct IH as (Hv & He & Hf & Hvw & Hfw & Hew).
      simpl. repeat split; try assumption.
      intros j. rewrite inCount_succ. unfold store, EdgeWeight.
      destruct (Z.eqb_spec j (Z.of_nat k)) as [->|Hne].
      * rewrite orb_true_r. rewrite Hew.
        rewrite inCount_self. reflexivity.
      * rewrite orb_false_r. apply Hew.
Qed.

(** The same for face weights. *)
Lemma forLoop_face (g : Z -> Q -> Q) (n : Z) (d0 : Mask) :
  let r := forLoop n (fun i d => setFaceWeight i (g i (FaceWeight d i)) d) d0 in
  vCount r = vCount d0 /\ eCount r = eCount d0 /\ fCount r = fCount d0 /\
  vWeights r = vWeights d0 /\ eWeights r = eWeights d0 /\
  forall j, fWeights r j = if inCount n j then g j (fWeights d0 j) else fWeights d0 j.
Proof.
  destruct (Z.le_gt_cases n 0) as [Hn|Hn].
  - simpl. rewrite forLoop_nonpos by exact Hn.
    repeat split. intros j. rewrite inCount_nonpos by exact Hn. reflexivity.
  - rewrite <- (Z2Nat.id n) by lia. clear Hn.
    induction (Z.to_nat n) as [|k IH].
    + simpl. rewrite forLoop_nonpos by lia.
      repeat split. intros j. rewrite inCount_nonpos by lia. reflexivity.
    + simpl in *. rewrite forLoop_succ.
      destruct IH as (Hv & He & Hf & Hvw & Hfw & Hew).
      simpl. repeat split; try assumption.
      intros j. rewrite inCount_succ. unfold store, FaceWeight.
      destruct (Z.eqb_spec j (Z.of_nat k)) as [->|Hne].
      * rewrite orb_true_r. rewrite Hew.
        rewrite inCount_self. reflexivity.
      * rewrite orb_false_r. apply Hew.
Qed.

Lemma CombineVertexVertexMasks_stages (this : Mask) (tc dc : Q) (dst : Mask) :
  CombineVertexVertexMasks this tc dc dst =
  combineFaceWeights this tc dc
    (combineEdgeWeights this tc dc
       (setVertexWeight 0 (dc * VertexWeight dst 0 + tc * VertexWeight this 0) dst)).
Proof. reflexivity. Qed.

Lemma combineEdgeWeights_spec (this : Mask) (tc dc : Q) (dst : Mask) :
  let r := combineEdgeWeights this tc dc dst in
  vCount r = vCount dst /\ fCount r = fCount dst /\
  vWeights r = vWeights dst /\ fWeights r = fWeights dst /\
  (covers (eCount this) (eCount dst) ->
   forall i, edgeWeightOr0 r i == dc * edgeWeightOr0 dst i + tc * edgeWeightOr0 this i).
Proof.
  unfold combineEdgeWeights, GetEdgeWeightCount. simpl.
  destruct (Z.eqb_spec (eCount this) 0) as [Hc|Hc].
  - repeat split. intros [Hp|Hp] i; unfold edgeWeightOr0;
      rewrite ?Hp, ?Hc; rewrite (inCount_nonpos 0) by lia; ring.
  - destruct (Z.eqb_spec (eCount dst) 0) as [Hd|Hd].
    + pose proof (forLoop_edge (fun i _ => tc * EdgeWeight this i) (eCount this)
                    (SetEdgeWeightCount (eCount this) dst)) as H.
      simpl in H. destruct H as (Hv & He & Hf & Hvw & Hfw & Hew).
      repeat split; try assumption.
      intros _ i. unfold edgeWeightOr0, EdgeWeight in *.
      rewrite He, Hew, Hd. rewrite (inCount_nonpos 0) by lia.
      destruct (inCount (eCount this) i); ring.
    + pose proof (forLoop_edge (fun i old => dc * old + tc * EdgeWeight this i)
                    (eCount this) dst) as H.
      simpl in H. destruct H as (Hv & He & Hf & Hvw & Hfw & Hew).
      repeat split; try assumption.
      intros [Hp|Hp] i; [contradiction|].
      unfold edgeWeightOr0, EdgeWeight in *. rewrite He, Hew, Hp.
      destruct (inCount (eCount this) i); ring.
Qed.

Lemma combineFaceWeights_spec (this : Mask) (tc dc : Q) (dst : Mask) :
  let r := combineFaceWeights this tc dc dst in
  vCount r = vCount dst /\ eCount r = eCount dst /\
  vWeights r = vWeights dst /\ eWeights r = eWeights dst /\
  (covers (fCount this) (fCount dst) ->
   forall i, faceWeightOr0 r i == dc * faceWeightOr0 dst i + tc * faceWeightOr0 this i).
Proof.
  unfold combineFaceWeights, GetFaceWeightCount. simpl.
  destruct (Z.eqb_spec (fCount this) 0) as [Hc|Hc].
  - repeat split. intros [Hp|Hp] i; unfold faceWeightOr0;
      rewrite ?Hp, ?Hc; rewrite (inCount_nonpos 0) by lia; ring.
  - destruct (Z.eqb_spec (fCount dst) 0) as [Hd|Hd].
    + pose proof (forLoop_face (fun i _ => tc * FaceWeight this i) (fCount this)
                    (SetFaceWeightCount (fCount this) dst)) as H.
      simpl in H. destruct H as (Hv & He & Hf & Hvw & Hfw & Hew).
      repeat split; try assumption.
      intros _ i. unfold faceWeightOr0, FaceWeight in *.
      rewrite Hf, Hew, Hd. rewrite (inCount_nonpos 0) by lia.
      destruct (inCount (fCount this) i); ring.
    + pose proof (forLoop_face (fun i old => dc * old + tc * FaceWeight this i)
                    (fCount this) dst) as H.
      simpl in H. destruct H as (Hv & He & Hf & Hvw & Hfw & Hew).
      repeat split; try assumption.
      intros [Hp|Hp] i; [contradiction|].
      unfold faceWeightOr0, FaceWeight in *. rewrite Hf, Hew, Hp.
      destruct (inCount (fCount this) i); ring.
Qed.

(** What [CombineVertexVertexMasks] leaves in [dst]: the one vertex weight
    is [dstCoeff * dst + thisCoeff * this]; so are the edge and the face
    weights, an absent weight counting as zero, provided [this] covers
    [dst]. *)
Lemma CombineVertexVertexMasks_spec (this : Mask) (tc dc : Q) (dst : Mask) :
  let r := CombineVertexVertexMasks this tc dc dst in
  vCount r = vCount dst /\
  VertexWeight r 0 = dc * VertexWeight dst 0 + tc * VertexWeight this 0 /\
  (covers (eCount this) (eCount dst) ->
   forall i, edgeWeightOr0 r i == dc * edgeWeightOr0 dst i + tc * edgeWeightOr0 this i) /\
  (covers (fCount this) (fCount dst) ->
   forall i, faceWeightOr0 r i == dc * faceWeightOr0 dst i + tc * faceWeightOr0 this i).
Proof.
  simpl. rewrite CombineVertexVertexMasks_stages.
  set (d1 := setVertexWeight 0 _ dst).
  pose proof (combineEdgeWeights_spec this tc dc d1) as HE.
  pose proof (combineFaceWeights_spec this tc dc (combineEdgeWeights this tc dc d1)) as HF.
  simpl in HE, HF.
  destruct HE as (Ev & Ef & Evw & Efw & Ee).
  destruct HF as (Fv & Fe & Fvw & Few & Ff).
  split; [rewrite Fv, Ev; reflexivity|].
  split; [unfold VertexWeight at 1; rewrite Fvw, Evw; reflexivity|].
  split.
  - intros Hc i. unfold edgeWeightOr0 at 1. unfold EdgeWeight at 1.
    rewrite Fe, Few. apply (Ee Hc i).
  - intros Hc i. rewrite Ff by (rewrite Ef; exact Hc).
    unfold faceWeightOr0, FaceWeight. rewrite Ef, Efw. reflexivity.
Qed.

(* ===================================================================== *)
(** ** Edge-vertex masks *)
(* ===================================================================== *)

Section EdgeVertexMask.
Context {E V : Type}.
Context `{EN : EDGE.Neighborhood E} `{SM : SchemeMasks E V}.
Variable _options : SdcOptions.

Lemma assignCreaseMaskForEdge_weights (edge : E) (mask : Mask) :
  let r := assignCreaseMaskForEdge edge mask in
  vertexWeights r = [1 # 2; 1 # 2] /\ edgeWeights r = [] /\ faceWeights r = [].
Proof. repeat split. Qed.

(** A parent of unknown rule and positive sharpness is not smooth. *)
Lemma parent_not_smooth (edge : E) :
  0 < EDGE.GetSharpness edge ->
  Rule_eqb RULE_UNKNOWN RULE_SMOOTH
  || (Rule_eqb RULE_UNKNOWN RULE_UNKNOWN && Qle_bool (EDGE.GetSharpness edge) 0) = false.
Proof. intros Hs. simpl. apply Qle_bool_false. exact Hs. Qed.

(** With the child rule given as Smooth and the parent a crease (given, or
    found from a positive sharpness), the query ends in the blend. *)
Lemma ComputeEdgeVertexMask_child_smooth (edge : E) (mask : Mask) (parentRule : Rule) :
  parentRule = RULE_CREASE \/ (parentRule = RULE_UNKNOWN /\ 0 < EDGE.GetSharpness edge) ->
  ComputeEdgeVertexMask (V := V) _options edge mask parentRule RULE_SMOOTH
  = creaseToSmoothMask edge mask.
Proof.
  intros [->|[-> Hs]]; unfold ComputeEdgeVertexMask.
  - reflexivity.
  - rewrite parent_not_smooth by exact Hs. reflexivity.
Qed.

(** The weights the blend leaves: the parent sharpness itself is the
    weight of the crease. *)
Lemma creaseToSmoothMask_weights (edge : E) (mask : Mask) :
  let smooth := assignSmoothMaskForEdge edge mask in
  let w := EDGE.GetSharpness edge in
  let r := creaseToSmoothMask (V := V) edge mask in
  vCount r = vCount smooth /\ eCount r = eCount smooth /\ fCount r = fCount smooth /\
  VertexWeight r 0 = w * (1 # 2) + (1 - w) * VertexWeight smooth 0 /\
  VertexWeight r 1 = w * (1 # 2) + (1 - w) * VertexWeight smooth 1 /\
  forall j, FaceWeight r j =
            if inCount (fCount smooth) j then FaceWeight smooth j * (1 - w)
            else FaceWeight smooth j.
Proof.
  simpl. unfold creaseToSmoothMask.
  set (smooth := assignSmoothMaskForEdge edge mask).
  set (w := EDGE.GetSharpness edge).
  set (m1 := setVertexWeight 0 _ smooth).
  set (m2 := setVertexWeight 1 _ m1).
  pose proof (forLoop_face (fun _ old => old * (1 - w)) (GetFaceWeightCount m2) m2) as H.
  cbv beta zeta in H.
  set (r := forLoop _ _ m2) in *.
  destruct H as (Hv & He & Hf & Hvw & Hew & Hfw).
  unfold VertexWeight, FaceWeight.
  rewrite Hv, He, Hf, Hvw.
  repeat split.
  intros j. rewrite Hfw. reflexivity.
Qed.

(** Between 0 and 1 the sharpness is its own clamp, and the blend is the
    one the specification words. *)
Lemma creaseToSmoothMask_clamped_agrees (edge : E) (mask : Mask) :
  0 < EDGE.GetSharpness edge -> EDGE.GetSharpness edge < 1 ->
  creaseToSmoothMask_clamped (V := V) edge mask = creaseToSmoothMask edge mask.
Proof.
  intros H0 H1. unfold creaseToSmoothMask_clamped, creaseToSmoothMask, clamp01.
  apply Qle_bool_false in H0. apply Qle_bool_false in H1.
  rewrite H0, H1. reflexivity.
Qed.

(** C5.  With both rules left unknown, an edge of sharpness at most 0 gets
    the smooth mask of the scheme, and an edge of sharpness at least 1 gets
    the crease mask: vertex weights 1/2 and 1/2, no edge weights and no
    face weights. *)
Theorem ComputeEdgeVertexMask_unknown_rules (edge : E) (mask : Mask) :
  (EDGE.GetSharpness edge <= 0 ->
     ComputeEdgeVertexMask (V := V) _options edge mask RULE_UNKNOWN RULE_UNKNOWN
     = assignSmoothMaskForEdge edge mask) /\
  (1 <= EDGE.GetSharpness edge ->
     let r := ComputeEdgeVertexMask (V := V) _options edge mask RULE_UNKNOWN RULE_UNKNOWN in
     r = assignCreaseMaskForEdge edge mask /\
     vertexWeights r = [1 # 2; 1 # 2] /\ edgeWeights r = [] /\ faceWeights r = []).
Proof.
  split.
  - intros Hs. unfold ComputeEdgeVertexMask. simpl.
    apply Qle_bool_iff in Hs. rewrite Hs. reflexivity.
  - intros Hs. simpl.
    assert (Hr : ComputeEdgeVertexMask (V := V) _options edge mask RULE_UNKNOWN RULE_UNKNOWN
                 = assignCreaseMaskForEdge edge mask).
    { unfold ComputeEdgeVertexMask.
      rewrite parent_not_smooth by lra.
      unfold childIsCrease. simpl.
      apply Qle_bool_iff in Hs. rewrite Hs. reflexivity. }
    rewrite Hr. split; [reflexivity|]. apply assignCreaseMaskForEdge_weights.
Qed.

(** C10.  With both rules left unknown, a creasing method that is not
    uniform and a parent sharpness s strictly between 0 and 1, the child is
    taken for a crease exactly when both child edge sharpnesses are
    positive, and then the crease mask (1/2, 1/2) is assigned; otherwise
    the crease-to-smooth blend is: the counts of the scheme's smooth mask,
    each of the two vertex weights s * 1/2 + (1 - s) * the smooth weight,
    and each face weight the smooth weight times 1 - s, which is also the
    blend with s clamped to [0,1]. *)
Theorem ComputeEdgeVertexMask_chaikin_child (edge : E) (mask : Mask) :
  IsUniform (mkSdcCrease _options) = false ->
  0 < EDGE.GetSharpness edge -> EDGE.GetSharpness edge < 1 ->
  let c := EDGE.GetChildSharpnesses edge (mkSdcCrease _options) in
  let r := ComputeEdgeVertexMask (V := V) _options edge mask RULE_UNKNOWN RULE_UNKNOWN in
  (childIsCrease _options edge RULE_UNKNOWN = true <-> 0 < fst c /\ 0 < snd c) /\
  (0 < fst c /\ 0 < snd c ->
     r = assignCreaseMaskForEdge edge mask /\ vertexWeights r = [1 # 2; 1 # 2] /\
     edgeWeights r = [] /\ faceWeights r = []) /\
  (fst c <= 0 \/ snd c <= 0 ->
     let smooth := assignSmoothMaskForEdge edge mask in
     let s := EDGE.GetSharpness edge in
     r = creaseToSmoothMask edge mask /\
     r = creaseToSmoothMask_clamped edge mask /\
     vCount r = vCount smooth /\ eCount r = eCount smooth /\ fCount r = fCount smooth /\
     VertexWeight r 0 = s * (1 # 2) + (1 - s) * VertexWeight smooth 0 /\
     VertexWeight r 1 = s * (1 # 2) + (1 - s) * VertexWeight smooth 1 /\
     forall j, inCount (fCount smooth) j = true ->
               FaceWeight r j = FaceWeight smooth j * (1 - s)).
Proof.
  intros Hu H0 H1. simpl.
  assert (Hc : childIsCrease _options edge RULE_UNKNOWN
               = Qlt_bool 0 (fst (EDGE.GetChildSharpnesses edge (mkSdcCrease _options)))
                 && Qlt_bool 0 (snd (EDGE.GetChildSharpnesses edge (mkSdcCrease _options)))).
  { unfold childIsCrease. simpl. rewrite Hu.
    apply Qle_bool_false in H1. rewrite H1. reflexivity. }
  assert (Hr : ComputeEdgeVertexMask (V := V) _options edge mask RULE_UNKNOWN RULE_UNKNOWN
               = if childIsCrease _options edge RULE_UNKNOWN
                 then assignCreaseMaskForEdge edge mask
                 else creaseToSmoothMask edge mask).
  { unfold ComputeEdgeVertexMask. rewrite parent_not_smooth by exact H0. reflexivity. }
  rewrite Hr, Hc. clear Hr Hc.
  split; [|split].
  - rewrite andb_true_iff, !Qlt_bool_true. reflexivity.
  - intros [Ha Hb]. apply Qlt_bool_true in Ha, Hb. rewrite Ha, Hb. simpl.
    split; [reflexivity|]. apply assignCreaseMaskForEdge_weights.
  - intros Hc.
    assert (Hb : Qlt_bool 0 (fst (EDGE.GetChildSharpnesses edge (mkSdcCrease _options)))
                 && Qlt_bool 0 (snd (EDGE.GetChildSharpnesses edge (mkSdcCrease _options)))
                 = false).
    { destruct Hc as [Ha|Hb].
      - apply Qlt_bool_false in Ha. rewrite Ha. reflexivity.
      - apply Qlt_bool_false in Hb. rewrite Hb, andb_false_r. reflexivity. }
    rewrite Hb.
    pose proof (creaseToSmoothMask_weights edge mask) as Hw. cbv zeta in Hw.
    destruct Hw as (Wv & We & Wf & W0 & W1 & WF).
    split; [reflexivity|].
    split; [symmetry; apply creaseToSmoothMask_clamped_agrees; assumption|].
    repeat split; try assumption.
    intros j Hj. rewrite WF, Hj. reflexivity.
Qed.

End EdgeVertexMask.

(** C5, on two edges: a smooth edge, and an edge of sharpness 2. *)
Lemma ComputeEdgeVertexMask_unknown_rules_witness :
  ComputeEdgeVertexMask (V := Sample.Vertex) Sample.uniformOptions
    Sample.smoothEdge Sample.blankMask RULE_UNKNOWN RULE_UNKNOWN
  = assignSmoothMaskForEdge (V := Sample.Vertex) Sample.smoothEdge Sample.blankMask
  /\ vertexWeights (ComputeEdgeVertexMask (V := Sample.Vertex) Sample.uniformOptions
                      Sample.sharpEdge Sample.blankMask RULE_UNKNOWN RULE_UNKNOWN)
     = [1 # 2; 1 # 2].
Proof.
  split.
  - apply (proj1 (ComputeEdgeVertexMask_unknown_rules (V := Sample.Vertex)
                    Sample.uniformOptions Sample.smoothEdge Sample.blankMask)).
    vm_compute. discriminate.
  - apply (proj2 (ComputeEdgeVertexMask_unknown_rules (V := Sample.Vertex)
                    Sample.uniformOptions Sample.sharpEdge Sample.blankMask)).
    vm_compute. discriminate.
Defined.

(** C10, on two edges of sharpness 1/2 under the Chaikin method: one with
    both child edges sharp, and one with a smooth child edge, whose mask is
    the blend of the crease 1/2, 1/2 with the smooth mask 3/8, 3/8 and face
    weights 1/8, 1/8: vertex weights 7/16 and face weights 1/16. *)
Lemma ComputeEdgeVertexMask_chaikin_child_witness :
  let r := ComputeEdgeVertexMask (V := Sample.Vertex) Sample.chaikinOptions
             Sample.fadingEdgeOneSmooth Sample.blankMask RULE_UNKNOWN RULE_UNKNOWN in
  let smooth := Sample.smoothMaskForEdge Sample.fadingEdgeOneSmooth Sample.blankMask in
  (childIsCrease Sample.chaikinOptions Sample.fadingEdgeBothSharp RULE_UNKNOWN = true
   <-> 0 < 1 # 4 /\ 0 < 1 # 8)
  /\ vCount r = 2%Z /\ eCount r = 0%Z /\ fCount r = 2%Z
  /\ VertexWeight r 0 = (1 # 2) * (1 # 2) + (1 - (1 # 2)) * VertexWeight smooth 0
  /\ VertexWeight r 1 = (1 # 2) * (1 # 2) + (1 - (1 # 2)) * VertexWeight smooth 1
  /\ FaceWeight r 0 = FaceWeight smooth 0 * (1 - (1 # 2))
  /\ FaceWeight r 1 = FaceWeight smooth 1 * (1 - (1 # 2))
  /\ Sample.readMask r = ([7 # 16; 7 # 16], [], [1 # 16; 1 # 16]).
Proof.
  intros r smooth.
  assert (Hu : IsUniform (mkSdcCrease Sample.chaikinOptions) = false) by reflexivity.
  split.
  - refine (proj1 (ComputeEdgeVertexMask_chaikin_child (V := Sample.Vertex)
                     Sample.chaikinOptions Sample.fadingEdgeBothSharp Sample.blankMask
                     Hu _ _)); reflexivity.
  - pose proof (proj2 (proj2 (ComputeEdgeVertexMask_chaikin_child (V := Sample.Vertex)
                                Sample.chaikinOptions Sample.fadingEdgeOneSmooth
                                Sample.blankMask Hu eq_refl eq_refl))) as H.
    cbv zeta in H.
    destruct H as (_ & _ & Hv & He & Hf & H0 & H1 & HF).
    + right. vm_compute. discriminate.
    + split; [exact Hv|]. split; [exact He|]. split; [exact Hf|].
      split; [exact H0|]. split; [exact H1|].
      split; [exact (HF 0%Z eq_refl)|]. split; [exact (HF 1%Z eq_refl)|].
      vm_compute. reflexivity.
Defined.

(** C4.  An edge of sharpness 6/5 whose child is given as Smooth: the blend
    weighs the crease by 6/5, not by the clamped value 1, so the endpoints get
    21/40 each and the two faces -1/40 each; with the weight clamped, as the
    specification has it, the result would be the crease mask 1/2, 1/2 with
    face weights 0.  The parent rule given as Crease makes no difference. *)
Theorem ComputeEdgeVertexMask_blend_weight_unclamped :
  Sample.readMask (ComputeEdgeVertexMask (V := Sample.Vertex) Sample.chaikinOptions Sample.overSharpEdge
                     Sample.blankMask RULE_UNKNOWN RULE_SMOOTH)
  = ([21 # 40; 21 # 40], [], [-1 # 40; -1 # 40])
  /\ Sample.readMask (ComputeEdgeVertexMask (V := Sample.Vertex) Sample.chaikinOptions Sample.overSharpEdge
                        Sample.blankMask RULE_CREASE RULE_SMOOTH)
     = ([21 # 40; 21 # 40], [], [-1 # 40; -1 # 40])
  /\ Sample.readMask (creaseToSmoothMask_clamped (V := Sample.Vertex) Sample.overSharpEdge Sample.blankMask)
     = ([1 # 2; 1 # 2], [], [0; 0]).
Proof. repeat split. Qed.

(* ===================================================================== *)
(** ** Vertex-vertex masks *)
(* ===================================================================== *)

Section VertexVertexMask.
Context {E V : Type}.
Context `{VN : VERTEX.Neighborhood V} `{SM : SchemeMasks E V} `{CQ : CreaseQueries}.
Variable _options : SdcOptions.
Variable stackMask : Mask.

Lemma isSmoothOrDart_false (rule : Rule) :
  rule = RULE_CREASE \/ rule = RULE_CORNER -> isSmoothOrDart rule = false.
Proof. intros [->| ->]; reflexivity. Qed.

(** A parent rule that was given is kept. *)
Lemma parentRuleOf_given (vertex : V) (pRule cRule : Rule) :
  pRule <> RULE_UNKNOWN -> parentRuleOf _options vertex pRule cRule = pRule.
Proof.
  intros Hp. unfold parentRuleOf.
  apply Rule_eqb_neq in Hp. rewrite Hp, andb_false_r. reflexivity.
Qed.

(** A child rule that was given is kept. *)
Lemma childRuleOf_given (vertex : V) (cRule : Rule) :
  cRule <> RULE_UNKNOWN -> childRuleOf _options vertex cRule = cRule.
Proof.
  intros Hc. unfold childRuleOf. apply Rule_eqb_neq in Hc. rewrite Hc. reflexivity.
Qed.

(** When the parent rule is Crease or Corner and the child rule is another
    one, the query ends in [CombineVertexVertexMasks]. *)
Lemma ComputeVertexVertexMask_reaches_blend (vertex : V) (mask : Mask) (pRule cRule : Rule) :
  let cRule0 := defaultChildRule pRule cRule in
  let pR := parentRuleOf _options vertex pRule cRule0 in
  let cR := childRuleOf _options vertex cRule0 in
  pR = RULE_CREASE \/ pR = RULE_CORNER -> cR <> pR ->
  ComputeVertexVertexMask (E := E) _options stackMask vertex mask pRule cRule
  = CombineVertexVertexMasks
      (childMaskOf (E := E) _options stackMask vertex cR)
      (1 - fractionalWeightOf _options vertex pRule cRule0)
      (fractionalWeightOf _options vertex pRule cRule0)
      (assignMaskForRule (E := E) vertex mask pR (parentEdgeSharpness vertex pRule cRule0)).
Proof.
  intros cRule0 pR cR HpR Hne.
  unfold ComputeVertexVertexMask. fold cRule0. fold pR. fold cR.
  assert (Hp : isSmoothOrDart pRule = false).
  { destruct (isSmoothOrDart pRule) eqn:Hsd; [|reflexivity]. exfalso.
    assert (pR = pRule) as Heq.
    { apply parentRuleOf_given. intros ->. discriminate Hsd. }
    rewrite <- Heq in Hsd. rewrite (isSmoothOrDart_false pR HpR) in Hsd. discriminate. }
  rewrite Hp, (isSmoothOrDart_false pR HpR).
  assert (Hc0 : Rule_eqb cRule0 pR = false).
  { apply Rule_eqb_neq. intros Heq. apply Hne. unfold cR. rewrite Heq.
    apply childRuleOf_given. destruct HpR as [-> | ->]; discriminate. }
  rewrite Hc0.
  apply Rule_eqb_neq in Hne. rewrite Hne, andb_false_r. reflexivity.
Qed.

(** C1, as the code has it.  When the parent rule is Crease or Corner and the
    child rule differs from it, the final mask is
    pWeight * parentMask + cWeight * childMask with pWeight = w the
    fractional weight and cWeight = 1 - w: so for the vertex weight, and
    for the edge and face weights (an absent weight counting as 0) wherever
    the child mask covers the parent mask. *)
Theorem ComputeVertexVertexMask_blend (vertex : V) (mask : Mask) (pRule cRule : Rule) :
  let cRule0 := defaultChildRule pRule cRule in
  let pR := parentRuleOf _options vertex pRule cRule0 in
  let cR := childRuleOf _options vertex cRule0 in
  let parentMask :=
    assignMaskForRule (E := E) vertex mask pR (parentEdgeSharpness vertex pRule cRule0) in
  let childMask := childMaskOf (E := E) _options stackMask vertex cR in
  let w := fractionalWeightOf _options vertex pRule cRule0 in
  let r := ComputeVertexVertexMask (E := E) _options stackMask vertex mask pRule cRule in
  pR = RULE_CREASE \/ pR = RULE_CORNER -> cR <> pR ->
  vCount r = vCount parentMask /\
  VertexWeight r 0 = w * VertexWeight parentMask 0 + (1 - w) * VertexWeight childMask 0 /\
  (covers (eCount childMask) (eCount parentMask) ->
   forall i, edgeWeightOr0 r i
             == w * edgeWeightOr0 parentMask i + (1 - w) * edgeWeightOr0 childMask i) /\
  (covers (fCount childMask) (fCount parentMask) ->
   forall i, faceWeightOr0 r i
             == w * faceWeightOr0 parentMask i + (1 - w) * faceWeightOr0 childMask i).
Proof.
  intros cRule0 pR cR parentMask childMask w r HpR Hne.
  unfold r.
  rewrite (ComputeVertexVertexMask_reaches_blend vertex mask pRule cRule HpR Hne).
  apply CombineVertexVertexMasks_spec.
Qed.

End VertexVertexMask.

(** C1, on a Corner whose child is Smooth (fractional weight 1/4): the vertex
    weight, and edge weight 2, which only the child mask holds. *)
Lemma ComputeVertexVertexMask_blend_witness :
  let r := ComputeVertexVertexMask Sample.uniformOptions Sample.blankMask
             Sample.fadingCorner Sample.blankMask RULE_UNKNOWN RULE_UNKNOWN in
  let parentMask := assignCornerMaskForVertex Sample.fadingCorner Sample.blankMask in
  let childMask := Sample.smoothMaskForVertex Sample.fadingCorner Sample.blankMask in
  let w := Sample.fractionalWeight 0 0 (Some [1 # 4; 1 # 4; 1 # 4; 0]) (Some [0; 0; 0; 0]) in
  VertexWeight r 0 = w * VertexWeight parentMask 0 + (1 - w) * VertexWeight childMask 0
  /\ edgeWeightOr0 r 2 == w * edgeWeightOr0 parentMask 2 + (1 - w) * edgeWeightOr0 childMask 2.
Proof.
  pose proof (ComputeVertexVertexMask_blend (E := Sample.Edge) Sample.uniformOptions
                Sample.blankMask Sample.fadingCorner Sample.blankMask
                RULE_UNKNOWN RULE_UNKNOWN) as H.
  destruct H as (_ & Hv & He & _).
  - right. reflexivity.
  - discriminate.
  - split.
    + exact Hv.
    + apply He. left. reflexivity.
Defined.

(** C1 as the claim words it fails.  On the same vertex the parent (Corner)
    mask has vertex weight 1, the child (Smooth) mask 1/2 and w = 1/4: the code
    yields 1/4 * 1 + 3/4 * 1/2 = 5/8, whereas cWeight * parentMask +
    pWeight * childMask would be 3/4 * 1 + 1/4 * 1/2 = 7/8. *)
Lemma ComputeVertexVertexMask_blend_counterexample :
  let r := ComputeVertexVertexMask Sample.uniformOptions Sample.blankMask
             Sample.fadingCorner Sample.blankMask RULE_UNKNOWN RULE_UNKNOWN in
  let parentMask := assignCornerMaskForVertex Sample.fadingCorner Sample.blankMask in
  let childMask := Sample.smoothMaskForVertex Sample.fadingCorner Sample.blankMask in
  let pWeight := fractionalWeightOf Sample.uniformOptions Sample.fadingCorner
                   RULE_UNKNOWN RULE_UNKNOWN in
  let cWeight := 1 - pWeight in
  (parentRuleOf Sample.uniformOptions Sample.fadingCorner RULE_UNKNOWN RULE_UNKNOWN = RULE_CORNER
   /\ childRuleOf Sample.uniformOptions Sample.fadingCorner RULE_UNKNOWN = RULE_SMOOTH)
  /\ (pWeight == 1 # 4 /\ VertexWeight parentMask 0 == 1 /\ VertexWeight childMask 0 == 1 # 2)
  /\ VertexWeight r 0 == 5 # 8
  /\ cWeight * VertexWeight parentMask 0 + pWeight * VertexWeight childMask 0 == 7 # 8
  /\ ~ VertexWeight r 0
       == cWeight * VertexWeight parentMask 0 + pWeight * VertexWeight childMask 0.
Proof.
  repeat split; try reflexivity.
  vm_compute. discriminate.
Qed.

(* ===================================================================== *)
(** ** The feature-adaptive analyzer *)
(* ===================================================================== *)

Create HintDb selector.

Section Selector.
Context {R : Type} `{RF : Refinement R}.
Variable INFINITE : Q.

Abbreviation Selector := (VtrSparseSelector (R := R)).

Lemma extends_refl (s : Selector) : extends s s.
Proof. unfold extends. set_solver. Qed.

Lemma extends_trans (s1 s2 s3 : Selector) :
  extends s1 s2 -> extends s2 s3 -> extends s1 s3.
Proof.
  unfold extends. intros (P1 & Q1 & S1) (P2 & Q2 & S2).
  repeat split; [congruence | congruence | set_solver].
Qed.

Lemma selectFace_extends (f : VtrIndex) (s : Selector) : extends s (selectFace f s).
Proof. unfold extends, selectFace. simpl. set_solver. Qed.

Lemma isVertexIncomplete_extends (s s' : Selector) (v : VtrIndex) :
  extends s s' -> isVertexIncomplete s' v = isVertexIncomplete s v.
Proof. intros (_ & Hq & _). unfold isVertexIncomplete. rewrite Hq. reflexivity. Qed.

(** Selecting a list of faces one by one. *)
Lemma selectFaces_foldl (l : list VtrIndex) (s : Selector) :
  let s' := foldl (fun acc f => selectFace f acc) s l in
  parent s' = parent s /\ previousRefinement s' = previousRefinement s /\
  selectedFaces s' = selectedFaces s ∪ list_to_set l.
Proof.
  revert s. induction l as [|f l IH]; intros s; simpl.
  - repeat split. set_solver.
  - destruct (IH (selectFace f s)) as (Hp & Hq & Hs). simpl in *.
    rewrite Hp, Hq, Hs. repeat split. set_solver.
Qed.

Lemma selectVertexFaces_faces (v : VtrIndex) (s : Selector) :
  selectedFaces (selectVertexFaces v s)
  = selectedFaces s ∪ list_to_set (accessVertFaces (parent s) v).
Proof. unfold selectVertexFaces. apply selectFaces_foldl. Qed.

Lemma selectVertexFaces_extends (v : VtrIndex) (s : Selector) :
  extends s (selectVertexFaces v s).
Proof.
  unfold extends, selectVertexFaces.
  destruct (selectFaces_foldl (accessVertFaces (parent s) v) s) as (Hp & Hq & Hs).
  simpl in *. rewrite Hp, Hq, Hs. set_solver.
Qed.

(** A vertex without faces selects nothing. *)
Lemma selectVertexFaces_no_face (v : VtrIndex) (s : Selector) :
  length (accessVertFaces (parent s) v) = 0%nat -> selectVertexFaces v s = s.
Proof.
  intros Hl. unfold selectVertexFaces.
  destruct (accessVertFaces (parent s) v); [reflexivity | discriminate].
Qed.

#[local] Hint Resolve extends_refl selectFace_extends selectVertexFaces_extends : selector.

Lemma selectorFaceStep_extends (level : VtrLevel) (s : Selector) (f : VtrIndex) :
  extends s (selectorFaceStep level s f).
Proof.
  unfold selectorFaceStep.
  repeat case_match; auto with selector.
Qed.

Lemma selectorVertStep_extends (level : VtrLevel) (s : Selector) (v : VtrIndex) :
  extends s (selectorVertStep INFINITE level s v).
Proof.
  unfold selectorVertStep.
  repeat case_match; auto with selector.
Qed.

Lemma selectorEdgeStep_extends (level : VtrLevel) (s : Selector) (e : VtrIndex) :
  extends s (selectorEdgeStep level s e).
Proof.
  unfold selectorEdgeStep.
  repeat case_match; eauto using extends_trans with selector.
Qed.

(** A loop of steps that only ever add faces only adds faces. *)
Lemma foldl_extends (step : Selector -> VtrIndex -> Selector) (l : list VtrIndex) :
  (forall s x, extends s (step s x)) ->
  forall s, extends s (foldl step s l).
Proof.
  intros Hstep. induction l as [|x l IH]; intros s; simpl.
  - apply extends_refl.
  - eapply extends_trans; [apply Hstep | apply IH].
Qed.

Lemma selectorFacePass_extends (s : Selector) : extends s (selectorFacePass s).
Proof.
  unfold selectorFacePass. case_match.
  - apply foldl_extends. intros. apply selectorFaceStep_extends.
  - apply extends_refl.
Qed.

Lemma selectorVertPass_extends (s : Selector) : extends s (selectorVertPass INFINITE s).
Proof.
  unfold selectorVertPass. apply foldl_extends. intros. apply selectorVertStep_extends.
Qed.

Lemma selectorEdgePass_extends (s : Selector) : extends s (selectorEdgePass s).
Proof.
  unfold selectorEdgePass. apply foldl_extends. intros. apply selectorEdgeStep_extends.
Qed.

(** What a step contributes stays selected to the end of the loop. *)
Lemma foldl_keeps_step (step : Selector -> VtrIndex -> Selector) (added : gset VtrIndex)
                       (x : VtrIndex) (l : list VtrIndex) (s0 : Selector) :
  (forall s y, extends s (step s y)) ->
  (forall s, extends s0 s -> added ⊆ selectedFaces (step s x)) ->
  x ∈ l ->
  forall s, extends s0 s -> added ⊆ selectedFaces (foldl step s l).
Proof.
  intros Hext Hadd. induction l as [|y l IH]; intros Hin s Hs.
  - inversion Hin.
  - simpl. apply elem_of_cons in Hin as [<-|Hin].
    + pose proof (foldl_extends step l Hext (step s x)) as (_ & _ & Hsub).
      specialize (Hadd s Hs). set_solver.
    + apply IH; [exact Hin|]. eapply extends_trans; [exact Hs | apply Hext].
Qed.

(** The faces the loop over faces has selected: those selected before, and
    those of the range that are not quads or pass the boundary test. *)
Lemma faceLoop_selected (level : VtrLevel) (l : list VtrIndex) (s : Selector) (f : VtrIndex) :
  f ∈ selectedFaces (foldl (selectorFaceStep level) s l)
  <-> f ∈ selectedFaces s
      \/ (f ∈ l /\ (negb (length (accessFaceVerts level f) =? 4)%nat
                    || quadNeedsIsolation level f = true)).
Proof.
  revert s. induction l as [|x l IH]; intros s; simpl.
  - set_solver.
  - rewrite IH. unfold selectorFaceStep at 1.
    destruct (negb (length (accessFaceVerts level x) =? 4)%nat) eqn:Hq; simpl.
    + rewrite elem_of_union, elem_of_singleton, elem_of_cons.
      split.
      * intros [[H| ->]|[H1 H2]]; [left; exact H | right | right; split; [right|]; assumption].
        split; [left; reflexivity|]. rewrite Hq. reflexivity.
      * intros [H|[[->|H1] H2]]; [left; left; exact H | left; right; reflexivity |
                                  right; split; assumption].
    + destruct (quadNeedsIsolation level x) eqn:Hn; simpl.
      * rewrite elem_of_union, elem_of_singleton, elem_of_cons.
        split.
        -- intros [[H| ->]|[H1 H2]]; [left; exact H | right | right; split; [right|]; assumption].
           split; [left; reflexivity|]. rewrite Hq, Hn. reflexivity.
        -- intros [H|[[->|H1] H2]]; [left; left; exact H | left; right; reflexivity |
                                    right; split; assumption].
      * rewrite elem_of_cons. split.
        -- intros [H|[H1 H2]]; [left; exact H | right; split; [right|]; assumption].
        -- intros [H|[[->|H1] H2]]; [left; exact H | | right; split; assumption].
           rewrite Hq, Hn in H2. discriminate.
Qed.

Lemma isBoundaryEdge_cases (level : VtrLevel) (e : VtrIndex) :
  (length (accessEdgeFaces level e) = 1%nat /\ isBoundaryEdge level e = 1%nat)
  \/ (length (accessEdgeFaces level e) <> 1%nat /\ isBoundaryEdge level e = 0%nat).
Proof.
  unfold isBoundaryEdge.
  destruct (Nat.eqb_spec (length (accessEdgeFaces level e)) 1); [left|right]; split; auto.
Qed.

(** The test of the face loop, as a proposition. *)
Lemma quadNeedsIsolation_true (level : VtrLevel) (face : VtrIndex) :
  quadNeedsIsolation level face = true
  <-> (2 < boundaryEdgeSum level face)%nat
      \/ (boundaryEdgeSum level face = 2%nat
          /\ length (accessEdgeFaces level (at_ (accessFaceEdges level face) 0))
             = length (accessEdgeFaces level (at_ (accessFaceEdges level face) 2))).
Proof.
  unfold quadNeedsIsolation.
  rewrite orb_true_iff, andb_true_iff, Nat.ltb_lt, !Nat.eqb_eq. reflexivity.
Qed.

(** On a face whose edges have one or two faces each, comparing the sizes
    at edges 0 and 2 tells opposite boundary edges from adjacent ones. *)
Lemma quadNeedsIsolation_manifold (level : VtrLevel) (face : VtrIndex) :
  manifoldFaceEdges level face ->
  (quadNeedsIsolation level face = true
   <-> (2 < boundaryEdgeSum level face)%nat \/ twoOppositeBoundaries level face).
Proof.
  intros Hm. rewrite quadNeedsIsolation_true.
  unfold twoOppositeBoundaries, boundaryAt, boundaryEdgeSum.
  pose proof (Hm 0%nat ltac:(lia)) as H0. pose proof (Hm 1%nat ltac:(lia)) as H1.
  pose proof (Hm 2%nat ltac:(lia)) as H2. pose proof (Hm 3%nat ltac:(lia)) as H3.
  set (fe := accessFaceEdges level face) in *.
  destruct (isBoundaryEdge_cases level (at_ fe 0)) as [[A0 B0]|[A0 B0]];
  destruct (isBoundaryEdge_cases level (at_ fe 1)) as [[A1 B1]|[A1 B1]];
  destruct (isBoundaryEdge_cases level (at_ fe 2)) as [[A2 B2]|[A2 B2]];
  destruct (isBoundaryEdge_cases level (at_ fe 3)) as [[A3 B3]|[A3 B3]];
  rewrite B0, B1, B2, B3; simpl; lia.
Qed.

(** C3, as the code has it.  At level 0, on a selector with nothing
    selected yet: every face that is not a quad ends up selected; the loop
    over faces selects a quad exactly when its boundary edge count exceeds
    2, or is 2 with as many faces at edge 0 as at edge 2; on a quad whose
    edges have one or two faces each, that is exactly when the count
    exceeds 2 or the two boundary edges are opposite; and what the loop
    over faces selected stays selected, the later loops only adding to
    it. *)
Theorem catmarkFeatureAdaptiveSelector_faces (selector : Selector) (face : VtrIndex) :
  let level := parent selector in
  depth level = 0%nat -> selectedFaces selector = ∅ -> (face < faceCount level)%nat ->
  (length (accessFaceVerts level face) <> 4%nat ->
     face ∈ selectedFaces (catmarkFeatureAdaptiveSelector INFINITE selector)) /\
  (length (accessFaceVerts level face) = 4%nat ->
     (face ∈ selectedFaces (selectorFacePass selector)
      <-> (2 < boundaryEdgeSum level face)%nat
          \/ (boundaryEdgeSum level face = 2%nat
              /\ length (accessEdgeFaces level (at_ (accessFaceEdges level face) 0))
                 = length (accessEdgeFaces level (at_ (accessFaceEdges level face) 2)))) /\
     (manifoldFaceEdges level face ->
      (face ∈ selectedFaces (selectorFacePass selector)
       <-> (2 < boundaryEdgeSum level face)%nat \/ twoOppositeBoundaries level face))) /\
  selectedFaces (selectorFacePass selector)
    ⊆ selectedFaces (catmarkFeatureAdaptiveSelector INFINITE selector).
Proof.
  intros level Hd He Hf.
  assert (Hpass : face ∈ selectedFaces (selectorFacePass selector)
                  <-> negb (length (accessFaceVerts level face) =? 4)%nat
                      || quadNeedsIsolation level face = true).
  { unfold selectorFacePass. fold level. rewrite Hd. simpl.
    rewrite faceLoop_selected, He, elem_of_seq. split.
    - intros [H|[_ H]]; [set_solver | exact H].
    - intros H. right. split; [lia | exact H]. }
  assert (Hsub : selectedFaces (selectorFacePass selector)
                   ⊆ selectedFaces (catmarkFeatureAdaptiveSelector INFINITE selector)).
  { unfold catmarkFeatureAdaptiveSelector.
    pose proof (extends_trans _ _ _
                  (selectorVertPass_extends (selectorFacePass selector))
                  (selectorEdgePass_extends
                     (selectorVertPass INFINITE (selectorFacePass selector)))) as (_ & _ & H).
    exact H. }
  split; [|split].
  - intros Hn. apply Hsub, Hpass.
    apply Nat.eqb_neq in Hn. rewrite Hn. reflexivity.
  - intros Hq. apply Nat.eqb_eq in Hq. rewrite Hq in Hpass. simpl in Hpass.
    split.
    + rewrite Hpass. apply quadNeedsIsolation_true.
    + intros Hm. rewrite Hpass. apply quadNeedsIsolation_manifold, Hm.
  - exact Hsub.
Qed.

(** The decision taken for a vertex of positive sharpness. *)
Lemma selectVertex_sharp (level : VtrLevel) (vert : VtrIndex) :
  0 < vertSharpness level vert ->
  selectVertex INFINITE level vert = true
  <-> length (accessVertFaces level vert) <> 1%nat \/ vertSharpness level vert < INFINITE.
Proof.
  intros Hs. unfold selectVertex.
  apply Qlt_bool_true in Hs. rewrite Hs.
  rewrite orb_true_iff, negb_true_iff, Nat.eqb_neq, Qlt_bool_true. reflexivity.
Qed.

(** C6.  For a vertex that is not flagged incomplete and has positive
    sharpness: if it has more than one incident face or its sharpness is
    below INFINITE, its iteration selects its incident faces, and (the
    vertex being one of the level) they are all selected when the analyzer
    returns; otherwise, and so for an infinitely sharp vertex with exactly
    one incident face, its iteration selects nothing. *)
Theorem catmarkFeatureAdaptiveSelector_sharp_vertex (selector : Selector) (vert : VtrIndex) :
  let level := parent selector in
  let wanted := (1 < length (accessVertFaces level vert))%nat
                \/ vertSharpness level vert < INFINITE in
  isVertexIncomplete selector vert = false -> 0 < vertSharpness level vert ->
  (wanted -> selectorVertStep INFINITE level selector vert = selectVertexFaces vert selector) /\
  (wanted -> (vert < vertCount level)%nat ->
     forall f, f ∈ accessVertFaces level vert ->
               f ∈ selectedFaces (catmarkFeatureAdaptiveSelector INFINITE selector)) /\
  (~ wanted -> selectorVertStep INFINITE level selector vert = selector) /\
  (length (accessVertFaces level vert) = 1%nat -> INFINITE <= vertSharpness level vert ->
     selectorVertStep INFINITE level selector vert = selector).
Proof.
  intros level wanted Hinc Hs.
  assert (Hstep : forall s, extends selector s -> wanted ->
                    selectorVertStep INFINITE level s vert = selectVertexFaces vert s).
  { intros s Hext Hw. unfold selectorVertStep.
    rewrite (isVertexIncomplete_extends _ _ _ Hext), Hinc.
    destruct (selectVertex INFINITE level vert) eqn:Hsel; [reflexivity|].
    exfalso. apply not_true_iff_false in Hsel. apply Hsel.
    apply selectVertex_sharp; [exact Hs|].
    destruct Hw as [Hw|Hw]; [left; lia | right; exact Hw]. }
  assert (Hnot : ~ wanted -> selectorVertStep INFINITE level selector vert = selector).
  { intros Hnw. unfold selectorVertStep. rewrite Hinc.
    destruct (selectVertex INFINITE level vert) eqn:Hsel; [|reflexivity].
    apply selectVertex_sharp in Hsel; [|exact Hs].
    destruct Hsel as [Hsel|Hsel]; [|exfalso; apply Hnw; right; exact Hsel].
    apply selectVertexFaces_no_face. fold level.
    destruct (length (accessVertFaces level vert)) as [|[|n]] eqn:Hl;
      [reflexivity | contradiction | exfalso; apply Hnw; left; lia]. }
  split; [|split; [|split]].
  - intros Hw. apply Hstep; [apply extends_refl | exact Hw].
  - intros Hw Hv f Hf.
    unfold catmarkFeatureAdaptiveSelector.
    pose proof (selectorFacePass_extends selector) as Hfp.
    set (s1 := selectorFacePass selector) in *.
    pose proof (selectorEdgePass_extends (selectorVertPass INFINITE s1)) as (_ & _ & Hep).
    apply Hep. unfold selectorVertPass.
    assert (Hl1 : parent s1 = level) by apply Hfp. rewrite Hl1.
    assert (Hin : (list_to_set (accessVertFaces level vert) : gset VtrIndex)
                    ⊆ selectedFaces (foldl (selectorVertStep INFINITE level) s1
                                           (seq 0 (vertCount level)))).
    { apply (foldl_keeps_step (fun s v => selectorVertStep INFINITE level s v) _ vert _ s1).
      - intros. apply selectorVertStep_extends.
      - intros s Hext.
        assert (Hext' : extends selector s) by (eapply extends_trans; eassumption).
        rewrite (Hstep s Hext' Hw), selectVertexFaces_faces.
        destruct Hext' as (Hp & _ & _). rewrite Hp. fold level. set_solver.
      - apply elem_of_seq. lia.
      - apply extends_refl. }
    apply Hin. apply elem_of_list_to_set. exact Hf.
  - exact Hnot.
  - intros H1 Hinf. apply Hnot. unfold wanted. intros [H|H]; [lia|].
    apply Qlt_not_le in H. contradiction.
Qed.

End Selector.

(** Membership in a computed selection, read off its list of elements. *)
Lemma elem_of_computed (X : gset VtrIndex) (x : VtrIndex) (l : list VtrIndex) :
  elements X = l -> x ∈ l -> x ∈ X.
Proof. intros <- H. apply elem_of_elements. exact H. Qed.

Lemma not_elem_of_computed (X : gset VtrIndex) (x : VtrIndex) (l : list VtrIndex) :
  elements X = l -> x ∉ l -> x ∉ X.
Proof. intros <- H Hin. apply H. apply elem_of_elements. exact Hin. Qed.

Lemma grid2x2_face0_manifold : manifoldFaceEdges Sample.grid2x2 0%nat.
Proof.
  intros i Hi.
  do 4 (destruct i as [|i]; [vm_compute; lia|]). lia.
Qed.

(** C3, on face 0 of the 2 x 2 grid (two adjacent boundary edges): the loop
    over faces leaves it unselected. *)
Lemma catmarkFeatureAdaptiveSelector_faces_witness :
  (0%nat ∈ selectedFaces (selectorFacePass (VtrSparseSelector_new (R := Sample.Refined)
                                              Sample.grid2x2))
   <-> (2 < boundaryEdgeSum Sample.grid2x2 0%nat)%nat
       \/ twoOppositeBoundaries Sample.grid2x2 0%nat)
  /\ selectedFaces (selectorFacePass (VtrSparseSelector_new (R := Sample.Refined) Sample.grid2x2))
       ⊆ selectedFaces (catmarkFeatureAdaptiveSelector Sample.infinite
                          (VtrSparseSelector_new (R := Sample.Refined) Sample.grid2x2)).
Proof.
  pose proof (catmarkFeatureAdaptiveSelector_faces Sample.infinite
                (VtrSparseSelector_new (R := Sample.Refined) Sample.grid2x2) 0%nat) as H.
  destruct H as (_ & Hquad & Hsub).
  - reflexivity.
  - reflexivity.
  - simpl. lia.
  - split; [|exact Hsub].
    apply Hquad; [reflexivity | exact grid2x2_face0_manifold].
Defined.

(** C3 as the claim words it fails, in either direction.  In the non-manifold
    mesh, quad 0 has exactly two boundary edges and they are opposite, yet
    nothing selects it: edge 0 has two faces and edge 2 three, so the
    comparison of the two sizes fails, and its four vertices are regular.  In
    the 2 x 2 grid, quad 0 has two adjacent boundary edges, the loop over
    faces passes it by, and yet it is selected: its corner vertex 0 is, in the
    loop over vertices. *)
Lemma catmarkFeatureAdaptiveSelector_faces_counterexample :
  (depth Sample.finMesh = 0%nat
   /\ length (accessFaceVerts Sample.finMesh 0%nat) = 4%nat
   /\ boundaryEdgeSum Sample.finMesh 0%nat = 2%nat
   /\ twoOppositeBoundaries Sample.finMesh 0%nat
   /\ (0%nat ∉ selectedFaces (catmarkFeatureAdaptiveSelector Sample.infinite
                               (VtrSparseSelector_new (R := Sample.Refined) Sample.finMesh))))
  /\ (depth Sample.grid2x2 = 0%nat
      /\ length (accessFaceVerts Sample.grid2x2 0%nat) = 4%nat
      /\ boundaryEdgeSum Sample.grid2x2 0%nat = 2%nat
      /\ ~ twoOppositeBoundaries Sample.grid2x2 0%nat
      /\ (0%nat ∉ selectedFaces (selectorFacePass
                                  (VtrSparseSelector_new (R := Sample.Refined) Sample.grid2x2)))
      /\ (0%nat ∈ selectedFaces (catmarkFeatureAdaptiveSelector Sample.infinite
                                  (VtrSparseSelector_new (R := Sample.Refined) Sample.grid2x2)))).
Proof.
  split.
  - split; [reflexivity|]. split; [reflexivity|]. split; [reflexivity|]. split.
    + right. unfold boundaryAt. vm_compute. repeat split; lia.
    + apply (not_elem_of_computed _ _ [4; 5; 1]%nat); [vm_compute; reflexivity | set_solver].
  - split; [reflexivity|]. split; [reflexivity|]. split; [reflexivity|]. split; [|split].
    + unfold twoOppositeBoundaries, boundaryAt. vm_compute. intros [H|H]; lia.
    + apply (not_elem_of_computed _ _ []); [vm_compute; reflexivity | set_solver].
    + apply (elem_of_computed _ _ [2; 3; 1; 0]%nat); [vm_compute; reflexivity | set_solver].
Qed.

(** C6, on the 2 x 2 grid with sharp vertices: the centre vertex 4 (sharpness
    2, four faces) has its face 0 selected; the corner vertex 0 (infinitely
    sharp, one face) selects nothing. *)
Lemma catmarkFeatureAdaptiveSelector_sharp_vertex_witness :
  0%nat ∈ selectedFaces (catmarkFeatureAdaptiveSelector Sample.infinite
                          (VtrSparseSelector_new (R := Sample.Refined) Sample.grid2x2Sharp))
  /\ selectorVertStep Sample.infinite Sample.grid2x2Sharp
       (VtrSparseSelector_new (R := Sample.Refined) Sample.grid2x2Sharp) 0%nat
     = VtrSparseSelector_new Sample.grid2x2Sharp.
Proof.
  split.
  - refine (proj1 (proj2 (catmarkFeatureAdaptiveSelector_sharp_vertex Sample.infinite
                            (VtrSparseSelector_new (R := Sample.Refined) Sample.grid2x2Sharp)
                            4%nat _ _)) _ _ 0%nat _).
    + reflexivity.
    + reflexivity.
    + left. simpl. lia.
    + simpl. lia.
    + simpl. left.
  - refine (proj2 (proj2 (proj2 (catmarkFeatureAdaptiveSelector_sharp_vertex Sample.infinite
                                   (VtrSparseSelector_new (R := Sample.Refined)
                                      Sample.grid2x2Sharp)
                                   0%nat _ _))) _ _).
    + reflexivity.
    + reflexivity.
    + reflexivity.
    + vm_compute. discriminate.
Defined.

(* ===================================================================== *)
(** ** The refinement tables *)
(* ===================================================================== *)

Section Tables.
Context {R : Type} `{RF : Refinement R}.
Variable INFINITE : Q.

Abbreviation Tables := (FarRefineTables (R := R)).

(** *** One refinement step *)

Lemma refineLevel_fields (o : RefineOptions) (i : nat) (m : gset VtrIndex) (t : Tables) :
  let t' := refineLevel o i m t in
  _subdivType t' = _subdivType t /\ _subdivOptions t' = _subdivOptions t /\
  _isUniform t' = _isUniform t /\ _maxLevel t' = _maxLevel t /\
  length (_levels t') = length (_levels t) /\
  length (_refinements t') = length (_refinements t).
Proof.
  unfold refineLevel. destruct (refine _ _ _) as [r c]. simpl.
  rewrite !length_insert. repeat split.
Qed.

Lemma refineLevel_base (o : RefineOptions) (i : nat) (m : gset VtrIndex) (t : Tables) :
  (1 <= i)%nat -> _levels (refineLevel o i m t) !! 0%nat = _levels t !! 0%nat.
Proof.
  intros Hi. unfold refineLevel. destruct (refine _ _ _) as [r c]. simpl.
  apply list_lookup_insert_ne. lia.
Qed.

(** *** Allocation *)

Lemma refinePrecondition_true (n : Z) (t : Tables) :
  refinePrecondition n t = true ->
  exists base rest, _levels t = base :: rest /\ (0 < vertCount base)%nat /\
                    _subdivType t = TYPE_CATMARK /\ (0 <= n)%Z.
Proof.
  unfold refinePrecondition. destruct (_levels t) as [|base rest]; [discriminate|].
  rewrite !andb_true_iff, Nat.ltb_lt, Z.leb_le. intros [[Hv Ht] Hn].
  exists base, rest. repeat split; try assumption.
  destruct (_subdivType t); simpl in Ht; congruence.
Qed.

Lemma allocateLevels_shape (u : bool) (n : Z) (t : Tables) :
  (0 <= n)%Z -> _levels t <> [] ->
  let t' := allocateLevels u n t in
  length (_levels t') = S (Z.to_nat n) /\ length (_refinements t') = Z.to_nat n /\
  _levels t' !! 0%nat = _levels t !! 0%nat.
Proof.
  intros Hn Hne. simpl. rewrite !length_resize.
  replace (Z.to_nat (n + 1)) with (S (Z.to_nat n)) by lia.
  repeat split. destruct (_levels t); [contradiction | reflexivity].
Qed.

(** *** Uniform refinement *)

Lemma uniformLoop_shape (n : nat) (ft : bool) (l : list nat) :
  Forall (fun i => (1 <= i)%nat) l ->
  forall st : RefineOptions * Tables,
    let st' := foldl (uniformStep n ft) st l in
    length (_levels (snd st')) = length (_levels (snd st)) /\
    length (_refinements (snd st')) = length (_refinements (snd st)) /\
    _levels (snd st') !! 0%nat = _levels (snd st) !! 0%nat /\
    _subdivType (snd st') = _subdivType (snd st) /\
    _subdivOptions (snd st') = _subdivOptions (snd st) /\
    _isUniform (snd st') = _isUniform (snd st) /\
    _maxLevel (snd st') = _maxLevel (snd st).
Proof.
  induction 1 as [|i l Hi _ IH]; intros st; simpl.
  - repeat split.
  - destruct (IH (uniformStep n ft st i)) as (Hl & Hr & Hb & F1 & F2 & F3 & F4). simpl in *.
    rewrite Hl, Hr, Hb, F1, F2, F3, F4. unfold uniformStep. simpl.
    pose proof (refineLevel_fields
                  (set_faceTopologyOnly (if ft then false else (i =? n)%nat) (fst st))
                  i ∅ (snd st)) as (G1 & G2 & G3 & G4 & Hl' & Hr').
    simpl in G1, G2, G3, G4, Hl', Hr'.
    rewrite Hl', Hr', G1, G2, G3, G4, refineLevel_base by exact Hi. repeat split.
Qed.

Lemma seq_from_1 (m : nat) : Forall (fun i => (1 <= i)%nat) (seq 1 m).
Proof. apply Forall_forall. intros i Hi. apply elem_of_seq in Hi. lia. Qed.

Lemma RefineUniform_shape (n : Z) (ft cm : bool) (t t' : Tables) :
  RefineUniform n ft cm t = Some t' ->
  length (_levels t') = S (Z.to_nat n) /\ length (_refinements t') = Z.to_nat n /\
  _levels t' !! 0%nat = _levels t !! 0%nat.
Proof.
  unfold RefineUniform. destruct (refinePrecondition n t) eqn:Hpre; [|discriminate].
  simpl. intros [= <-].
  destruct (refinePrecondition_true _ _ Hpre) as (base & rest & Hl & _ & _ & Hn).
  pose proof (allocateLevels_shape true n t Hn ltac:(rewrite Hl; discriminate))
    as (Al & Ar & Ab).
  pose proof (uniformLoop_shape (Z.to_nat n) ft _ (seq_from_1 (Z.to_nat n))
                (set_computeMasks cm (set_sparse false RefineOptions_new),
                 allocateLevels true n t)) as (Hl' & Hr' & Hb' & _).
  simpl in Hl', Hr', Hb'. rewrite Hl', Hr', Hb'. auto.
Qed.

(** *** Adaptive refinement *)

Lemma truncateAt_shape (i : nat) (t : Tables) :
  (1 <= i)%nat -> _levels t <> [] ->
  let t' := truncateAt i t in
  _maxLevel t' = (Z.of_nat i - 1)%Z /\
  _levels t' = resize i VtrLevel_new (_levels t) /\
  _refinements t' = resize (i - 1) VtrRefinement_new (_refinements t) /\
  length (_levels t') = i /\ length (_refinements t') = (i - 1)%nat /\
  _levels t' !! 0%nat = _levels t !! 0%nat.
Proof.
  intros Hi Hne. simpl.
  replace (Z.to_nat (Z.of_nat i - 1 + 1)) with i by lia.
  replace (Z.to_nat (Z.of_nat i - 1)) with (i - 1)%nat by lia.
  rewrite !length_resize. repeat split.
  destruct i as [|i]; [lia|]. destruct (_levels t); [contradiction | reflexivity].
Qed.

Lemma adaptiveLoop_shape (iterations : list nat) :
  Forall (fun i => (1 <= i)%nat) iterations ->
  forall (o : RefineOptions) (t : Tables),
    length (_levels t) = S (length (_refinements t)) ->
    let t' := adaptiveLoop INFINITE true o iterations t in
    length (_levels t') = S (length (_refinements t')) /\
    _levels t' !! 0%nat = _levels t !! 0%nat.
Proof.
  induction 1 as [|i l Hi _ IH]; intros o t Hlen; simpl.
  - auto.
  - destruct (isSelectionEmpty _) eqn:He; simpl.
    + assert (Hne : _levels t <> []) by (destruct (_levels t); [discriminate Hlen|discriminate]).
      pose proof (truncateAt_shape i t Hi Hne) as (_ & _ & _ & Hl & Hr & Hb).
      simpl in Hl, Hr, Hb. rewrite Hl, Hr, Hb. split; [lia | reflexivity].
    + set (o' := set_faceTopologyOnly false o).
      set (m := selectedFaces _).
      pose proof (refineLevel_fields o' i m t) as (_ & _ & _ & _ & Hl & Hr).
      destruct (IH o' (refineLevel o' i m t)) as (Hl' & Hb').
      * simpl in Hl, Hr. rewrite Hl, Hr. exact Hlen.
      * simpl in Hl', Hb'. rewrite Hl', Hb'. split; [reflexivity|].
        apply refineLevel_base. exact Hi.
Qed.

Lemma RefineAdaptive_shape (n : Z) (ft cm : bool) (t t' : Tables) :
  RefineAdaptive INFINITE n ft cm t = Some t' ->
  length (_levels t') = S (length (_refinements t')) /\
  _levels t' !! 0%nat = _levels t !! 0%nat.
Proof.
  unfold RefineAdaptive. destruct (refinePrecondition n t) eqn:Hpre; [|discriminate].
  simpl. intros [= <-].
  destruct (refinePrecondition_true _ _ Hpre) as (base & rest & Hl & _ & _ & Hn).
  pose proof (allocateLevels_shape false n t Hn ltac:(rewrite Hl; discriminate))
    as (Al & Ar & Ab).
  pose proof (adaptiveLoop_shape _ (seq_from_1 (Z.to_nat n))
                (adaptiveOptions ft cm true true) (allocateLevels false n t)) as H.
  simpl in H. destruct H as (Hl' & Hb').
  - simpl in Al, Ar. rewrite Al, Ar. reflexivity.
  - rewrite Hl', Hb'. auto.
Qed.

(** C7, as the code has it.  After construction, after a refine call that
    completes, and after [Unrefine] on tables that hold a base level, there
    is at least one level, level 0 is the base level the tables held before,
    and there is one refinement fewer than levels; after [Clear] (and after
    [Unrefine] on cleared tables) both sequences are empty. *)
Theorem tables_shape :
  (forall schemeType schemeOptions,
     let t := FarRefineTables_new (R := R) schemeType schemeOptions in
     _levels t = [VtrLevel_new] /\ _refinements t = []) /\
  (forall n ft cm (t t' : Tables),
     RefineUniform n ft cm t = Some t' ->
     (1 <= length (_levels t'))%nat /\
     length (_levels t') = S (length (_refinements t')) /\
     _levels t' !! 0%nat = _levels t !! 0%nat) /\
  (forall n ft cm (t t' : Tables),
     RefineAdaptive INFINITE n ft cm t = Some t' ->
     (1 <= length (_levels t'))%nat /\
     length (_levels t') = S (length (_refinements t')) /\
     _levels t' !! 0%nat = _levels t !! 0%nat) /\
  (forall t : Tables,
     _levels t <> [] ->
     length (_levels (Unrefine t)) = 1%nat /\ _refinements (Unrefine t) = [] /\
     _levels (Unrefine t) !! 0%nat = _levels t !! 0%nat) /\
  (forall t : Tables,
     _levels (Clear t) = [] /\ _refinements (Clear t) = [] /\
     _levels (Unrefine (Clear t)) = [] /\ _refinements (Unrefine (Clear t)) = []).
Proof.
  split; [|split; [|split; [|split]]].
  - intros. split; reflexivity.
  - intros n ft cm t t' H.
    destruct (RefineUniform_shape _ _ _ _ _ H) as (Hl & Hr & Hb).
    rewrite Hl, Hr. repeat split; [lia | exact Hb].
  - intros n ft cm t t' H.
    destruct (RefineAdaptive_shape _ _ _ _ _ H) as (Hl & Hb).
    rewrite Hl. repeat split; [lia | exact Hb].
  - intros t Hne. unfold Unrefine. simpl.
    destruct (_levels t) as [|base rest]; [contradiction|]. simpl.
    rewrite resize_0. repeat split.
  - intros t. repeat split.
Qed.

(** *** Early termination of adaptive refinement *)

Lemma adaptiveLoopOptions_fixed (ft cm : bool) :
  set_faceTopologyOnly false (adaptiveLoopOptions ft cm) = adaptiveLoopOptions ft cm.
Proof. reflexivity. Qed.

Lemma adaptiveStateAfter_shape (n : Z) (ft cm : bool) (t : Tables) (k : nat) :
  (0 <= n)%Z -> _levels t <> [] ->
  length (_levels (adaptiveStateAfter INFINITE n ft cm t k)) = S (Z.to_nat n) /\
  length (_refinements (adaptiveStateAfter INFINITE n ft cm t k)) = Z.to_nat n.
Proof.
  intros Hn Hne. induction k as [|k IH].
  - pose proof (allocateLevels_shape false n t Hn Hne) as (Hl & Hr & _). auto.
  - cbn [adaptiveStateAfter].
    set (before := adaptiveStateAfter INFINITE n ft cm t k) in *.
    pose proof (refineLevel_fields (adaptiveLoopOptions ft cm) (S k)
                  (selectedFaces (adaptiveSelection INFINITE true (S k) before)) before)
      as (_ & _ & _ & _ & Hl & Hr).
    simpl in Hl, Hr. rewrite Hl, Hr. exact IH.
Qed.

(** Started after [k] iterations that selected something, the loop stops at
    the first iteration that selects nothing. *)
Lemma adaptiveLoop_stops (n : Z) (ft cm : bool) (t : Tables) (i : nat) :
  (forall j, (1 <= j < i)%nat ->
     isSelectionEmpty (adaptiveSelection INFINITE true j
                         (adaptiveStateAfter INFINITE n ft cm t (j - 1))) = false) ->
  isSelectionEmpty (adaptiveSelection INFINITE true i
                      (adaptiveStateAfter INFINITE n ft cm t (i - 1))) = true ->
  forall (m k : nat) (o : RefineOptions),
    set_faceTopologyOnly false o = adaptiveLoopOptions ft cm ->
    (k < i)%nat -> (i <= k + m)%nat ->
    adaptiveLoop INFINITE true o (seq (S k) m) (adaptiveStateAfter INFINITE n ft cm t k)
    = truncateAt i (adaptiveStateAfter INFINITE n ft cm t (i - 1)).
Proof.
  intros Hsome Hnone. induction m as [|m IH]; intros k o Ho Hk Hm; [lia|].
  cbn [seq adaptiveLoop]. rewrite Ho.
  destruct (Nat.eq_dec (S k) i) as [<-|Hne].
  - replace (S k - 1)%nat with k in Hnone |- * by lia.
    rewrite Hnone. reflexivity.
  - pose proof (Hsome (S k) ltac:(lia)) as Hs.
    replace (S k - 1)%nat with k in Hs by lia.
    rewrite Hs. cbn [negb].
    apply (IH (S k) (adaptiveLoopOptions ft cm)); [apply adaptiveLoopOptions_fixed | lia | lia].
Qed.

(** C2.  On tables that pass the entry assertions (a base level with
    vertices, the Catmark scheme) and with 1 <= i <= n: if the analyzer
    selects something at the iterations before i and nothing at iteration
    i, [RefineAdaptive n] completes with the maximum level i - 1, the levels
    cut down to the first i and the refinements to the first i - 1; when
    i = 1 that is one level and no refinement. *)
Theorem RefineAdaptive_stops_early (n : Z) (ft cm : bool) (t : Tables) (i : nat) :
  let before := adaptiveStateAfter INFINITE n ft cm t (i - 1) in
  refinePrecondition n t = true ->
  (1 <= i)%nat -> (Z.of_nat i <= n)%Z ->
  (forall j, (1 <= j < i)%nat ->
     isSelectionEmpty (adaptiveSelection INFINITE true j
                         (adaptiveStateAfter INFINITE n ft cm t (j - 1))) = false) ->
  isSelectionEmpty (adaptiveSelection INFINITE true i before) = true ->
  exists t',
    RefineAdaptive INFINITE n ft cm t = Some t' /\
    _maxLevel t' = (Z.of_nat i - 1)%Z /\
    length (_levels t') = i /\ length (_refinements t') = (i - 1)%nat /\
    _levels t' = take i (_levels before) /\
    _refinements t' = take (i - 1) (_refinements before) /\
    (i = 1%nat -> length (_levels t') = 1%nat /\ _refinements t' = []).
Proof.
  intros before Hpre Hi Hin Hsome Hnone.
  destruct (refinePrecondition_true _ _ Hpre) as (base & rest & Hl & _ & _ & Hn).
  assert (Hne : _levels t <> []) by (rewrite Hl; discriminate).
  pose proof (adaptiveStateAfter_shape n ft cm t (i - 1) Hn Hne) as (Bl & Br).
  fold before in Bl, Br.
  assert (Hbne : _levels before <> []) by (destruct (_levels before); [discriminate Bl|discriminate]).
  pose proof (truncateAt_shape i before Hi Hbne) as (Tm & Tl & Tr & Tll & Trl & _).
  exists (truncateAt i before).
  assert (Hrun : RefineAdaptive INFINITE n ft cm t = Some (truncateAt i before)).
  { unfold RefineAdaptive. rewrite Hpre. cbn [negb]. f_equal.
    apply (adaptiveLoop_stops n ft cm t i Hsome Hnone (Z.to_nat n) 0%nat);
      [reflexivity | lia | lia]. }
  split; [exact Hrun|]. split; [exact Tm|]. split; [exact Tll|]. split; [exact Trl|].
  split; [|split].
  - rewrite Tl. apply resize_le. lia.
  - rewrite Tr. apply resize_le. lia.
  - intros ->. split; [exact Tll|].
    destruct (_refinements (truncateAt 1 before)); [reflexivity | discriminate Trl].
Qed.

(** *** Refining again after [Unrefine] *)

Lemma agreeBelow_eq (j : nat) (s s' : Tables) :
  agreeBelow j s s' ->
  (length (_levels s) <= j)%nat -> (length (_refinements s) <= j - 1)%nat -> s = s'.
Proof.
  intros (H1 & H2 & H3 & H4 & Hl & Hr & Htl & Htr) Hjl Hjr.
  rewrite !take_ge in Htl by lia. rewrite !take_ge in Htr by lia.
  destruct s, s'. simpl in *. congruence.
Qed.

(** Writing position [j] extends an agreement below [j] to one below
    [j + 1]. *)
Lemma take_insert_agree {A : Type} (l l' : list A) (j : nat) (x : A) :
  length l = length l' -> take j l = take j l' ->
  take (S j) (<[ j := x ]> l) = take (S j) (<[ j := x ]> l').
Proof.
  intros Hlen Htake. apply list_eq. intros k.
  destruct (Nat.lt_ge_cases k (S j)) as [Hk|Hk].
  - rewrite !lookup_take_lt by exact Hk.
    destruct (Nat.eq_dec k j) as [->|Hkj].
    + destruct (Nat.lt_ge_cases j (length l)) as [Hj|Hj].
      * rewrite !list_lookup_insert_eq by lia. reflexivity.
      * rewrite !list_insert_ge by lia.
        rewrite !lookup_ge_None_2 by lia. reflexivity.
    + rewrite !list_lookup_insert_ne by lia.
      rewrite <- (lookup_take_lt l j k), <- (lookup_take_lt l' j k) by lia.
      rewrite Htake. reflexivity.
  - rewrite !lookup_take_ge by exact Hk. reflexivity.
Qed.

Lemma refineLevel_agree (o : RefineOptions) (j : nat) (m : gset VtrIndex) (s s' : Tables) :
  (1 <= j)%nat -> agreeBelow j s s' ->
  agreeBelow (S j) (refineLevel o j m s) (refineLevel o j m s').
Proof.
  intros Hj (H1 & H2 & H3 & H4 & Hl & Hr & Htl & Htr).
  assert (Hparent : nth (j - 1) (_levels s) VtrLevel_new = nth (j - 1) (_levels s') VtrLevel_new).
  { rewrite !nth_lookup.
    rewrite <- (lookup_take_lt (_levels s) j (j - 1)) by lia.
    rewrite <- (lookup_take_lt (_levels s') j (j - 1)) by lia.
    rewrite Htl. reflexivity. }
  unfold agreeBelow, refineLevel. rewrite Hparent.
  destruct (refine o _ m) as [r c]. simpl.
  rewrite !length_insert.
  repeat split; try assumption.
  - apply take_insert_agree; assumption.
  - replace (j - 0)%nat with (S (j - 1)) by lia.
    apply take_insert_agree; assumption.
Qed.

Lemma uniformLoop_agree (n : nat) (ft : bool) (m : nat) :
  forall (j : nat) (o : RefineOptions) (s s' : Tables),
    (1 <= j)%nat -> agreeBelow j s s' ->
    fst (foldl (uniformStep n ft) (o, s) (seq j m))
    = fst (foldl (uniformStep n ft) (o, s') (seq j m)) /\
    agreeBelow (j + m) (snd (foldl (uniformStep n ft) (o, s) (seq j m)))
                       (snd (foldl (uniformStep n ft) (o, s') (seq j m))).
Proof.
  induction m as [|m IH]; intros j o s s' Hj Hag.
  - simpl. rewrite Nat.add_0_r. auto.
  - cbn [seq foldl]. unfold uniformStep at 2 4. cbn [fst snd].
    replace (j + S m)%nat with (S j + m)%nat by lia.
    apply IH; [lia|]. apply refineLevel_agree; assumption.
Qed.

(** When every refinement step overwrites what the vectors hold,
    [Unrefine] followed by the same call gives the same tables again. *)
Lemma RefineUniform_after_Unrefine (k : Z) (ft cm : bool) (t t1 : Tables) :
  RefineUniform k ft cm t = Some t1 ->
  RefineUniform k ft cm (Unrefine t1) = Some t1.
Proof.
  unfold RefineUniform at 1.
  destruct (refinePrecondition k t) eqn:Hpre; [|discriminate].
  cbn [negb]. intros [= Ht1].
  destruct (refinePrecondition_true _ _ Hpre) as (base & rest & Hl & Hv & Hty & Hk).
  set (o := set_computeMasks cm (set_sparse false RefineOptions_new)) in *.
  set (n := Z.to_nat k) in *.
  set (A := allocateLevels true k t) in *.
  assert (Hne : _levels t <> []) by (rewrite Hl; discriminate).
  pose proof (allocateLevels_shape true k t Hk Hne) as (Al & Ar & Ab). fold A in Al, Ar, Ab.
  pose proof (uniformLoop_shape n ft _ (seq_from_1 n) (o, A))
    as (Sl & Sr & Sb & F1 & F2 & F3 & F4).
  cbn zeta in Sl, Sr, Sb, F1, F2, F3, F4. rewrite Ht1 in Sl, Sr, Sb, F1, F2, F3, F4.
  cbn [snd] in Sl, Sr, Sb, F1, F2, F3, F4.
  (* the tables [Unrefine] leaves pass the entry assertions again *)
  assert (Hu : _levels (Unrefine t1) = [base]).
  { unfold Unrefine. cbn [_levels].
    rewrite Ab, Hl in Sb. destruct (_levels t1) as [|b l]; [discriminate Sb|].
    simpl in Sb. injection Sb as ->. simpl. rewrite ?resize_0. reflexivity. }
  assert (Hpre' : refinePrecondition k (Unrefine t1) = true).
  { unfold refinePrecondition. rewrite Hu.
    replace (_subdivType (Unrefine t1)) with (_subdivType t1) by reflexivity.
    rewrite F1. unfold A. cbn [allocateLevels _subdivType]. rewrite Hty.
    rewrite !andb_true_iff, Nat.ltb_lt, Z.leb_le. auto. }
  unfold RefineUniform. rewrite Hpre'. cbn [negb]. fold o. fold n. f_equal.
  set (A' := allocateLevels true k (Unrefine t1)).
  assert (Hag : agreeBelow 1 A' A).
  { unfold agreeBelow, A', A. cbn [allocateLevels _subdivType _subdivOptions _isUniform
                                    _maxLevel _levels _refinements].
    rewrite !length_resize, Hu, Hl.
    replace (_subdivType (Unrefine t1)) with (_subdivType t1) by reflexivity.
    replace (_subdivOptions (Unrefine t1)) with (_subdivOptions t1) by reflexivity.
    rewrite F1, F2.
    replace (Z.to_nat (k + 1)) with (S n) by lia.
    repeat split. }
  destruct (uniformLoop_agree n ft n 1%nat o A' A ltac:(lia) Hag) as (_ & Hfin).
  rewrite Ht1 in Hfin. cbn [snd] in Hfin. rewrite <- Ht1.
  rewrite Ht1. apply (agreeBelow_eq (1 + n)); [exact Hfin | |].
  - destruct Hfin as (_ & _ & _ & _ & Hll & _). rewrite Hll, Sl, Al. lia.
  - destruct Hfin as (_ & _ & _ & _ & _ & Hrr & _). rewrite Hrr, Sr, Ar. lia.
Qed.


End Tables.

(** C2, on the 2 x 2 torus, where nothing is irregular: [RefineAdaptive 5]
    stops at its first iteration. *)
Lemma RefineAdaptive_stops_early_witness :
  exists t',
    RefineAdaptive Sample.infinite 5 true true (Sample.tablesOn Sample.torus2x2) = Some t' /\
    _maxLevel t' = (Z.of_nat 1 - 1)%Z /\
    length (_levels t') = 1%nat /\ length (_refinements t') = (1 - 1)%nat /\
    _levels t'
    = take 1 (_levels (adaptiveStateAfter Sample.infinite 5 true true
                         (Sample.tablesOn Sample.torus2x2) (1 - 1))) /\
    _refinements t'
    = take (1 - 1) (_refinements (adaptiveStateAfter Sample.infinite 5 true true
                                    (Sample.tablesOn Sample.torus2x2) (1 - 1))) /\
    (1%nat = 1%nat -> length (_levels t') = 1%nat /\ _refinements t' = []).
Proof.
  apply (RefineAdaptive_stops_early Sample.infinite 5 true true
           (Sample.tablesOn Sample.torus2x2) 1).
  - reflexivity.
  - lia.
  - lia.
  - intros j Hj. lia.
  - vm_compute. reflexivity.
Defined.

(** C7, on the 2 x 2 grid refined uniformly to level 2: three levels, two
    refinements, the grid still at level 0. *)
Lemma tables_shape_witness :
  exists t',
    RefineUniform 2 true true (Sample.tablesOn Sample.grid2x2) = Some t' /\
    (1 <= length (_levels t'))%nat /\
    length (_levels t') = S (length (_refinements t')) /\
    _levels t' !! 0%nat = Some Sample.grid2x2.
Proof.
  destruct (RefineUniform 2 true true (Sample.tablesOn Sample.grid2x2)) as [t'|] eqn:Hrun;
    [|discriminate Hrun].
  exists t'. split; [reflexivity|].
  exact (proj1 (proj2 (tables_shape Sample.infinite)) 2%Z true true
           (Sample.tablesOn Sample.grid2x2) t' Hrun).
Defined.

(** C7 as the claim words it fails for [Clear]: the cleared tables hold no
    level at all, so there is no base level and the refinements are not one
    fewer than the levels. *)
Lemma tables_shape_counterexample :
  let t := Clear (FarRefineTables_new (R := Sample.Refined) TYPE_CATMARK Sample.uniformOptions) in
  length (_levels t) = 0%nat /\ length (_refinements t) = 0%nat
  /\ _levels t !! 0%nat = None
  /\ ~ (1 <= length (_levels t))%nat
  /\ Z.of_nat (length (_refinements t)) <> (Z.of_nat (length (_levels t)) - 1)%Z.
Proof. simpl. repeat split; lia. Qed.


(* ===================================================================== *)
(** ** Refining again, on the objects the vectors hold *)
(* ===================================================================== *)

Section TablesInPlace.
Context {R : Type} `{RF : Refinement R}.
Variable initializeAndRefine :
  RefineOptions -> VtrLevel -> gset VtrIndex -> R -> VtrLevel -> option (R * VtrLevel).

Abbreviation TablesIP := (FarRefineTables (R := R)).

Lemma uniformLoop_failed (n : nat) (ft : bool) (l : list nat) :
  foldl (InPlace.uniformStep initializeAndRefine n ft) None l = None.
Proof. induction l as [|i l IH]; [reflexivity | exact IH]. Qed.

(** A step that completes is the step on fresh objects. *)
Lemma refineLevel_completed (o : RefineOptions) (i : nat) (m : gset VtrIndex) (t t' : TablesIP) :
  InPlace.emptiesChild initializeAndRefine ->
  InPlace.refineLevel initializeAndRefine o i m t = Some t' ->
  t' = refineLevel o i m t.
Proof.
  intros He. unfold InPlace.refineLevel, refineLevel. cbv zeta.
  destruct (initializeAndRefine o _ m _ _) as [[r c]|] eqn:Hs; [|discriminate].
  intros [= <-]. apply He in Hs. rewrite <- Hs. reflexivity.
Qed.

Lemma uniformLoop_completed (n : nat) (ft : bool) (l : list nat) :
  InPlace.emptiesChild initializeAndRefine ->
  forall (st st' : RefineOptions * TablesIP),
    foldl (InPlace.uniformStep initializeAndRefine n ft) (Some st) l = Some st' ->
    foldl (uniformStep n ft) st l = st'.
Proof.
  intros He. induction l as [|i l IH]; intros [o s] st' Hrun.
  - injection Hrun as <-. reflexivity.
  - cbn [foldl] in Hrun |- *. unfold InPlace.uniformStep at 2 in Hrun.
    destruct (InPlace.refineLevel initializeAndRefine _ i ∅ s) as [s2|] eqn:Hs.
    + apply (refineLevel_completed _ _ _ _ _ He) in Hs. subst s2.
      apply IH in Hrun. exact Hrun.
    + rewrite uniformLoop_failed in Hrun. discriminate.
Qed.

(** A call that completes gives what the call on overwriting steps gives. *)
Lemma RefineUniform_completed (k : Z) (ft cm : bool) (t t1 : TablesIP) :
  InPlace.emptiesChild initializeAndRefine ->
  InPlace.RefineUniform initializeAndRefine k ft cm t = Some t1 ->
  RefineUniform k ft cm t = Some t1.
Proof.
  intros He. unfold InPlace.RefineUniform, RefineUniform.
  destruct (negb (refinePrecondition k t)); [discriminate|]. cbv zeta.
  destruct (foldl (InPlace.uniformStep _ _ _) _ _) as [[o s]|] eqn:Hrun; [|discriminate].
  intros [= ->]. apply (uniformLoop_completed _ _ _ He) in Hrun. rewrite Hrun. reflexivity.
Qed.

(** What [resize] appends is default-constructed. *)
Lemma nth_resize_new {A : Type} (l : list A) (n j : nat) (d : A) :
  (length l <= j)%nat -> nth j (resize n d l) d = d.
Proof.
  intros Hj. rewrite nth_lookup.
  destruct (Nat.lt_ge_cases j n) as [Hn|Hn].
  - rewrite lookup_resize_new by lia. reflexivity.
  - rewrite lookup_resize_old by lia. reflexivity.
Qed.

(** While the levels from [i] on and the refinements from [i - 1] on are
    fresh, every step completes. *)
Lemma uniformLoop_on_fresh (n : nat) (ft : bool) (m : nat) :
  InPlace.completesOnFresh initializeAndRefine ->
  forall (i : nat) (o : RefineOptions) (s : TablesIP),
    (1 <= i)%nat ->
    (forall j, (i <= j)%nat -> nth j (_levels s) VtrLevel_new = VtrLevel_new) ->
    (forall j, (i - 1 <= j)%nat -> nth j (_refinements s) VtrRefinement_new = VtrRefinement_new) ->
    foldl (InPlace.uniformStep initializeAndRefine n ft) (Some (o, s)) (seq i m)
    = Some (foldl (uniformStep n ft) (o, s) (seq i m)).
Proof.
  intros Hf. induction m as [|m IH]; intros i o s Hi Hl Hr; [reflexivity|].
  cbn [seq foldl]. unfold InPlace.uniformStep at 2, uniformStep at 2. cbn [fst snd].
  set (o' := set_faceTopologyOnly (if ft then false else (i =? n)%nat) o).
  assert (Hstep : InPlace.refineLevel initializeAndRefine o' i ∅ s = Some (refineLevel o' i ∅ s)).
  { unfold InPlace.refineLevel, refineLevel. cbv zeta.
    rewrite (Hl i), (Hr (i - 1)%nat), Hf by lia.
    destruct (refine o' _ ∅) as [r c]. reflexivity. }
  rewrite Hstep. apply IH; [lia | |].
  - intros j Hj. unfold refineLevel. destruct (refine o' _ ∅) as [r c]. cbn [_levels].
    rewrite nth_lookup, list_lookup_insert_ne by lia. rewrite <- nth_lookup. apply Hl. lia.
  - intros j Hj. unfold refineLevel. destruct (refine o' _ ∅) as [r c]. cbn [_refinements].
    rewrite nth_lookup, list_lookup_insert_ne by lia. rewrite <- nth_lookup. apply Hr. lia.
Qed.

(** C8.  Let the refinement step complete on fresh objects and, where it
    completes on objects of an earlier call, give what it gives on fresh
    ones.  After [RefineUniform k] has completed, [Unrefine] leaves the base
    level alone and no refinement, as before any refinement, and the same
    call then completes with the very same tables: the same levels and the
    same refinements, which hold the masks.  [Unrefine] is needed: where the
    step fails on the level 1 that the first call built, the same call
    without [Unrefine] fails. *)
Theorem RefineUniform_again (k : Z) (ft cm : bool) (t t1 : TablesIP) :
  InPlace.completesOnFresh initializeAndRefine ->
  InPlace.emptiesChild initializeAndRefine ->
  InPlace.RefineUniform initializeAndRefine k ft cm t = Some t1 ->
  _levels (Unrefine t1) = [nth 0 (_levels t) VtrLevel_new] /\
  _refinements (Unrefine t1) = [] /\
  InPlace.RefineUniform initializeAndRefine k ft cm (Unrefine t1) = Some t1 /\
  ((1 <= k)%Z ->
   (forall options parentLevel marked refinement,
      initializeAndRefine options parentLevel marked refinement
        (nth 1 (_levels t1) VtrLevel_new) = None) ->
   InPlace.RefineUniform initializeAndRefine k ft cm t1 = None).
Proof.
  intros Hf He Hrun.
  pose proof (RefineUniform_completed _ _ _ _ _ He Hrun) as Hpure.
  pose proof (RefineUniform_after_Unrefine _ _ _ _ _ Hpure) as Hagain.
  pose proof (RefineUniform_shape _ _ _ _ _ Hpure) as (Sl & Sr & Sb).
  assert (Hk : (0 <= k)%Z).
  { unfold RefineUniform in Hpure. destruct (refinePrecondition k t) eqn:Hp; [|discriminate].
    destruct (refinePrecondition_true _ _ Hp) as (_ & _ & _ & _ & _ & H). exact H. }
  assert (Hu : _levels (Unrefine t1) = [nth 0 (_levels t) VtrLevel_new]).
  { unfold Unrefine. cbn [_levels].
    destruct (_levels t1) as [|b l]; [discriminate Sl|].
    cbn [length Nat.eqb resize]. rewrite resize_0.
    rewrite nth_lookup, <- Sb. reflexivity. }
  split; [exact Hu|]. split; [reflexivity|]. split.
  - revert Hagain. unfold InPlace.RefineUniform, RefineUniform.
    destruct (negb (refinePrecondition k (Unrefine t1))); [discriminate|]. cbv zeta.
    intros [= Hagain].
    rewrite (uniformLoop_on_fresh _ _ _ Hf).
    + destruct (foldl (uniformStep _ _) _ _) as [o s]. cbn [snd] in Hagain.
      rewrite Hagain. reflexivity.
    + lia.
    + intros j Hj. cbn [allocateLevels _levels]. apply nth_resize_new.
      rewrite Hu. cbn [length]. lia.
    + intros j Hj. cbn [allocateLevels _refinements]. apply nth_resize_new.
      cbn [Unrefine _refinements length]. lia.
  - intros Hk1 Hfail. unfold InPlace.RefineUniform.
    destruct (negb (refinePrecondition k t1)); [reflexivity|]. cbv zeta.
    destruct (Z.to_nat k) as [|n] eqn:Hn; [lia|].
    cbn [seq foldl]. unfold InPlace.uniformStep at 2, InPlace.refineLevel.
    cbn [allocateLevels _levels _refinements].
    replace (Z.to_nat (k + 1)) with (length (_levels t1)) by lia.
    rewrite resize_all, Hfail, uniformLoop_failed. reflexivity.
Qed.

End TablesInPlace.

(** C8, on the 2 x 2 grid refined uniformly to level 2, with a step that
    asserts that its child level is fresh: after [Unrefine] the same call
    gives the same tables, without it the call fails. *)
Lemma RefineUniform_again_witness :
  exists t1,
    InPlace.RefineUniform SampleMore.assertingStep 2 false true
      (Sample.tablesOn Sample.grid2x2) = Some t1 /\
    _levels (Unrefine t1) = [Sample.grid2x2] /\
    _refinements (Unrefine t1) = [] /\
    InPlace.RefineUniform SampleMore.assertingStep 2 false true (Unrefine t1) = Some t1 /\
    InPlace.RefineUniform SampleMore.assertingStep 2 false true t1 = None.
Proof.
  eexists. split; [vm_compute; reflexivity|].
  match goal with
  | |- _levels (Unrefine ?t1) = _ /\ _ =>
      pose proof (RefineUniform_again SampleMore.assertingStep 2 false true
                    (Sample.tablesOn Sample.grid2x2) t1) as H
  end.
  destruct H as (H1 & H2 & H3 & H4).
  - intros o p m. reflexivity.
  - intros o p m r c rc. unfold SampleMore.assertingStep.
    destruct ((depth c =? 0)%nat && (vertCount c =? 0)%nat); [|discriminate].
    intros [= <-]. reflexivity.
  - vm_compute. reflexivity.
  - split; [exact H1|]. split; [exact H2|]. split; [exact H3|].
    apply H4; [lia|]. intros o p m r. reflexivity.
Defined.

(* ===================================================================== *)
(** ** Sums of weights *)
(* ===================================================================== *)

Lemma sumTo_nonpos (w : Z -> Q) (n : Z) : (n <= 0)%Z -> sumTo w n = 0.
Proof. intros H. unfold sumTo. rewrite seqZ_nil by lia. reflexivity. Qed.

Lemma sumQ_app (l k : list Q) : sumQ (l ++ k) == sumQ l + sumQ k.
Proof.
  induction l as [|x l IH]; simpl.
  - ring.
  - rewrite IH. ring.
Qed.

Lemma sumTo_succ (w : Z -> Q) (k : nat) :
  sumTo w (Z.of_nat (S k)) == sumTo w (Z.of_nat k) + w (Z.of_nat k).
Proof.
  unfold sumTo. rewrite seqZ_S, map_app, sumQ_app. simpl. rewrite Z.add_0_l. ring.
Qed.

(** Induction on the length of a prefix of an array. *)
Lemma sumTo_ind (P : Z -> Prop) :
  (forall n, (n <= 0)%Z -> P n) ->
  (forall k : nat, P (Z.of_nat k) -> P (Z.of_nat (S k))) ->
  forall n, P n.
Proof.
  intros H0 HS n. destruct (Z.le_gt_cases n 0) as [Hn|Hn]; [auto|].
  rewrite <- (Z2Nat.id n) by lia.
  induction (Z.to_nat n) as [|k IH]; [apply H0; lia | apply HS, IH].
Qed.

Lemma inCount_last (k : nat) : inCount (Z.of_nat (S k)) (Z.of_nat k) = true.
Proof.
  unfold inCount. apply andb_true_iff.
  split; [apply Z.leb_le | apply Z.ltb_lt]; lia.
Qed.

Lemma inCount_weaken (k : nat) (i : Z) :
  inCount (Z.of_nat k) i = true -> inCount (Z.of_nat (S k)) i = true.
Proof. intros H. rewrite inCount_succ, H. reflexivity. Qed.

Lemma sumTo_ext (f g : Z -> Q) (n : Z) :
  (forall i, inCount n i = true -> f i == g i) -> sumTo f n == sumTo g n.
Proof.
  revert n. apply (sumTo_ind (fun n => (forall i, inCount n i = true -> f i == g i)
                                       -> sumTo f n == sumTo g n)).
  - intros n Hn _. rewrite !sumTo_nonpos by exact Hn. reflexivity.
  - intros k IH H. rewrite !sumTo_succ.
    rewrite IH by (intros i Hi; apply H, inCount_weaken, Hi).
    rewrite (H (Z.of_nat k) (inCount_last k)). reflexivity.
Qed.

Lemma sumTo_scale (c : Q) (f : Z -> Q) (n : Z) :
  sumTo (fun i => c * f i) n == c * sumTo f n.
Proof.
  revert n. apply sumTo_ind.
  - intros n Hn. rewrite !sumTo_nonpos by exact Hn. ring.
  - intros k IH. rewrite !sumTo_succ, IH. ring.
Qed.

Lemma sumTo_plus (f g : Z -> Q) (n : Z) :
  sumTo (fun i => f i + g i) n == sumTo f n + sumTo g n.
Proof.
  revert n. apply sumTo_ind.
  - intros n Hn. rewrite !sumTo_nonpos by exact Hn. ring.
  - intros k IH. rewrite !sumTo_succ, IH. ring.
Qed.

Lemma sumTo_const (c : Q) (n : Z) :
  (0 <= n)%Z -> sumTo (fun _ => c) n == inject_Z n * c.
Proof.
  intros Hn. rewrite <- (Z2Nat.id n) by exact Hn.
  induction (Z.to_nat n) as [|k IH].
  - simpl. rewrite sumTo_nonpos by lia. ring.
  - rewrite sumTo_succ, IH. rewrite Nat2Z.inj_succ. unfold Z.succ.
    rewrite inject_Z_plus. ring.
Qed.

Lemma sumTo_zero (n : Z) : sumTo (fun _ => 0) n == 0.
Proof.
  revert n. apply sumTo_ind.
  - intros n Hn. rewrite sumTo_nonpos by exact Hn. reflexivity.
  - intros k IH. rewrite sumTo_succ, IH. ring.
Qed.

(** Summing an array read through a count [m] up to [n] is summing it up to
    [m], when [m] is 0 or [n]. *)
Lemma sumTo_through_count (f : Z -> Q) (m n : Z) :
  m = 0%Z \/ m = n ->
  sumTo (fun i => if inCount m i then f i else 0) n == sumTo f m.
Proof.
  intros [-> | ->].
  - rewrite (sumTo_nonpos f 0) by lia.
    rewrite (sumTo_ext _ (fun _ => 0)); [apply sumTo_zero|].
    intros i _. rewrite inCount_nonpos by lia. reflexivity.
  - apply sumTo_ext. intros i Hi. rewrite Hi. reflexivity.
Qed.

Lemma sumTo_1 (f : Z -> Q) : sumTo f 1 == f 0%Z.
Proof.
  change 1%Z with (Z.of_nat 1). rewrite sumTo_succ, sumTo_nonpos by (simpl; lia).
  change (Z.of_nat 0) with 0%Z. ring.
Qed.

Lemma sumTo_2 (f : Z -> Q) : sumTo f 2 == f 0%Z + f 1%Z.
Proof.
  change 2%Z with (Z.of_nat 2). rewrite sumTo_succ.
  change (Z.of_nat 1) with 1%Z. rewrite sumTo_1. reflexivity.
Qed.

(** A loop that rewrites vertex weight [i] touches the first [n] vertex
    weights and nothing else. *)
Lemma forLoop_vertex (g : Z -> Q -> Q) (n : Z) (d0 : Mask) :
  let r := forLoop n (fun i d => setVertexWeight i (g i (VertexWeight d i)) d) d0 in
  vCount r = vCount d0 /\ eCount r = eCount d0 /\ fCount r = fCount d0 /\
  eWeights r = eWeights d0 /\ fWeights r = fWeights d0 /\
  forall j, vWeights r j = if inCount n j then g j (vWeights d0 j) else vWeights d0 j.
Proof.
  cbv zeta. revert n. apply sumTo_ind.
  - intros n Hn. rewrite forLoop_nonpos by exact Hn.
    repeat split. intros j. rewrite inCount_nonpos by exact Hn. reflexivity.
  - intros k IH. rewrite forLoop_succ.
    destruct IH as (Hv & He & Hf & Hew & Hfw & Hvw).
    simpl. repeat split; try assumption.
    intros j. rewrite inCount_succ. unfold store, VertexWeight.
    destruct (Z.eqb_spec j (Z.of_nat k)) as [->|Hne].
    + rewrite orb_true_r, Hvw, inCount_self. reflexivity.
    + rewrite orb_false_r. apply Hvw.
Qed.

(* ===================================================================== *)
(** ** Face-vertex masks *)
(* ===================================================================== *)

(** X1.  For a face of n > 0 vertices the face-vertex mask holds n vertex
    weights, each 1/n, no edge and no face weight, and its weights sum
    to 1. *)
Theorem ComputeFaceVertexMask_sum {F : Type} `{FACE.Neighborhood F} (face : F) (mask : Mask) :
  (0 < FACE.GetVertexCount face)%Z ->
  let n := FACE.GetVertexCount face in
  let r := ComputeFaceVertexMask face mask in
  vCount r = n /\ eCount r = 0%Z /\ fCount r = 0%Z /\
  (forall i, (0 <= i < n)%Z -> VertexWeight r i = 1 / inject_Z n) /\
  maskSum r == 1.
Proof.
  intros Hn n r.
  pose proof (forLoop_vertex (fun _ _ => 1 / inject_Z n) n
                (SetFaceWeightCount 0 (SetEdgeWeightCount 0 (SetVertexWeightCount n mask))))
    as Hloop.
  cbv zeta beta in Hloop. fold n in Hloop.
  change (forLoop n _ _) with r in Hloop.
  destruct Hloop as (Hv & He & Hf & _ & _ & Hw). simpl in Hv, He, Hf.
  assert (Hin : forall i, (0 <= i < n)%Z -> VertexWeight r i = 1 / inject_Z n).
  { intros i Hi. unfold VertexWeight. rewrite Hw.
    unfold inCount.
    destruct (Z.leb_spec 0 i), (Z.ltb_spec i n); simpl; try lia. reflexivity. }
  repeat split; try assumption.
  unfold maskSum. rewrite Hv, He, Hf.
  rewrite (sumTo_nonpos (EdgeWeight r) 0), (sumTo_nonpos (FaceWeight r) 0) by lia.
  rewrite (sumTo_ext _ (fun _ => 1 / inject_Z n)).
  - rewrite sumTo_const by lia. field.
    intros Hz. assert (Hpos : inject_Z 0 < inject_Z n) by (rewrite <- Zlt_Qlt; exact Hn).
    rewrite Hz in Hpos. exact (Qlt_irrefl _ Hpos).
  - intros i Hi. rewrite (Hin i); [reflexivity|].
    unfold inCount in Hi. apply andb_true_iff in Hi as [H1 H2].
    apply Z.leb_le in H1. apply Z.ltb_lt in H2. lia.
Qed.

(* ===================================================================== *)
(** ** More on edge-vertex masks *)
(* ===================================================================== *)

Section EdgeVertexMaskSums.
Context {E V : Type}.
Context `{EN : EDGE.Neighborhood E} `{SM : SchemeMasks E V}.
Variable _options : SdcOptions.

(** The outcomes of the edge-vertex query: the smooth mask, the crease mask
    or the blend of the two. *)
Lemma ComputeEdgeVertexMask_outcomes (edge : E) (mask : Mask) (parentRule childRule : Rule) :
  let r := ComputeEdgeVertexMask (V := V) _options edge mask parentRule childRule in
  r = assignSmoothMaskForEdge edge mask
  \/ r = assignCreaseMaskForEdge edge mask
  \/ r = creaseToSmoothMask edge mask.
Proof.
  unfold ComputeEdgeVertexMask. repeat case_match; auto.
Qed.

Lemma assignCreaseMaskForEdge_sum (edge : E) (mask : Mask) :
  maskSum (assignCreaseMaskForEdge edge mask) == 1.
Proof.
  unfold maskSum. simpl.
  rewrite sumTo_2, !(sumTo_nonpos _ 0) by lia. reflexivity.
Qed.

Lemma creaseToSmoothMask_sum (edge : E) (mask : Mask) :
  let smooth := assignSmoothMaskForEdge edge mask in
  vCount smooth = 2%Z -> eCount smooth = 0%Z -> maskSum smooth == 1 ->
  maskSum (creaseToSmoothMask (V := V) edge mask) == 1.
Proof.
  intros smooth Hv He Hsum.
  pose proof (creaseToSmoothMask_weights edge mask) as H. cbv zeta in H. fold smooth in H.
  set (r := creaseToSmoothMask edge mask) in *.
  set (w := EDGE.GetSharpness edge) in *.
  destruct H as (Rv & Re & Rf & R0 & R1 & RF).
  unfold maskSum in *. rewrite Rv, Re, Rf, Hv, He in *.
  rewrite (sumTo_nonpos _ 0) in * by lia.
  rewrite sumTo_2 in *. rewrite R0, R1.
  rewrite (sumTo_ext (FaceWeight r) (fun j => (1 - w) * FaceWeight smooth j)).
  - rewrite sumTo_scale. rewrite (sumTo_nonpos (EdgeWeight smooth) 0) in Hsum by lia.
    set (sf := sumTo (FaceWeight smooth) (fCount smooth)) in *.
    set (v0 := VertexWeight smooth 0) in *. set (v1 := VertexWeight smooth 1) in *.
    transitivity (w + (1 - w) * (v0 + v1 + 0 + sf)); [ring|].
    rewrite Hsum. ring.
  - intros j Hj. rewrite RF, Hj. ring.
Qed.

(** X2.  Whatever rules are given and whatever the sharpness, the weights
    of an edge-vertex mask sum to 1 as soon as those of the scheme's smooth
    mask do (two vertex weights, no edge weight). *)
Theorem ComputeEdgeVertexMask_sum (edge : E) (mask : Mask) (parentRule childRule : Rule) :
  let smooth := assignSmoothMaskForEdge edge mask in
  vCount smooth = 2%Z -> eCount smooth = 0%Z -> maskSum smooth == 1 ->
  maskSum (ComputeEdgeVertexMask (V := V) _options edge mask parentRule childRule) == 1.
Proof.
  intros smooth Hv He Hsum.
  destruct (ComputeEdgeVertexMask_outcomes edge mask parentRule childRule)
    as [-> | [-> | ->]].
  - exact Hsum.
  - apply assignCreaseMaskForEdge_sum.
  - apply creaseToSmoothMask_sum; assumption.
Qed.

(** X3.  Under the uniform creasing method and with both rules left
    unknown, the mask follows from the parent sharpness alone: smooth up to
    0, the crease from 1 on, and the blend in between; the child sharpnesses
    are not looked at. *)
Theorem ComputeEdgeVertexMask_uniform (edge : E) (mask : Mask) :
  IsUniform (mkSdcCrease _options) = true ->
  let s := EDGE.GetSharpness edge in
  let r := ComputeEdgeVertexMask (V := V) _options edge mask RULE_UNKNOWN RULE_UNKNOWN in
  (s <= 0 -> r = assignSmoothMaskForEdge edge mask) /\
  (1 <= s -> r = assignCreaseMaskForEdge edge mask) /\
  (0 < s -> s < 1 -> r = creaseToSmoothMask edge mask).
Proof.
  intros Hu s r. unfold r, ComputeEdgeVertexMask, childIsCrease. simpl. rewrite Hu.
  fold s. split; [|split].
  - intros Hs. apply Qle_bool_iff in Hs. rewrite Hs. reflexivity.
  - intros Hs. assert (H0 : Qle_bool s 0 = false) by (apply Qle_bool_false; lra).
    apply Qle_bool_iff in Hs. rewrite H0, Hs. reflexivity.
  - intros H0 H1. apply Qle_bool_false in H0, H1. rewrite H0, H1. reflexivity.
Qed.

(** X4.  With a parent sharpness between 0 and 1 and a smooth mask without
    negative weights, no rule assignment yields a negative vertex or face
    weight. *)
Theorem ComputeEdgeVertexMask_nonnegative (edge : E) (mask : Mask) (parentRule childRule : Rule) :
  let smooth := assignSmoothMaskForEdge edge mask in
  let r := ComputeEdgeVertexMask (V := V) _options edge mask parentRule childRule in
  0 <= EDGE.GetSharpness edge -> EDGE.GetSharpness edge <= 1 ->
  0 <= VertexWeight smooth 0 -> 0 <= VertexWeight smooth 1 ->
  (forall j, inCount (fCount smooth) j = true -> 0 <= FaceWeight smooth j) ->
  0 <= VertexWeight r 0 /\ 0 <= VertexWeight r 1 /\
  forall j, inCount (fCount r) j = true -> 0 <= FaceWeight r j.
Proof.
  intros smooth r Hs0 Hs1 Hv0 Hv1 Hf. unfold r.
  destruct (ComputeEdgeVertexMask_outcomes edge mask parentRule childRule)
    as [-> | [-> | ->]].
  - auto.
  - repeat split; try (vm_compute; discriminate).
    intros j Hj. simpl in Hj. rewrite inCount_nonpos in Hj by lia. discriminate.
  - pose proof (creaseToSmoothMask_weights edge mask) as H. cbv zeta in H. fold smooth in H.
    destruct H as (_ & _ & Rf & R0 & R1 & RF).
    set (w := EDGE.GetSharpness edge) in *.
    assert (Hc : 0 <= 1 - w) by lra.
    rewrite R0, R1, Rf. repeat split.
    + pose proof (Qmult_le_0_compat _ _ Hc Hv0). lra.
    + pose proof (Qmult_le_0_compat _ _ Hc Hv1). lra.
    + intros j Hj. rewrite RF, Hj.
      apply Qmult_le_0_compat; [apply Hf, Hj | exact Hc].
Qed.

End EdgeVertexMaskSums.

(* ===================================================================== *)
(** ** More on vertex-vertex masks *)
(* ===================================================================== *)

Lemma combineEdgeWeights_count (this : Mask) (tc dc : Q) (dst : Mask) :
  eCount (combineEdgeWeights this tc dc dst)
  = if (eCount dst =? 0)%Z then eCount this else eCount dst.
Proof.
  unfold combineEdgeWeights, GetEdgeWeightCount.
  destruct (Z.eqb_spec (eCount this) 0) as [Hc|Hc].
  - destruct (Z.eqb_spec (eCount dst) 0); congruence.
  - destruct (Z.eqb_spec (eCount dst) 0) as [Hd|Hd].
    + pose proof (forLoop_edge (fun i _ => tc * EdgeWeight this i) (eCount this)
                    (SetEdgeWeightCount (eCount this) dst)) as H.
      cbv zeta beta in H. destruct H as (_ & He & _). rewrite He. reflexivity.
    + pose proof (forLoop_edge (fun i old => dc * old + tc * EdgeWeight this i)
                    (eCount this) dst) as H.
      cbv zeta beta in H. destruct H as (_ & He & _). exact He.
Qed.

Lemma combineFaceWeights_count (this : Mask) (tc dc : Q) (dst : Mask) :
  fCount (combineFaceWeights this tc dc dst)
  = if (fCount dst =? 0)%Z then fCount this else fCount dst.
Proof.
  unfold combineFaceWeights, GetFaceWeightCount.
  destruct (Z.eqb_spec (fCount this) 0) as [Hc|Hc].
  - destruct (Z.eqb_spec (fCount dst) 0); congruence.
  - destruct (Z.eqb_spec (fCount dst) 0) as [Hd|Hd].
    + pose proof (forLoop_face (fun i _ => tc * FaceWeight this i) (fCount this)
                    (SetFaceWeightCount (fCount this) dst)) as H.
      cbv zeta beta in H. destruct H as (_ & _ & Hf & _). rewrite Hf. reflexivity.
    + pose proof (forLoop_face (fun i old => dc * old + tc * FaceWeight this i)
                    (fCount this) dst) as H.
      cbv zeta beta in H. destruct H as (_ & _ & Hf & _). exact Hf.
Qed.

(** The counts the combination leaves in [dst]: a count of 0 is replaced by
    the count of [this]. *)
Lemma CombineVertexVertexMasks_counts (this : Mask) (tc dc : Q) (dst : Mask) :
  let r := CombineVertexVertexMasks this tc dc dst in
  vCount r = vCount dst /\
  eCount r = (if (eCount dst =? 0)%Z then eCount this else eCount dst) /\
  fCount r = (if (fCount dst =? 0)%Z then fCount this else fCount dst).
Proof.
  cbv zeta. rewrite CombineVertexVertexMasks_stages.
  set (d1 := setVertexWeight 0 _ dst).
  pose proof (combineEdgeWeights_spec this tc dc d1) as (Ev & Ef & _).
  pose proof (combineFaceWeights_spec this tc dc (combineEdgeWeights this tc dc d1))
    as (Fv & Fe & _).
  rewrite Fv, Ev, Fe, combineEdgeWeights_count, combineFaceWeights_count, Ef.
  repeat split.
Qed.

(** A sum of weights read through their count. *)
Lemma sumTo_edgeWeightOr0 (m : Mask) (n : Z) :
  eCount m = 0%Z \/ eCount m = n ->
  sumTo (edgeWeightOr0 m) n == sumTo (EdgeWeight m) (eCount m).
Proof. intros H. unfold edgeWeightOr0. apply (sumTo_through_count (EdgeWeight m)), H. Qed.

Lemma sumTo_faceWeightOr0 (m : Mask) (n : Z) :
  fCount m = 0%Z \/ fCount m = n ->
  sumTo (faceWeightOr0 m) n == sumTo (FaceWeight m) (fCount m).
Proof. intros H. unfold faceWeightOr0. apply (sumTo_through_count (FaceWeight m)), H. Qed.

(** The count after a combination is 0 or the count of either mask that is
    not 0. *)
Lemma covered_count (c p : Z) :
  covers c p ->
  let n := if (p =? 0)%Z then c else p in
  (p = 0%Z \/ p = n) /\ (c = 0%Z \/ c = n).
Proof.
  intros [-> | ->]; simpl.
  - auto.
  - destruct (Z.eqb_spec c 0); auto.
Qed.

(** The sum of the weights of a combination of two one-vertex masks, the
    first covering the second. *)
Lemma CombineVertexVertexMasks_maskSum (this : Mask) (tc dc : Q) (dst : Mask) :
  vCount this = 1%Z -> vCount dst = 1%Z ->
  covers (eCount this) (eCount dst) -> covers (fCount this) (fCount dst) ->
  maskSum (CombineVertexVertexMasks this tc dc dst) == dc * maskSum dst + tc * maskSum this.
Proof.
  intros Hvt Hvd He Hf.
  pose proof (CombineVertexVertexMasks_spec this tc dc dst) as (_ & S0 & SE & SF).
  pose proof (CombineVertexVertexMasks_counts this tc dc dst) as (Cv & Ce & Cf).
  cbv zeta in *.
  set (r := CombineVertexVertexMasks this tc dc dst) in *.
  specialize (SE He). specialize (SF Hf).
  destruct (covered_count _ _ He) as (Ed & Et).
  destruct (covered_count _ _ Hf) as (Fd & Ft).
  rewrite <- Ce in Ed, Et. rewrite <- Cf in Fd, Ft.
  unfold maskSum. rewrite Cv, Hvd, Hvt, !sumTo_1, S0.
  rewrite (sumTo_ext (EdgeWeight r) (edgeWeightOr0 r))
    by (intros i Hi; unfold edgeWeightOr0; rewrite Hi; reflexivity).
  rewrite (sumTo_ext (FaceWeight r) (faceWeightOr0 r))
    by (intros i Hi; unfold faceWeightOr0; rewrite Hi; reflexivity).
  rewrite (sumTo_ext (edgeWeightOr0 r) _ _ (fun i _ => SE i)).
  rewrite (sumTo_ext (faceWeightOr0 r) _ _ (fun i _ => SF i)).
  rewrite !sumTo_plus, !sumTo_scale.
  rewrite (sumTo_edgeWeightOr0 dst _ Ed), (sumTo_edgeWeightOr0 this _ Et).
  rewrite (sumTo_faceWeightOr0 dst _ Fd), (sumTo_faceWeightOr0 this _ Ft).
  ring.
Qed.

(** X5.  Combining a mask that covers the destination (both with their one
    vertex weight) gives weights that sum to
    dstCoeff * (sum of the destination) + thisCoeff * (sum of this). *)
Theorem CombineVertexVertexMasks_sum (this : Mask) (thisCoeff dstCoeff : Q) (dst : Mask) :
  vCount this = 1%Z -> vCount dst = 1%Z ->
  covers (eCount this) (eCount dst) -> covers (fCount this) (fCount dst) ->
  maskSum (CombineVertexVertexMasks this thisCoeff dstCoeff dst)
  == dstCoeff * maskSum dst + thisCoeff * maskSum this.
Proof. apply CombineVertexVertexMasks_maskSum. Qed.

(** X6.  When the combined mask holds no edge weights, the edge weights of
    the destination and their count stay as they were: they are not scaled
    by dstCoeff.  The same holds for face weights. *)
Theorem CombineVertexVertexMasks_uncovered (this : Mask) (thisCoeff dstCoeff : Q) (dst : Mask) :
  let r := CombineVertexVertexMasks this thisCoeff dstCoeff dst in
  (eCount this = 0%Z -> eCount r = eCount dst /\ forall i, EdgeWeight r i = EdgeWeight dst i) /\
  (fCount this = 0%Z -> fCount r = fCount dst /\ forall i, FaceWeight r i = FaceWeight dst i).
Proof.
  cbv zeta. rewrite CombineVertexVertexMasks_stages.
  set (d1 := setVertexWeight 0 _ dst).
  pose proof (combineFaceWeights_spec this thisCoeff dstCoeff
                (combineEdgeWeights this thisCoeff dstCoeff d1)) as (_ & Fe & _ & Few & _).
  pose proof (combineEdgeWeights_spec this thisCoeff dstCoeff d1) as (_ & Ef & _ & Efw & _).
  split.
  - intros H0. unfold EdgeWeight. rewrite Fe, Few.
    unfold combineEdgeWeights, GetEdgeWeightCount. rewrite H0. simpl. auto.
  - intros H0. unfold combineFaceWeights at 1 2, GetFaceWeightCount. rewrite H0. simpl.
    unfold FaceWeight. rewrite Ef, Efw. auto.
Qed.

Section VertexVertexMaskMore.
Context {E V : Type}.
Context `{VN : VERTEX.Neighborhood V} `{SM : SchemeMasks E V} `{CQ : CreaseQueries}.
Variable _options : SdcOptions.
Variable stackMask : Mask.

(** X7.  When a Crease or Corner parent turns into a child of another rule,
    and the two rule masks each hold one vertex weight and sum to 1, the
    child mask covering the parent mask, the blended mask sums to 1, whatever
    the fractional weight. *)
Theorem ComputeVertexVertexMask_sum (vertex : V) (mask : Mask) (pRule cRule : Rule) :
  let cRule0 := defaultChildRule pRule cRule in
  let pR := parentRuleOf _options vertex pRule cRule0 in
  let cR := childRuleOf _options vertex cRule0 in
  let parentMask :=
    assignMaskForRule (E := E) vertex mask pR (parentEdgeSharpness vertex pRule cRule0) in
  let childMask := childMaskOf (E := E) _options stackMask vertex cR in
  pR = RULE_CREASE \/ pR = RULE_CORNER -> cR <> pR ->
  vCount parentMask = 1%Z -> vCount childMask = 1%Z ->
  maskSum parentMask == 1 -> maskSum childMask == 1 ->
  covers (eCount childMask) (eCount parentMask) ->
  covers (fCount childMask) (fCount parentMask) ->
  maskSum (ComputeVertexVertexMask (E := E) _options stackMask vertex mask pRule cRule) == 1.
Proof.
  intros cRule0 pR cR parentMask childMask HpR Hne Hvp Hvc Hsp Hsc He Hf.
  rewrite (ComputeVertexVertexMask_reaches_blend _options stackMask vertex mask pRule cRule
             HpR Hne).
  fold cRule0 pR cR parentMask childMask.
  rewrite CombineVertexVertexMasks_maskSum by assumption.
  rewrite Hsp, Hsc. ring.
Qed.

(** X8.  A lone parent rule stands for both rules: with Crease or Corner
    given for the parent and the child rule left unknown (or given as the
    same rule), the result is the mask of that rule, with no blend; for
    Crease it is built from the parent's edge sharpness, for Corner no
    sharpness is gathered at all.  The same mask results when both rules are
    unknown and are determined to be the same Crease or Corner rule. *)
Theorem ComputeVertexVertexMask_no_transition (vertex : V) (mask : Mask) :
  ComputeVertexVertexMask (E := E) _options stackMask vertex mask RULE_CORNER RULE_UNKNOWN
  = assignCornerMaskForVertex vertex mask /\
  ComputeVertexVertexMask (E := E) _options stackMask vertex mask RULE_CORNER RULE_CORNER
  = assignCornerMaskForVertex vertex mask /\
  ComputeVertexVertexMask (E := E) _options stackMask vertex mask RULE_CREASE RULE_UNKNOWN
  = assignCreaseMaskForVertex vertex mask (Some (VERTEX.GetSharpnessPerEdge vertex)) /\
  ComputeVertexVertexMask (E := E) _options stackMask vertex mask RULE_CREASE RULE_CREASE
  = assignCreaseMaskForVertex vertex mask (Some (VERTEX.GetSharpnessPerEdge vertex)) /\
  (forall rule,
     rule = RULE_CREASE \/ rule = RULE_CORNER ->
     parentRuleOf _options vertex RULE_UNKNOWN RULE_UNKNOWN = rule ->
     childRuleOf _options vertex RULE_UNKNOWN = rule ->
     ComputeVertexVertexMask (E := E) _options stackMask vertex mask RULE_UNKNOWN RULE_UNKNOWN
     = assignMaskForRule (E := E) vertex mask rule (Some (VERTEX.GetSharpnessPerEdge vertex))).
Proof.
  repeat split; try reflexivity.
  intros rule Hrule Hp Hc.
  unfold ComputeVertexVertexMask. cbn [isSmoothOrDart Rule_eqb orb defaultChildRule andb negb].
  rewrite Hp, Hc. rewrite (isSmoothOrDart_false rule Hrule).
  destruct Hrule as [-> | ->]; reflexivity.
Qed.

(** X9.  A Smooth or Dart parent never blends: when the parent rule is
    given as Smooth or Dart, or is left unknown and determined to be one of
    them, the result is the scheme's smooth mask whatever the child rule,
    also for a child given as Crease or Corner. *)
Theorem ComputeVertexVertexMask_smooth_parent (vertex : V) (mask : Mask) (pRule cRule : Rule) :
  isSmoothOrDart (parentRuleOf _options vertex pRule (defaultChildRule pRule cRule)) = true ->
  ComputeVertexVertexMask (E := E) _options stackMask vertex mask pRule cRule
  = assignSmoothMaskForVertex (E := E) vertex mask.
Proof.
  intros Hp. unfold ComputeVertexVertexMask.
  destruct (isSmoothOrDart pRule); [reflexivity|].
  cbv zeta. rewrite Hp. reflexivity.
Qed.

End VertexVertexMaskMore.

(* ===================================================================== *)
(** ** More on the feature-adaptive analyzer *)
(* ===================================================================== *)

Section SelectorMore.
Context {R : Type} `{RF : Refinement R}.
Variable INFINITE : Q.

Abbreviation Selector' := (VtrSparseSelector (R := R)).

Lemma facesOfComplete_extends (s0 s : Selector') (v : VtrIndex) :
  extends s0 s -> facesOfComplete s v = facesOfComplete s0 v.
Proof.
  intros Hext. unfold facesOfComplete.
  rewrite (isVertexIncomplete_extends _ _ _ Hext).
  destruct Hext as (-> & _ & _). reflexivity.
Qed.

(** Selecting the faces of a vertex unless it is incomplete. *)
Lemma selectIfComplete (s : Selector') (v : VtrIndex) :
  let s' := if negb (isVertexIncomplete s v) then selectVertexFaces v s else s in
  extends s s' /\ selectedFaces s' = selectedFaces s ∪ facesOfComplete s v.
Proof.
  cbv zeta. unfold facesOfComplete.
  destruct (isVertexIncomplete s v); simpl.
  - split; [apply extends_refl | set_solver].
  - split; [apply selectVertexFaces_extends | apply selectVertexFaces_faces].
Qed.

Lemma selectorFaceStep_adds (s0 s : Selector') (f : VtrIndex) :
  extends s0 s ->
  selectedFaces (selectorFaceStep (parent s0) s f) = selectedFaces s ∪ faceContribution s0 f.
Proof.
  intros _. unfold selectorFaceStep, faceContribution.
  destruct (negb (length (accessFaceVerts (parent s0) f) =? 4)%nat); simpl; [reflexivity|].
  destruct (quadNeedsIsolation (parent s0) f); simpl; [reflexivity | set_solver].
Qed.

Lemma selectorVertStep_adds (s0 s : Selector') (v : VtrIndex) :
  extends s0 s ->
  selectedFaces (selectorVertStep INFINITE (parent s0) s v)
  = selectedFaces s ∪ vertContribution INFINITE s0 v.
Proof.
  intros Hext. unfold selectorVertStep, vertContribution.
  pose proof (selectIfComplete s v) as (_ & Hsel). cbv zeta in Hsel.
  rewrite (facesOfComplete_extends s0 s v Hext) in Hsel.
  destruct (selectVertex INFINITE (parent s0) v).
  - destruct (isVertexIncomplete s v); exact Hsel.
  - destruct (isVertexIncomplete s v); set_solver.
Qed.

Lemma selectorEdgeStep_adds (s0 s : Selector') (e : VtrIndex) :
  extends s0 s ->
  selectedFaces (selectorEdgeStep (parent s0) s e) = selectedFaces s ∪ edgeContribution s0 e.
Proof.
  intros Hext. unfold selectorEdgeStep, edgeContribution.
  destruct (Qle_bool (edgeSharpness (parent s0) e) 0
            || (length (accessEdgeFaces (parent s0) e) <? 2)%nat); [set_solver|].
  set (v0 := at_ (accessEdgeVerts (parent s0) e) 0).
  set (v1 := at_ (accessEdgeVerts (parent s0) e) 1).
  pose proof (selectIfComplete s v0) as (Hext1 & Hsel1). cbv zeta in Hext1, Hsel1.
  set (s1 := if negb (isVertexIncomplete s v0) then selectVertexFaces v0 s else s) in *.
  pose proof (selectIfComplete s1 v1) as (_ & Hsel2). cbv zeta in Hsel2.
  rewrite Hsel2, Hsel1.
  rewrite (facesOfComplete_extends s0 s v0 Hext).
  rewrite (facesOfComplete_extends s0 s1 v1 (extends_trans _ _ _ Hext Hext1)).
  set_solver.
Qed.

(** A loop whose iterations each add their contribution adds them all. *)
Lemma foldl_adds (step : Selector' -> VtrIndex -> Selector')
                 (contribution : VtrIndex -> gset VtrIndex) (s0 : Selector') :
  (forall s x, extends s (step s x)) ->
  (forall s x, extends s0 s -> selectedFaces (step s x) = selectedFaces s ∪ contribution x) ->
  forall (l : list VtrIndex) (s : Selector') (f : VtrIndex),
    extends s0 s ->
    (f ∈ selectedFaces (foldl step s l)
     <-> f ∈ selectedFaces s \/ exists x, x ∈ l /\ f ∈ contribution x).
Proof.
  intros Hext Hadd. induction l as [|y l IH]; intros s f Hs; simpl.
  - split; [auto|]. intros [H|(x & Hx & _)]; [exact H | inversion Hx].
  - rewrite IH by (eapply extends_trans; [exact Hs | apply Hext]).
    rewrite (Hadd s y Hs), elem_of_union. split.
    + intros [[H|H]|(x & Hx & Hf)]; [left; exact H | right; exists y | right; exists x].
      * split; [apply elem_of_cons; left; reflexivity | exact H].
      * split; [apply elem_of_cons; right; exact Hx | exact Hf].
    + intros [H|(x & Hx & Hf)]; [left; left; exact H|].
      apply elem_of_cons in Hx as [-> | Hx]; [left; right; exact Hf|].
      right. exists x. auto.
Qed.

(** The selection the analyzer returns, loop by loop. *)
Lemma catmarkFeatureAdaptiveSelector_adds (s : Selector') (f : VtrIndex) :
  f ∈ selectedFaces (catmarkFeatureAdaptiveSelector INFINITE s)
  <-> f ∈ selectedFaces s
      \/ (depth (parent s) = 0%nat
          /\ exists x, (x < faceCount (parent s))%nat /\ f ∈ faceContribution s x)
      \/ (exists v, (v < vertCount (parent s))%nat /\ f ∈ vertContribution INFINITE s v)
      \/ (exists e, (e < edgeCount (parent s))%nat /\ f ∈ edgeContribution s e).
Proof.
  unfold catmarkFeatureAdaptiveSelector.
  pose proof (selectorFacePass_extends s) as H1.
  set (s1 := selectorFacePass s) in *.
  pose proof (selectorVertPass_extends INFINITE s1) as H2.
  set (s2 := selectorVertPass INFINITE s1) in *.
  assert (H02 : extends s s2) by (eapply extends_trans; eassumption).
  assert (P1 : parent s1 = parent s) by apply H1.
  assert (P2 : parent s2 = parent s) by apply H02.
  unfold selectorEdgePass. rewrite P2.
  rewrite (foldl_adds (selectorEdgeStep (parent s)) (edgeContribution s) s
             (selectorEdgeStep_extends (parent s)) (selectorEdgeStep_adds s) _ s2 f H02).
  unfold s2, selectorVertPass. rewrite P1.
  rewrite (foldl_adds (selectorVertStep INFINITE (parent s)) (vertContribution INFINITE s) s
             (selectorVertStep_extends INFINITE (parent s)) (selectorVertStep_adds s) _ s1 f H1).
  assert (Hface : f ∈ selectedFaces s1
                  <-> f ∈ selectedFaces s
                      \/ (depth (parent s) = 0%nat
                          /\ exists x, (x < faceCount (parent s))%nat /\ f ∈ faceContribution s x)).
  { unfold s1, selectorFacePass.
    destruct (Nat.eqb_spec (depth (parent s)) 0) as [Hd|Hd].
    - rewrite (foldl_adds (selectorFaceStep (parent s)) (faceContribution s) s
                 (selectorFaceStep_extends (parent s)) (selectorFaceStep_adds s) _ s f
                 (extends_refl s)).
      split.
      + intros [H|(x & Hx & Hf)]; [left; exact H|].
        right. split; [exact Hd|]. exists x. apply elem_of_seq in Hx. split; [lia | exact Hf].
      + intros [H|(_ & x & Hx & Hf)]; [left; exact H|].
        right. exists x. split; [apply elem_of_seq; lia | exact Hf].
    - split; [auto|]. intros [H|(Hd' & _)]; [exact H | contradiction]. }
  rewrite Hface. clear Hface.
  split.
  - intros [[[H|H]|(v & Hv & Hf)]|(e & He & Hf)].
    + left. exact H.
    + right. left. exact H.
    + right. right. left. exists v. apply elem_of_seq in Hv. split; [lia | exact Hf].
    + right. right. right. exists e. apply elem_of_seq in He. split; [lia | exact Hf].
  - intros [H|[H|[(v & Hv & Hf)|(e & He & Hf)]]].
    + left. left. left. exact H.
    + left. left. right. exact H.
    + left. right. exists v. split; [apply elem_of_seq; lia | exact Hf].
    + right. exists e. split; [apply elem_of_seq; lia | exact Hf].
Qed.

Lemma elem_of_facesOfComplete (s : Selector') (v f : VtrIndex) :
  f ∈ facesOfComplete s v
  <-> isVertexIncomplete s v = false /\ f ∈ accessVertFaces (parent s) v.
Proof.
  unfold facesOfComplete. destruct (isVertexIncomplete s v).
  - split; [set_solver | intros [H _]; discriminate].
  - rewrite elem_of_list_to_set. split; [auto | intros [_ H]; exact H].
Qed.

(** The selection the analyzer returns, face by face. *)
Lemma analyzer_selected (s : Selector') (f : VtrIndex) :
  let level := parent s in
  f ∈ selectedFaces (catmarkFeatureAdaptiveSelector INFINITE s)
  <-> f ∈ selectedFaces s
      \/ (depth level = 0%nat /\ (f < faceCount level)%nat
          /\ (length (accessFaceVerts level f) <> 4%nat
              \/ quadNeedsIsolation level f = true))
      \/ (exists v, (v < vertCount level)%nat
                    /\ isVertexIncomplete s v = false
                    /\ selectVertex INFINITE level v = true
                    /\ f ∈ accessVertFaces level v)
      \/ (exists e v, (e < edgeCount level)%nat
                      /\ 0 < edgeSharpness level e
                      /\ (2 <= length (accessEdgeFaces level e))%nat
                      /\ (v = at_ (accessEdgeVerts level e) 0
                          \/ v = at_ (accessEdgeVerts level e) 1)
                      /\ isVertexIncomplete s v = false
                      /\ f ∈ accessVertFaces level v).
Proof.
  intros level. rewrite catmarkFeatureAdaptiveSelector_adds. fold level.
  apply or_iff_compat_l.
  assert (HF : (depth level = 0%nat
                /\ exists x, (x < faceCount level)%nat /\ f ∈ faceContribution s x)
               <-> (depth level = 0%nat /\ (f < faceCount level)%nat
                    /\ (length (accessFaceVerts level f) <> 4%nat
                        \/ quadNeedsIsolation level f = true))).
  { apply and_iff_compat_l. unfold faceContribution. fold level. split.
    - intros (x & Hx & Hf).
      destruct (negb (length (accessFaceVerts level x) =? 4)%nat
                || quadNeedsIsolation level x) eqn:Hw; [|set_solver].
      apply elem_of_singleton in Hf as ->. split; [exact Hx|].
      apply orb_true_iff in Hw as [Hw|Hw]; [left | right; exact Hw].
      apply negb_true_iff, Nat.eqb_neq in Hw. exact Hw.
    - intros (Hx & Hw). exists f. split; [exact Hx|].
      assert (negb (length (accessFaceVerts level f) =? 4)%nat
              || quadNeedsIsolation level f = true) as ->.
      { apply orb_true_iff. destruct Hw as [Hw|Hw]; [left | right; exact Hw].
        apply negb_true_iff, Nat.eqb_neq. exact Hw. }
      set_solver. }
  assert (HV : (exists v, (v < vertCount level)%nat /\ f ∈ vertContribution INFINITE s v)
               <-> (exists v, (v < vertCount level)%nat
                              /\ isVertexIncomplete s v = false
                              /\ selectVertex INFINITE level v = true
                              /\ f ∈ accessVertFaces level v)).
  { unfold vertContribution. fold level. split.
    - intros (v & Hv & Hf). exists v.
      destruct (selectVertex INFINITE level v); [|set_solver].
      apply elem_of_facesOfComplete in Hf as (Hi & Hf). fold level in Hf. auto.
    - intros (v & Hv & Hi & Hsel & Hf). exists v. split; [exact Hv|].
      rewrite Hsel. apply elem_of_facesOfComplete. auto. }
  assert (HE : (exists e, (e < edgeCount level)%nat /\ f ∈ edgeContribution s e)
               <-> (exists e v, (e < edgeCount level)%nat
                                /\ 0 < edgeSharpness level e
                                /\ (2 <= length (accessEdgeFaces level e))%nat
                                /\ (v = at_ (accessEdgeVerts level e) 0
                                    \/ v = at_ (accessEdgeVerts level e) 1)
                                /\ isVertexIncomplete s v = false
                                /\ f ∈ accessVertFaces level v)).
  { unfold edgeContribution. fold level. split.
    - intros (e & He & Hf).
      destruct (Qle_bool (edgeSharpness level e) 0) eqn:Hs; [set_solver|].
      destruct (Nat.ltb_spec (length (accessEdgeFaces level e)) 2) as [Hb|Hb]; [set_solver|].
      simpl in Hf. apply Qle_bool_false in Hs.
      apply elem_of_union in Hf as [Hf|Hf];
        apply elem_of_facesOfComplete in Hf as (Hi & Hf); fold level in Hf.
      + exists e, (at_ (accessEdgeVerts level e) 0). auto 10.
      + exists e, (at_ (accessEdgeVerts level e) 1). auto 10.
    - intros (e & v & He & Hs & Hb & Hv & Hi & Hf). exists e. split; [exact He|].
      apply Qle_bool_false in Hs. rewrite Hs.
      destruct (Nat.ltb_spec (length (accessEdgeFaces level e)) 2) as [Hb'|_]; [lia|].
      simpl. apply elem_of_union.
      destruct Hv as [-> | ->]; [left | right]; apply elem_of_facesOfComplete; auto. }
  rewrite HF, HV, HE. reflexivity.
Qed.

(** X10.  The analyzer never deselects, and a face is selected when it
    returns exactly when it was selected before, or the level has depth 0
    and the face is one of its faces and is not a quad or passes the
    boundary test, or it is a face of a vertex of the level that is not
    incomplete and is selected by the vertex test, or it is a face of an end
    of an edge of the level of positive sharpness with at least two faces,
    that end not being incomplete. *)
Theorem catmarkFeatureAdaptiveSelector_selected (s : Selector') (f : VtrIndex) :
  let level := parent s in
  f ∈ selectedFaces (catmarkFeatureAdaptiveSelector INFINITE s)
  <-> f ∈ selectedFaces s
      \/ (depth level = 0%nat /\ (f < faceCount level)%nat
          /\ (length (accessFaceVerts level f) <> 4%nat
              \/ quadNeedsIsolation level f = true))
      \/ (exists v, (v < vertCount level)%nat
                    /\ isVertexIncomplete s v = false
                    /\ selectVertex INFINITE level v = true
                    /\ f ∈ accessVertFaces level v)
      \/ (exists e v, (e < edgeCount level)%nat
                      /\ 0 < edgeSharpness level e
                      /\ (2 <= length (accessEdgeFaces level e))%nat
                      /\ (v = at_ (accessEdgeVerts level e) 0
                          \/ v = at_ (accessEdgeVerts level e) 1)
                      /\ isVertexIncomplete s v = false
                      /\ f ∈ accessVertFaces level v).
Proof. apply analyzer_selected. Qed.

(** The vertex test on a smooth vertex. *)
Lemma selectVertex_smooth (level : VtrLevel) (vert : VtrIndex) :
  vertSharpness level vert <= 0 ->
  selectVertex INFINITE level vert = true
  <-> (length (accessVertFaces level vert) = length (accessVertEdges level vert)
       /\ length (accessVertFaces level vert) <> 4%nat)
      \/ (length (accessVertFaces level vert) <> length (accessVertEdges level vert)
          /\ length (accessVertFaces level vert) <> 2%nat).
Proof.
  intros Hs. unfold selectVertex. apply Qlt_bool_false in Hs. rewrite Hs.
  destruct (Nat.eqb_spec (length (accessVertFaces level vert))
                         (length (accessVertEdges level vert))) as [He|He];
    rewrite negb_true_iff, Nat.eqb_neq; split.
  - intros H. left. auto.
  - intros [[_ H]|[H _]]; [exact H | contradiction].
  - intros H. right. auto.
  - intros [[H _]|[_ H]]; [contradiction | exact H].
Qed.

(** On a regular level the analyzer adds nothing. *)
Lemma regularLevel_adds_nothing (s : Selector') :
  regularLevel (parent s) ->
  selectedFaces (catmarkFeatureAdaptiveSelector INFINITE s) = selectedFaces s.
Proof.
  intros (HF & HV & HE). apply set_eq. intros f.
  rewrite analyzer_selected. cbv zeta.
  split; [|auto].
  intros [H|[(Hd & Hf & Hw)|[(v & Hv & Hi & Hsel & Hf)|(e & v & He & Hs & _)]]].
  - exact H.
  - exfalso. destruct (HF f Hf) as (H4 & Hb & Hopp).
    destruct Hw as [Hw|Hw]; [contradiction|].
    apply quadNeedsIsolation_true in Hw as [Hw|[Hw1 Hw2]]; [lia | exact (Hopp Hw1 Hw2)].
  - exfalso. destruct (HV v Hv) as (Hsm & Hreg).
    apply (selectVertex_smooth _ _ Hsm) in Hsel.
    destruct Hsel as [[A B]|[A B]], Hreg as [[C D]|[C D]]; congruence.
  - exfalso. specialize (HE e He). apply Qlt_not_le in Hs. contradiction.
Qed.

(** X11.  For a vertex of sharpness at most 0 that is not flagged
    incomplete: its iteration selects its incident faces if it has as many
    faces as edges and not 4 of them, or a different number of faces and
    edges and not 2 faces; otherwise its iteration selects nothing. *)
Theorem catmarkFeatureAdaptiveSelector_smooth_vertex (selector : Selector') (vert : VtrIndex) :
  let level := parent selector in
  let faces := length (accessVertFaces level vert) in
  let edges := length (accessVertEdges level vert) in
  let irregular := (faces = edges /\ faces <> 4%nat) \/ (faces <> edges /\ faces <> 2%nat) in
  isVertexIncomplete selector vert = false -> vertSharpness level vert <= 0 ->
  (irregular -> selectorVertStep INFINITE level selector vert = selectVertexFaces vert selector) /\
  (irregular -> (vert < vertCount level)%nat ->
     forall f, f ∈ accessVertFaces level vert ->
               f ∈ selectedFaces (catmarkFeatureAdaptiveSelector INFINITE selector)) /\
  (~ irregular -> selectorVertStep INFINITE level selector vert = selector).
Proof.
  intros level faces edges irregular Hinc Hs.
  pose proof (selectVertex_smooth level vert Hs) as Hsel. fold faces edges irregular in Hsel.
  unfold selectorVertStep. rewrite Hinc.
  split; [|split].
  - intros Hi. apply Hsel in Hi. rewrite Hi. reflexivity.
  - intros Hi Hv f Hf. apply analyzer_selected.
    right. right. left. exists vert. fold level. apply Hsel in Hi. auto.
  - intros Hn. destruct (selectVertex INFINITE level vert); [|reflexivity].
    exfalso. apply Hn, Hsel. reflexivity.
Qed.

End SelectorMore.

(* ===================================================================== *)
(** ** More on the refinement tables *)
(* ===================================================================== *)

Section TablesMore.
Context {R : Type} `{RF : Refinement R}.
Variable INFINITE : Q.

Abbreviation Tables' := (FarRefineTables (R := R)).

(** What one refinement step writes, and what it leaves alone. *)
Lemma refineLevel_entries (o : RefineOptions) (i : nat) (marks : gset VtrIndex) (t : Tables') :
  (1 <= i)%nat -> (i < length (_levels t))%nat -> (i - 1 < length (_refinements t))%nat ->
  let t' := refineLevel o i marks t in
  refine o (nth (i - 1) (_levels t) VtrLevel_new) marks
  = (nth (i - 1) (_refinements t') VtrRefinement_new, nth i (_levels t') VtrLevel_new) /\
  (forall j, j <> i -> nth j (_levels t') VtrLevel_new = nth j (_levels t) VtrLevel_new) /\
  (forall j, j <> (i - 1)%nat ->
     nth j (_refinements t') VtrRefinement_new = nth j (_refinements t) VtrRefinement_new).
Proof.
  intros Hi Hl Hr. unfold refineLevel. cbv zeta.
  destruct (refine o (nth (i - 1) (_levels t) VtrLevel_new) marks) as [r c]. simpl.
  repeat split.
  - rewrite !nth_lookup, !list_lookup_insert_eq by assumption. reflexivity.
  - intros j Hj. rewrite !nth_lookup, list_lookup_insert_ne by lia. reflexivity.
  - intros j Hj. rewrite !nth_lookup, list_lookup_insert_ne by lia. reflexivity.
Qed.

Lemma nth_take {A : Type} (l : list A) (n j : nat) (d : A) :
  (j < n)%nat -> nth j (take n l) d = nth j l d.
Proof. intros H. rewrite !nth_lookup, lookup_take_lt by exact H. reflexivity. Qed.

(** Two lists of one length with the same entries are equal. *)
Lemma nth_ext_eq {A : Type} (l l' : list A) (d : A) :
  length l = length l' -> (forall j, (j < length l)%nat -> nth j l d = nth j l' d) -> l = l'.
Proof.
  intros Hlen H. apply list_eq. intros j.
  destruct (Nat.lt_ge_cases j (length l)) as [Hj|Hj].
  - specialize (H j Hj). rewrite !nth_lookup in H.
    destruct (lookup_lt_is_Some_2 l j Hj) as [x Hx].
    destruct (lookup_lt_is_Some_2 l' j ltac:(lia)) as [y Hy].
    rewrite Hx, Hy in *. simpl in H. congruence.
  - rewrite !lookup_ge_None_2 by lia. reflexivity.
Qed.

(** *** Uniform refinement, level by level *)

Lemma set_faceTopologyOnly_twice (b b' : bool) (o : RefineOptions) :
  set_faceTopologyOnly b (set_faceTopologyOnly b' o) = set_faceTopologyOnly b o.
Proof. reflexivity. Qed.

(** After [m] iterations of the loop of [RefineUniform], every level up to
    [m] is the refinement of the level below it. *)
Lemma uniformLoop_chain (n : nat) (ft : bool) (o0 : RefineOptions) (A : Tables') (m : nat) :
  (m < length (_levels A))%nat -> (m <= length (_refinements A))%nat ->
  let st := foldl (uniformStep n ft) (o0, A) (seq 1 m) in
  (forall b, set_faceTopologyOnly b (fst st) = set_faceTopologyOnly b o0) /\
  length (_levels (snd st)) = length (_levels A) /\
  length (_refinements (snd st)) = length (_refinements A) /\
  forall i, (1 <= i <= m)%nat ->
    refine (set_faceTopologyOnly (if ft then false else (i =? n)%nat) o0)
           (nth (i - 1) (_levels (snd st)) VtrLevel_new) ∅
    = (nth (i - 1) (_refinements (snd st)) VtrRefinement_new,
       nth i (_levels (snd st)) VtrLevel_new).
Proof.
  cbv zeta. induction m as [|m IH]; intros Hl Hr.
  - simpl. repeat split. intros i Hi. lia.
  - destruct (IH ltac:(lia) ltac:(lia)) as (Ho & Ll & Lr & Hc).
    rewrite seq_S, foldl_snoc.
    set (st := foldl (uniformStep n ft) (o0, A) (seq 1 m)) in *.
    unfold uniformStep at 1 2 3 4 5 6. cbn [fst snd].
    replace (1 + m)%nat with (S m) by lia.
    set (o := set_faceTopologyOnly (if ft then false else (S m =? n)%nat) (fst st)).
    assert (Hoo : o = set_faceTopologyOnly (if ft then false else (S m =? n)%nat) o0)
      by apply Ho.
    pose proof (refineLevel_fields o (S m) ∅ (snd st)) as (_ & _ & _ & _ & Fl & Fr).
    pose proof (refineLevel_entries o (S m) ∅ (snd st) ltac:(lia) ltac:(lia) ltac:(lia))
      as (Hw & Hkl & Hkr).
    cbv zeta in Fl, Fr, Hw, Hkl, Hkr.
    split; [intros b; unfold o; rewrite set_faceTopologyOnly_twice; apply Ho|].
    split; [congruence|]. split; [congruence|].
    intros i Hi. destruct (Nat.eq_dec i (S m)) as [->|Hne].
    + rewrite <- Hoo, (Hkl (S m - 1)%nat) by lia. exact Hw.
    + rewrite (Hkl (i - 1)%nat), (Hkl i), (Hkr (i - 1)%nat) by lia.
      apply Hc. lia.
Qed.

Lemma RefineUniform_chain_aux (n : Z) (ft cm : bool) (t t' : Tables') :
  RefineUniform n ft cm t = Some t' ->
  _isUniform t' = true /\ _maxLevel t' = n /\
  length (_levels t') = S (Z.to_nat n) /\ length (_refinements t') = Z.to_nat n /\
  nth 0 (_levels t') VtrLevel_new = nth 0 (_levels t) VtrLevel_new /\
  forall i, (1 <= i <= Z.to_nat n)%nat ->
    refine (uniformOptionsAt (Z.to_nat n) ft cm i) (nth (i - 1) (_levels t') VtrLevel_new) ∅
    = (nth (i - 1) (_refinements t') VtrRefinement_new, nth i (_levels t') VtrLevel_new).
Proof.
  intros Hrun.
  pose proof (RefineUniform_shape _ _ _ _ _ Hrun) as (Sl & Sr & Sb).
  revert Hrun. unfold RefineUniform.
  destruct (refinePrecondition n t) eqn:Hpre; [|discriminate].
  cbn [negb]. intros [= Ht'].
  destruct (refinePrecondition_true _ _ Hpre) as (base & rest & Hl & _ & _ & Hn).
  assert (Hne : _levels t <> []) by (rewrite Hl; discriminate).
  pose proof (allocateLevels_shape true n t Hn Hne) as (Al & Ar & _).
  set (A := allocateLevels true n t) in *.
  set (o0 := set_computeMasks cm (set_sparse false RefineOptions_new)) in *.
  pose proof (uniformLoop_shape (Z.to_nat n) ft _ (seq_from_1 (Z.to_nat n)) (o0, A))
    as (_ & _ & _ & _ & _ & F3 & F4).
  pose proof (uniformLoop_chain (Z.to_nat n) ft o0 A (Z.to_nat n) ltac:(lia) ltac:(lia))
    as (_ & _ & _ & Hc).
  cbv zeta in F3, F4, Hc. rewrite Ht' in F3, F4, Hc. cbn [snd] in F3, F4.
  split; [exact F3|]. split; [exact F4|]. split; [exact Sl|]. split; [exact Sr|].
  split; [rewrite !nth_lookup, Sb; reflexivity|].
  exact Hc.
Qed.

(** X12.  When [RefineUniform n] completes, the tables are flagged uniform
    with maximum level n, hold n + 1 levels, and every level i from 1 to n,
    with its refinement, is what [refine] makes of level i - 1: not sparse,
    masks computed as asked, and with face topology only exactly at the last
    level when full topology was not asked for. *)
Theorem RefineUniform_levels (n : Z) (ft cm : bool) (t t' : Tables') :
  RefineUniform n ft cm t = Some t' ->
  _isUniform t' = true /\ _maxLevel t' = n /\
  length (_levels t') = S (Z.to_nat n) /\ length (_refinements t') = Z.to_nat n /\
  forall i, (1 <= i <= Z.to_nat n)%nat ->
    let o := uniformOptionsAt (Z.to_nat n) ft cm i in
    (_sparse o = false /\ _computeMasks o = cm
     /\ _faceTopologyOnly o = negb ft && (i =? Z.to_nat n)%nat) /\
    refine o (nth (i - 1) (_levels t') VtrLevel_new) ∅
    = (nth (i - 1) (_refinements t') VtrRefinement_new, nth i (_levels t') VtrLevel_new).
Proof.
  intros Hrun.
  destruct (RefineUniform_chain_aux _ _ _ _ _ Hrun) as (H1 & H2 & H3 & H4 & _ & Hc).
  repeat split; try assumption.
  - destruct ft; reflexivity.
  - apply Hc. assumption.
Qed.

(** Two chains of refinements from one base level, made with the same
    options, are the same as far as both go. *)
Lemma chains_agree (o o' : nat -> RefineOptions) (L L' : list VtrLevel) (Rf Rf' : list R)
                   (m : nat) :
  nth 0 L VtrLevel_new = nth 0 L' VtrLevel_new ->
  (forall i, (1 <= i <= m)%nat -> o i = o' i) ->
  (forall i, (1 <= i <= m)%nat ->
     refine (o i) (nth (i - 1) L VtrLevel_new) ∅
     = (nth (i - 1) Rf VtrRefinement_new, nth i L VtrLevel_new)) ->
  (forall i, (1 <= i <= m)%nat ->
     refine (o' i) (nth (i - 1) L' VtrLevel_new) ∅
     = (nth (i - 1) Rf' VtrRefinement_new, nth i L' VtrLevel_new)) ->
  forall i, (i <= m)%nat ->
    nth i L VtrLevel_new = nth i L' VtrLevel_new /\
    ((1 <= i)%nat -> nth (i - 1) Rf VtrRefinement_new = nth (i - 1) Rf' VtrRefinement_new).
Proof.
  intros H0 Ho Hc Hc'. induction i as [|i IH]; intros Hi.
  - split; [exact H0 | lia].
  - destruct (IH ltac:(lia)) as (Hprev & _).
    pose proof (Hc (S i) ltac:(lia)) as E. pose proof (Hc' (S i) ltac:(lia)) as E'.
    replace (S i - 1)%nat with i in * by lia.
    rewrite (Ho (S i)), Hprev, E' in E by lia.
    injection E as E1 E2. auto.
Qed.

(** X13.  Refining uniformly to level j gives what refining to a higher
    level k gives, as far as it goes: with full topology, its levels and
    refinements are the first j + 1 levels and the first j refinements of
    the finer tables; without, this holds below level j, the last level of
    the coarser tables alone being made with face topology only. *)
Theorem RefineUniform_prefix (j k : Z) (ft cm : bool) (t tj tk : Tables') :
  (j <= k)%Z ->
  RefineUniform j ft cm t = Some tj -> RefineUniform k ft cm t = Some tk ->
  take (Z.to_nat j) (_levels tj) = take (Z.to_nat j) (_levels tk) /\
  take (Z.to_nat j - 1) (_refinements tj) = take (Z.to_nat j - 1) (_refinements tk) /\
  (ft = true \/ j = k ->
   _levels tj = take (S (Z.to_nat j)) (_levels tk) /\
   _refinements tj = take (Z.to_nat j) (_refinements tk)).
Proof.
  intros Hjk Hj Hk.
  destruct (RefineUniform_chain_aux _ _ _ _ _ Hj) as (_ & _ & Jl & Jr & J0 & Jc).
  destruct (RefineUniform_chain_aux _ _ _ _ _ Hk) as (_ & _ & Kl & Kr & K0 & Kc).
  assert (Hjn : (0 <= j)%Z).
  { unfold RefineUniform in Hj. destruct (refinePrecondition j t) eqn:Hp; [|discriminate].
    destruct (refinePrecondition_true _ _ Hp) as (_ & _ & _ & _ & _ & H). exact H. }
  set (nj := Z.to_nat j) in *. set (nk := Z.to_nat k) in *.
  assert (Hn : (nj <= nk)%nat) by (unfold nj, nk; lia).
  assert (Hbelow : forall i, (i <= nj - 1)%nat ->
            nth i (_levels tj) VtrLevel_new = nth i (_levels tk) VtrLevel_new /\
            ((1 <= i)%nat -> nth (i - 1) (_refinements tj) VtrRefinement_new
                             = nth (i - 1) (_refinements tk) VtrRefinement_new)).
  { apply (chains_agree (uniformOptionsAt nj ft cm) (uniformOptionsAt nk ft cm)).
    - congruence.
    - intros i Hi. unfold uniformOptionsAt. destruct ft; [reflexivity|].
      destruct (Nat.eqb_spec i nj), (Nat.eqb_spec i nk); try reflexivity; lia.
    - intros i Hi. apply Jc. lia.
    - intros i Hi. apply Kc. lia. }
  split; [|split].
  - apply (nth_ext_eq _ _ VtrLevel_new).
    + rewrite !length_take. lia.
    + intros i Hi. rewrite length_take in Hi.
      rewrite !nth_take by lia. apply Hbelow. lia.
  - apply (nth_ext_eq _ _ VtrRefinement_new).
    + rewrite !length_take. lia.
    + intros i Hi. rewrite length_take in Hi.
      rewrite !nth_take by lia.
      destruct (Hbelow (S i) ltac:(lia)) as (_ & H).
      replace (S i - 1)%nat with i in H by lia. apply H. lia.
  - intros Hfull.
    assert (Hall : forall i, (i <= nj)%nat ->
              nth i (_levels tj) VtrLevel_new = nth i (_levels tk) VtrLevel_new /\
              ((1 <= i)%nat -> nth (i - 1) (_refinements tj) VtrRefinement_new
                               = nth (i - 1) (_refinements tk) VtrRefinement_new)).
    { apply (chains_agree (uniformOptionsAt nj ft cm) (uniformOptionsAt nk ft cm)).
      - congruence.
      - intros i Hi. unfold uniformOptionsAt.
        destruct Hfull as [-> | ->]; [reflexivity|]. reflexivity.
      - intros i Hi. apply Jc. lia.
      - intros i Hi. apply Kc. lia. }
    split.
    + apply (nth_ext_eq _ _ VtrLevel_new).
      * rewrite length_take. lia.
      * intros i Hi. rewrite nth_take by lia. apply Hall. lia.
    + apply (nth_ext_eq _ _ VtrRefinement_new).
      * rewrite length_take. lia.
      * intros i Hi. rewrite nth_take by lia.
        destruct (Hall (S i) ltac:(lia)) as (_ & H).
        replace (S i - 1)%nat with i in H by lia. apply H. lia.
Qed.

(** *** Adaptive refinement, level by level *)

(** The selection of iteration [i] reads level [i - 1] and, past the first
    iteration, refinement [i - 2], and nothing else of the tables. *)
Lemma adaptiveSelection_ext (i : nat) (t t' : Tables') :
  nth (i - 1) (_levels t) VtrLevel_new = nth (i - 1) (_levels t') VtrLevel_new ->
  ((2 <= i)%nat -> nth (i - 2) (_refinements t) VtrRefinement_new
                   = nth (i - 2) (_refinements t') VtrRefinement_new) ->
  adaptiveSelection INFINITE true i t = adaptiveSelection INFINITE true i t'.
Proof.
  intros Hl Hr. unfold adaptiveSelection. rewrite Hl.
  destruct (Nat.eqb_spec (i - 1) 0) as [E|E]; cbn [negb]; [reflexivity|].
  rewrite Hr by lia. reflexivity.
Qed.

(** The iterations that select something build a chain: level i is the
    sparse refinement of level i - 1 on the faces selected at iteration i. *)
Lemma adaptiveStateAfter_chain (n : Z) (ft cm : bool) (t : Tables') (k : nat) :
  (0 <= n)%Z -> _levels t <> [] -> (k <= Z.to_nat n)%nat ->
  let A := adaptiveStateAfter INFINITE n ft cm t k in
  _isUniform A = false /\ _maxLevel A = n /\
  nth 0 (_levels A) VtrLevel_new = nth 0 (_levels t) VtrLevel_new /\
  (forall i, (1 <= i <= S k)%nat ->
     adaptiveSelection INFINITE true i A
     = adaptiveSelection INFINITE true i (adaptiveStateAfter INFINITE n ft cm t (i - 1))) /\
  (forall i, (1 <= i <= k)%nat ->
     refine (adaptiveLoopOptions ft cm) (nth (i - 1) (_levels A) VtrLevel_new)
            (selectedFaces (adaptiveSelection INFINITE true i A))
     = (nth (i - 1) (_refinements A) VtrRefinement_new, nth i (_levels A) VtrLevel_new)).
Proof.
  intros Hn Hne. cbv zeta. induction k as [|k IH]; intros Hk.
  - cbn [adaptiveStateAfter].
    pose proof (allocateLevels_shape false n t Hn Hne) as (_ & _ & Ab).
    split; [reflexivity|]. split; [reflexivity|].
    split; [rewrite !nth_lookup, Ab; reflexivity|].
    split; [|intros i Hi; lia].
    intros i Hi. replace (i - 1)%nat with 0%nat by lia. reflexivity.
  - destruct (IH ltac:(lia)) as (Iu & Im & Ib & Isel & Ich).
    pose proof (adaptiveStateAfter_shape INFINITE n ft cm t k Hn Hne) as (Bl & Br).
    cbn [adaptiveStateAfter].
    set (before := adaptiveStateAfter INFINITE n ft cm t k) in *.
    set (marks := selectedFaces (adaptiveSelection INFINITE true (S k) before)).
    pose proof (refineLevel_fields (adaptiveLoopOptions ft cm) (S k) marks before)
      as (_ & _ & Fu & Fm & _ & _).
    pose proof (refineLevel_entries (adaptiveLoopOptions ft cm) (S k) marks before
                  ltac:(lia) ltac:(lia) ltac:(lia)) as (Hw & Hkl & Hkr).
    cbv zeta in Fu, Fm, Hw, Hkl, Hkr.
    set (after := refineLevel (adaptiveLoopOptions ft cm) (S k) marks before) in *.
    assert (Hsame : forall i, (1 <= i <= S k)%nat ->
              adaptiveSelection INFINITE true i after = adaptiveSelection INFINITE true i before).
    { intros i Hi. apply adaptiveSelection_ext.
      - apply Hkl. lia.
      - intros H2. apply Hkr. lia. }
    split; [congruence|]. split; [congruence|].
    split; [rewrite Hkl by lia; exact Ib|].
    split.
    + intros i Hi. destruct (Nat.eq_dec i (S (S k))) as [->|Hne'].
      * replace (S (S k) - 1)%nat with (S k) by lia. reflexivity.
      * rewrite Hsame by lia. apply Isel. lia.
    + intros i Hi. rewrite Hsame by lia.
      destruct (Nat.eq_dec i (S k)) as [->|Hne'].
      * rewrite (Hkl (S k - 1)%nat) by lia. exact Hw.
      * rewrite (Hkl (i - 1)%nat), (Hkl i), (Hkr (i - 1)%nat) by lia.
        apply Ich. lia.
Qed.

(** The loop runs the iterations that select something and stops at the
    first that does not, or after the last. *)
Lemma adaptiveLoop_run (n : Z) (ft cm : bool) (t : Tables') :
  forall (len k : nat) (o : RefineOptions),
    set_faceTopologyOnly false o = adaptiveLoopOptions ft cm ->
    exists m, (k <= m <= k + len)%nat /\
      (forall j, (k < j <= m)%nat ->
         isSelectionEmpty (adaptiveSelection INFINITE true j
                             (adaptiveStateAfter INFINITE n ft cm t (j - 1))) = false) /\
      (((m < k + len)%nat /\
        isSelectionEmpty (adaptiveSelection INFINITE true (S m)
                            (adaptiveStateAfter INFINITE n ft cm t m)) = true /\
        adaptiveLoop INFINITE true o (seq (S k) len) (adaptiveStateAfter INFINITE n ft cm t k)
        = truncateAt (S m) (adaptiveStateAfter INFINITE n ft cm t m))
       \/ (m = (k + len)%nat /\
           adaptiveLoop INFINITE true o (seq (S k) len) (adaptiveStateAfter INFINITE n ft cm t k)
           = adaptiveStateAfter INFINITE n ft cm t m)).
Proof.
  induction len as [|len IH]; intros k o Ho.
  - exists k. split; [lia|]. split; [intros j Hj; lia|].
    right. split; [lia | reflexivity].
  - cbn [seq adaptiveLoop]. rewrite Ho.
    destruct (isSelectionEmpty (adaptiveSelection INFINITE true (S k)
                (adaptiveStateAfter INFINITE n ft cm t k))) eqn:He; cbn [negb].
    + exists k. split; [lia|]. split; [intros j Hj; lia|].
      left. split; [lia|]. split; [exact He | reflexivity].
    + destruct (IH (S k) (adaptiveLoopOptions ft cm) (adaptiveLoopOptions_fixed ft cm))
        as (m & Hm & Hsome & Hend).
      exists m. split; [lia|]. split.
      * intros j Hj. destruct (Nat.eq_dec j (S k)) as [->|Hne].
        -- replace (S k - 1)%nat with k by lia. exact He.
        -- apply Hsome. lia.
      * cbn [adaptiveStateAfter] in Hend.
        destruct Hend as [(H1 & H2 & H3)|(H1 & H3)].
        -- left. split; [lia|]. split; [exact H2 | exact H3].
        -- right. split; [lia | exact H3].
Qed.

Lemma RefineAdaptive_chain_aux (n : Z) (ft cm : bool) (t t' : Tables') :
  RefineAdaptive INFINITE n ft cm t = Some t' ->
  exists m : nat,
    (Z.of_nat m <= n)%Z /\
    _isUniform t' = false /\ _maxLevel t' = Z.of_nat m /\
    length (_levels t') = S m /\ length (_refinements t') = m /\
    nth 0 (_levels t') VtrLevel_new = nth 0 (_levels t) VtrLevel_new /\
    (forall i, (1 <= i <= m)%nat ->
       let selector := adaptiveSelection INFINITE true i t' in
       isSelectionEmpty selector = false /\
       refine (adaptiveLoopOptions ft cm) (nth (i - 1) (_levels t') VtrLevel_new)
              (selectedFaces selector)
       = (nth (i - 1) (_refinements t') VtrRefinement_new, nth i (_levels t') VtrLevel_new)) /\
    ((Z.of_nat m < n)%Z ->
       isSelectionEmpty (adaptiveSelection INFINITE true (S m) t') = true).
Proof.
  unfold RefineAdaptive. destruct (refinePrecondition n t) eqn:Hpre; [|discriminate].
  cbn [negb]. cbv zeta. intros [= Ht'].
  destruct (refinePrecondition_true _ _ Hpre) as (base & rest & Hl & _ & _ & Hn).
  assert (Hne : _levels t <> []) by (rewrite Hl; discriminate).
  destruct (adaptiveLoop_run n ft cm t (Z.to_nat n) 0%nat (adaptiveOptions ft cm true true)
              ltac:(reflexivity)) as (m & Hm & Hsome & Hend).
  cbn [adaptiveStateAfter] in Hend. rewrite Ht' in Hend.
  pose proof (adaptiveStateAfter_chain n ft cm t m Hn Hne ltac:(lia))
    as (Cu & Cm & Cb & Csel & Cch).
  pose proof (adaptiveStateAfter_shape INFINITE n ft cm t m Hn Hne) as (Sl & Sr).
  cbv zeta in Cu, Cm, Cb, Csel, Cch.
  set (A := adaptiveStateAfter INFINITE n ft cm t m) in *.
  exists m. split; [lia|].
  destruct Hend as [(Hlt & Hnone & ->)|(Heq & ->)].
  - assert (HAne : _levels A <> []) by (destruct (_levels A); [discriminate Sl|discriminate]).
    pose proof (truncateAt_shape (S m) A ltac:(lia) HAne) as (Tm & Tl & Tr & Tll & Trl & _).
    cbv zeta in Tm, Tl, Tr, Tll, Trl.
    rewrite resize_le in Tl by lia. rewrite resize_le in Tr by lia.
    replace (S m - 1)%nat with m in * by lia.
    assert (Hlev : forall j, (j <= m)%nat ->
              nth j (_levels (truncateAt (S m) A)) VtrLevel_new = nth j (_levels A) VtrLevel_new).
    { intros j Hj. rewrite Tl. apply nth_take. lia. }
    assert (Href : forall j, (j < m)%nat ->
              nth j (_refinements (truncateAt (S m) A)) VtrRefinement_new
              = nth j (_refinements A) VtrRefinement_new).
    { intros j Hj. rewrite Tr. apply nth_take. lia. }
    assert (Hsel : forall i, (1 <= i <= S m)%nat ->
              adaptiveSelection INFINITE true i (truncateAt (S m) A)
              = adaptiveSelection INFINITE true i A).
    { intros i Hi. apply adaptiveSelection_ext.
      - apply Hlev. lia.
      - intros H2. apply Href. lia. }
    split; [exact Cu|]. split; [rewrite Tm; lia|]. split; [exact Tll|]. split; [exact Trl|].
    split; [rewrite Hlev by lia; exact Cb|]. split.
    + intros i Hi. rewrite Hsel by lia. split.
      * rewrite Csel by lia. apply Hsome. lia.
      * rewrite (Hlev (i - 1)%nat), (Hlev i), (Href (i - 1)%nat) by lia. apply Cch. exact Hi.
    + intros _. rewrite Hsel by lia. exact Hnone.
  - split; [exact Cu|]. split; [rewrite Cm; lia|].
    split; [rewrite Sl; lia|]. split; [rewrite Sr; lia|]. split; [exact Cb|]. split.
    + intros i Hi. split.
      * rewrite Csel by lia. apply Hsome. lia.
      * apply Cch. exact Hi.
    + intros Hlt. lia.
Qed.

(** X14.  When [RefineAdaptive n] completes, the tables are flagged
    non-uniform and hold the levels 0..m for the maximum level m <= n they
    report: at every iteration i up to m the analyzer selected some face of
    level i - 1 and level i, with its refinement, is what [refine] makes of
    level i - 1 on the selected faces, sparse, with full topology, and with
    parent and child tagging; if m < n, the analyzer selects nothing on
    level m. *)
Theorem RefineAdaptive_levels (n : Z) (ft cm : bool) (t t' : Tables') :
  RefineAdaptive INFINITE n ft cm t = Some t' ->
  exists m : nat,
    (Z.of_nat m <= n)%Z /\
    _isUniform t' = false /\ _maxLevel t' = Z.of_nat m /\
    length (_levels t') = S m /\ length (_refinements t') = m /\
    (forall i, (1 <= i <= m)%nat ->
       let selector := adaptiveSelection INFINITE true i t' in
       let o := adaptiveLoopOptions ft cm in
       (_sparse o = true /\ _faceTopologyOnly o = false /\ _computeMasks o = cm
        /\ _parentTagging o = true /\ _childTagging o = true) /\
       isSelectionEmpty selector = false /\
       refine o (nth (i - 1) (_levels t') VtrLevel_new) (selectedFaces selector)
       = (nth (i - 1) (_refinements t') VtrRefinement_new, nth i (_levels t') VtrLevel_new)) /\
    ((Z.of_nat m < n)%Z ->
       isSelectionEmpty (adaptiveSelection INFINITE true (S m) t') = true).
Proof.
  intros Hrun.
  destruct (RefineAdaptive_chain_aux _ _ _ _ _ Hrun)
    as (m & H1 & H2 & H3 & H4 & H5 & _ & Hc & He).
  exists m. repeat split; try assumption; apply Hc; assumption.
Qed.

(** The analyzer selects nothing on a regular level. *)
Lemma regularLevel_selection_empty (i : nat) (t : Tables') :
  regularLevel (nth (i - 1) (_levels t) VtrLevel_new) ->
  isSelectionEmpty (adaptiveSelection INFINITE true i t) = true.
Proof.
  intros Hreg. unfold isSelectionEmpty, adaptiveSelection, endSelection, beginSelection.
  cbv zeta. apply bool_decide_eq_true.
  rewrite (regularLevel_adds_nothing INFINITE); [reflexivity | exact Hreg].
Qed.

(** X15.  On a base mesh with nothing to isolate (quads only, at most two
    boundary edges each and then not with as many faces at edge 0 as at
    edge 2; smooth vertices that are regular; smooth edges),
    [RefineAdaptive n] for n >= 1 completes without refining: the tables
    hold the base level alone and no refinement, with maximum level 0. *)
Theorem RefineAdaptive_regular (n : Z) (ft cm : bool) (t : Tables') :
  refinePrecondition n t = true -> (1 <= n)%Z ->
  regularLevel (nth 0 (_levels t) VtrLevel_new) ->
  exists t',
    RefineAdaptive INFINITE n ft cm t = Some t' /\
    _levels t' = [nth 0 (_levels t) VtrLevel_new] /\ _refinements t' = [] /\
    _maxLevel t' = 0%Z /\ _isUniform t' = false.
Proof.
  intros Hpre Hn Hreg.
  destruct (refinePrecondition_true _ _ Hpre) as (base & rest & Hl & _ & _ & Hn0).
  assert (Hne : _levels t <> []) by (rewrite Hl; discriminate).
  pose proof (allocateLevels_shape false n t Hn0 Hne) as (Al & Ar & Ab).
  set (A := allocateLevels false n t) in *.
  assert (HA0 : nth 0 (_levels A) VtrLevel_new = nth 0 (_levels t) VtrLevel_new)
    by (rewrite !nth_lookup, Ab; reflexivity).
  assert (Hnone : isSelectionEmpty (adaptiveSelection INFINITE true 1 A) = true).
  { apply regularLevel_selection_empty. cbn [Nat.sub]. rewrite HA0. exact Hreg. }
  exists (truncateAt 1 A).
  assert (Hrun : RefineAdaptive INFINITE n ft cm t = Some (truncateAt 1 A)).
  { unfold RefineAdaptive. rewrite Hpre. cbn [negb]. cbv zeta. f_equal.
    destruct (Z.to_nat n) as [|k] eqn:Hk; [lia|].
    cbn [seq adaptiveLoop]. fold A. rewrite Hnone. reflexivity. }
  split; [exact Hrun|].
  unfold truncateAt. cbn [_levels _refinements _maxLevel _isUniform].
  change (Z.to_nat (Z.of_nat 1 - 1 + 1)) with 1%nat.
  change (Z.to_nat (Z.of_nat 1 - 1)) with 0%nat.
  repeat split; [|apply resize_0].
  destruct (_levels A) as [|a rest'] eqn:E; [discriminate Al|].
  cbn [resize]. rewrite resize_0. simpl in HA0. rewrite HA0. reflexivity.
Qed.

(** *** Counts, [Unrefine] and [Clear] *)

Lemma foldl_sum_shift {A : Type} (f : A -> nat) (l : list A) (a : nat) :
  foldl (fun sum x => (sum + f x)%nat) a l = (a + foldl (fun sum x => (sum + f x)%nat) 0%nat l)%nat.
Proof.
  revert a. induction l as [|x l IH]; intros a; simpl; [lia|].
  rewrite (IH (a + f x)%nat), (IH (f x)). lia.
Qed.

Lemma foldl_sum_app {A : Type} (f : A -> nat) (l l' : list A) :
  foldl (fun sum x => (sum + f x)%nat) 0%nat (l ++ l')
  = (foldl (fun sum x => (sum + f x)%nat) 0%nat l
     + foldl (fun sum x => (sum + f x)%nat) 0%nat l')%nat.
Proof. rewrite foldl_app. apply foldl_sum_shift. Qed.

(** X16.  After [Unrefine] on tables that hold a base level, the three
    component counts are those of the base level alone, however many levels
    there were; on any tables the counts are at least those of the base
    level, and cleared tables count 0. *)
Theorem counts_after_Unrefine (t : Tables') :
  let base := nth 0 (_levels t) VtrLevel_new in
  (_levels t <> [] ->
   GetVertCount (Unrefine t) = vertCount base /\
   GetEdgeCount (Unrefine t) = edgeCount base /\
   GetFaceCount (Unrefine t) = faceCount base /\
   (vertCount base <= GetVertCount t)%nat /\
   (edgeCount base <= GetEdgeCount t)%nat /\
   (faceCount base <= GetFaceCount t)%nat) /\
  GetVertCount (Clear t) = 0%nat /\ GetEdgeCount (Clear t) = 0%nat /\
  GetFaceCount (Clear t) = 0%nat.
Proof.
  cbv zeta. split; [|repeat split].
  intros Hne. unfold GetVertCount, GetEdgeCount, GetFaceCount, Unrefine.
  cbn [_levels]. destruct (_levels t) as [|base rest]; [contradiction|].
  cbn [length Nat.eqb resize nth]. rewrite resize_0. cbn [foldl].
  rewrite (foldl_sum_shift vertCount rest), (foldl_sum_shift edgeCount rest),
          (foldl_sum_shift faceCount rest).
  repeat split; lia.
Qed.

(** X17.  [Unrefine] after a refine call that completed gives back tables
    holding the base level alone and no refinement, with the scheme kept; it
    does not reset the maximum level or the uniform flag, which stay as the
    refine call left them. *)
Theorem Unrefine_after_refine (n : Z) (ft cm : bool) (t t' : Tables') :
  RefineUniform n ft cm t = Some t' \/ RefineAdaptive INFINITE n ft cm t = Some t' ->
  _levels (Unrefine t') = [nth 0 (_levels t) VtrLevel_new] /\
  _refinements (Unrefine t') = [] /\
  _maxLevel (Unrefine t') = _maxLevel t' /\
  _isUniform (Unrefine t') = _isUniform t' /\
  Unrefine (Unrefine t') = Unrefine t'.
Proof.
  intros Hrun.
  assert (H : (1 <= length (_levels t'))%nat /\
              nth 0 (_levels t') VtrLevel_new = nth 0 (_levels t) VtrLevel_new).
  { destruct Hrun as [Hrun|Hrun].
    - destruct (RefineUniform_chain_aux _ _ _ _ _ Hrun) as (_ & _ & Hl & _ & H0 & _).
      split; [lia | exact H0].
    - destruct (RefineAdaptive_chain_aux _ _ _ _ _ Hrun) as (m & _ & _ & _ & Hl & _ & H0 & _).
      split; [lia | exact H0]. }
  destruct H as (Hl & H0).
  unfold Unrefine. cbn [_levels _refinements _maxLevel _isUniform _subdivType _subdivOptions].
  destruct (_levels t') as [|a rest]; [simpl in Hl; lia|].
  cbn [length Nat.eqb resize]. rewrite resize_0. cbn [length Nat.eqb resize].
  rewrite ?resize_0. simpl in H0. rewrite H0. repeat split.
Qed.

End TablesMore.

(* ===================================================================== *)
(** ** The vertex container of the tutorial *)
(* ===================================================================== *)

Lemma Tutorial_foldl_position0 (sources : list (Tutorial.Vertex * Q)) (acc : Tutorial.Vertex) :
  Tutorial._position0
    (foldl (fun acc sw => Tutorial.AddWithWeight (fst sw) (snd sw) acc) acc sources)
  == Tutorial._position0 acc
     + sumQ (map (fun sw => snd sw * Tutorial._position0 (fst sw)) sources).
Proof.
  revert acc. induction sources as [|sw sources IH]; intros acc; simpl.
  - ring.
  - rewrite IH. simpl. ring.
Qed.

Lemma Tutorial_foldl_position1 (sources : list (Tutorial.Vertex * Q)) (acc : Tutorial.Vertex) :
  Tutorial._position1
    (foldl (fun acc sw => Tutorial.AddWithWeight (fst sw) (snd sw) acc) acc sources)
  == Tutorial._position1 acc
     + sumQ (map (fun sw => snd sw * Tutorial._position1 (fst sw)) sources).
Proof.
  revert acc. induction sources as [|sw sources IH]; intros acc; simpl.
  - ring.
  - rewrite IH. simpl. ring.
Qed.

Lemma Tutorial_foldl_position2 (sources : list (Tutorial.Vertex * Q)) (acc : Tutorial.Vertex) :
  Tutorial._position2
    (foldl (fun acc sw => Tutorial.AddWithWeight (fst sw) (snd sw) acc) acc sources)
  == Tutorial._position2 acc
     + sumQ (map (fun sw => snd sw * Tutorial._position2 (fst sw)) sources).
Proof.
  revert acc. induction sources as [|sw sources IH]; intros acc; simpl.
  - ring.
  - rewrite IH. simpl. ring.
Qed.

Lemma sumQ_scaled_constant {A : Type} (w : A -> Q) (c : Q) (l : list A) :
  sumQ (map (fun x => w x * c) l) == sumQ (map w l) * c.
Proof.
  induction l as [|x l IH]; simpl.
  - ring.
  - rewrite IH. ring.
Qed.

Lemma sumQ_map_ext {A : Type} (f g : A -> Q) (l : list A) :
  Forall (fun x => f x == g x) l -> sumQ (map f l) == sumQ (map g l).
Proof.
  induction 1 as [|x l Hx _ IH]; simpl.
  - reflexivity.
  - rewrite Hx, IH. reflexivity.
Qed.

(** X18.  A vertex that is cleared and then fed weighted sources holds, in
    each coordinate, the sum of weight times source coordinate: what it held
    before does not matter, and the varying variant adds nothing. *)
Theorem Tutorial_accumulate_weighted_sum (sources : list (Tutorial.Vertex * Q))
                                         (this : Tutorial.Vertex) :
  Tutorial.samePosition
    (Tutorial.accumulate sources this)
    (Tutorial.mkVertex
       (sumQ (map (fun sw => snd sw * Tutorial._position0 (fst sw)) sources))
       (sumQ (map (fun sw => snd sw * Tutorial._position1 (fst sw)) sources))
       (sumQ (map (fun sw => snd sw * Tutorial._position2 (fst sw)) sources)))
  /\ (forall other, Tutorial.samePosition (Tutorial.accumulate sources this)
                                          (Tutorial.accumulate sources other))
  /\ (forall src weight,
        Tutorial.accumulate sources (Tutorial.AddVaryingWithWeight src weight this)
        = Tutorial.accumulate sources this).
Proof.
  unfold Tutorial.samePosition, Tutorial.accumulate.
  split; [|split].
  - rewrite Tutorial_foldl_position0, Tutorial_foldl_position1, Tutorial_foldl_position2.
    simpl. repeat split; ring.
  - intros other. repeat split; reflexivity.
  - intros src weight. reflexivity.
Qed.

(** X19.  Fed sources that all sit at one position, with weights that sum
    to 1, the cleared vertex ends up at that position. *)
Theorem Tutorial_accumulate_partition_of_unity (sources : list (Tutorial.Vertex * Q))
                                               (p this : Tutorial.Vertex) :
  sumQ (map snd sources) == 1 ->
  Forall (fun sw => Tutorial.samePosition (fst sw) p) sources ->
  Tutorial.samePosition (Tutorial.accumulate sources this) p.
Proof.
  intros Hsum Hall.
  unfold Tutorial.samePosition, Tutorial.accumulate.
  rewrite Tutorial_foldl_position0, Tutorial_foldl_position1, Tutorial_foldl_position2.
  simpl.
  rewrite (sumQ_map_ext (fun sw => snd sw * Tutorial._position0 (fst sw))
                        (fun sw => snd sw * Tutorial._position0 p)),
          (sumQ_map_ext (fun sw => snd sw * Tutorial._position1 (fst sw))
                        (fun sw => snd sw * Tutorial._position1 p)),
          (sumQ_map_ext (fun sw => snd sw * Tutorial._position2 (fst sw))
                        (fun sw => snd sw * Tutorial._position2 p)).
  - rewrite !(sumQ_scaled_constant snd), Hsum. repeat split; ring.
  - eapply Forall_impl; [exact Hall|]. intros sw (_ & _ & H). simpl. rewrite H. reflexivity.
  - eapply Forall_impl; [exact Hall|]. intros sw (_ & H & _). simpl. rewrite H. reflexivity.
  - eapply Forall_impl; [exact Hall|]. intros sw (H & _ & _). simpl. rewrite H. reflexivity.
Qed.

(** X20.  The copy constructor copies the first two coordinates only: the
    third coordinate of the copy is whatever its storage held, and the
    third coordinate of the source is never read. *)
Theorem Tutorial_Vertex_copy_two_coordinates (uninitialized src : Tutorial.Vertex) :
  Tutorial.GetPosition (Tutorial.Vertex_copy uninitialized src)
  = [Tutorial._position0 src; Tutorial._position1 src; Tutorial._position2 uninitialized]
  /\ (forall x y z z' a b,
        Tutorial.Vertex_copy uninitialized (Tutorial.SetPosition x y z a)
        = Tutorial.Vertex_copy uninitialized (Tutorial.SetPosition x y z' b)).
Proof. split; reflexivity. Qed.

(* ===================================================================== *)
(** ** The further properties on concrete inputs *)
(* ===================================================================== *)

(** The face-vertex mask of a pentagon. *)
Lemma ComputeFaceVertexMask_sum_witness :
  let n := 5%Z in
  let r := ComputeFaceVertexMask SampleMore.pentagon Sample.blankMask in
  vCount r = n /\ eCount r = 0%Z /\ fCount r = 0%Z /\
  (forall i, (0 <= i < n)%Z -> VertexWeight r i = 1 / inject_Z n) /\
  maskSum r == 1.
Proof.
  intros n r.
  exact (ComputeFaceVertexMask_sum SampleMore.pentagon Sample.blankMask eq_refl).
Defined.

(** The edge-vertex mask of an edge of sharpness 1/2 with a smooth child
    edge, under the Chaikin method. *)
Lemma ComputeEdgeVertexMask_sum_witness :
  maskSum (ComputeEdgeVertexMask (V := Sample.Vertex) Sample.chaikinOptions
             Sample.fadingEdgeOneSmooth Sample.blankMask RULE_UNKNOWN RULE_UNKNOWN) == 1.
Proof.
  apply (ComputeEdgeVertexMask_sum (V := Sample.Vertex) Sample.chaikinOptions
           Sample.fadingEdgeOneSmooth Sample.blankMask RULE_UNKNOWN RULE_UNKNOWN).
  - reflexivity.
  - reflexivity.
  - vm_compute. reflexivity.
Defined.

(** An edge of sharpness 1/2 under the uniform method. *)
Lemma ComputeEdgeVertexMask_uniform_witness :
  ComputeEdgeVertexMask (V := Sample.Vertex) Sample.uniformOptions
    SampleMore.halfSharpEdge Sample.blankMask RULE_UNKNOWN RULE_UNKNOWN
  = creaseToSmoothMask (V := Sample.Vertex) SampleMore.halfSharpEdge Sample.blankMask.
Proof.
  apply (proj2 (proj2 (ComputeEdgeVertexMask_uniform (V := Sample.Vertex) Sample.uniformOptions
                         SampleMore.halfSharpEdge Sample.blankMask eq_refl)));
    reflexivity.
Defined.

Lemma ComputeEdgeVertexMask_nonnegative_witness :
  let r := ComputeEdgeVertexMask (V := Sample.Vertex) Sample.chaikinOptions
             Sample.fadingEdgeOneSmooth Sample.blankMask RULE_UNKNOWN RULE_UNKNOWN in
  0 <= VertexWeight r 0 /\ 0 <= VertexWeight r 1 /\
  forall j, inCount (fCount r) j = true -> 0 <= FaceWeight r j.
Proof.
  apply (ComputeEdgeVertexMask_nonnegative (V := Sample.Vertex) Sample.chaikinOptions
           Sample.fadingEdgeOneSmooth Sample.blankMask RULE_UNKNOWN RULE_UNKNOWN).
  - vm_compute. discriminate.
  - vm_compute. discriminate.
  - vm_compute. discriminate.
  - vm_compute. discriminate.
  - intros j Hj.
    change (inCount 2 j = true) in Hj.
    unfold inCount in Hj. apply andb_true_iff in Hj as [H0 H1].
    apply Z.leb_le in H0. apply Z.ltb_lt in H1.
    assert (Hj : j = 0%Z \/ j = 1%Z) by lia.
    destruct Hj as [-> | ->]; vm_compute; discriminate.
Defined.

(** The smooth mask of the fading corner combined, 3/4 to 1/4, with its
    corner mask. *)
Lemma CombineVertexVertexMasks_sum_witness :
  maskSum (CombineVertexVertexMasks SampleMore.smoothMask (3 # 4) (1 # 4) SampleMore.cornerMask)
  == (1 # 4) * maskSum SampleMore.cornerMask + (3 # 4) * maskSum SampleMore.smoothMask.
Proof.
  apply (CombineVertexVertexMasks_sum SampleMore.smoothMask (3 # 4) (1 # 4)
           SampleMore.cornerMask).
  - reflexivity.
  - reflexivity.
  - left. reflexivity.
  - left. reflexivity.
Defined.

(** The fading corner, a Corner whose child is Smooth. *)
Lemma ComputeVertexVertexMask_sum_witness :
  maskSum (ComputeVertexVertexMask (E := Sample.Edge) Sample.uniformOptions Sample.blankMask
             Sample.fadingCorner Sample.blankMask RULE_UNKNOWN RULE_UNKNOWN) == 1.
Proof.
  apply (ComputeVertexVertexMask_sum (E := Sample.Edge) Sample.uniformOptions Sample.blankMask
           Sample.fadingCorner Sample.blankMask RULE_UNKNOWN RULE_UNKNOWN).
  - right. reflexivity.
  - vm_compute. discriminate.
  - reflexivity.
  - reflexivity.
  - vm_compute. reflexivity.
  - vm_compute. reflexivity.
  - left. reflexivity.
  - left. reflexivity.
Defined.

(** A vertex without sharpness, its rule left unknown, and a child rule
    given as Corner. *)
Lemma ComputeVertexVertexMask_smooth_parent_witness :
  ComputeVertexVertexMask (E := Sample.Edge) Sample.uniformOptions Sample.blankMask
    SampleMore.smoothVertex Sample.blankMask RULE_UNKNOWN RULE_CORNER
  = Sample.smoothMaskForVertex SampleMore.smoothVertex Sample.blankMask.
Proof.
  exact (ComputeVertexVertexMask_smooth_parent (E := Sample.Edge) Sample.uniformOptions
           Sample.blankMask SampleMore.smoothVertex Sample.blankMask RULE_UNKNOWN RULE_CORNER
           eq_refl).
Defined.

(** The corner vertex 0 of the 2 x 2 grid: one face and two edges. *)
Lemma catmarkFeatureAdaptiveSelector_smooth_vertex_witness :
  selectorVertStep Sample.infinite Sample.grid2x2
    (VtrSparseSelector_new (R := Sample.Refined) Sample.grid2x2) 0%nat
  = selectVertexFaces 0%nat (VtrSparseSelector_new (R := Sample.Refined) Sample.grid2x2).
Proof.
  refine (proj1 (catmarkFeatureAdaptiveSelector_smooth_vertex Sample.infinite
                   (VtrSparseSelector_new (R := Sample.Refined) Sample.grid2x2) 0%nat
                   eq_refl _) _).
  - vm_compute. discriminate.
  - right. vm_compute. split; discriminate.
Defined.

(** The 2 x 2 grid refined uniformly to level 2. *)
Lemma RefineUniform_levels_witness :
  exists t',
    RefineUniform 2 false true (Sample.tablesOn Sample.grid2x2) = Some t' /\
    _isUniform t' = true /\ _maxLevel t' = 2%Z /\
    length (_levels t') = 3%nat /\ length (_refinements t') = 2%nat /\
    forall i, (1 <= i <= 2)%nat ->
      let o := uniformOptionsAt 2 false true i in
      (_sparse o = false /\ _computeMasks o = true
       /\ _faceTopologyOnly o = negb false && (i =? 2)%nat) /\
      refine o (nth (i - 1) (_levels t') VtrLevel_new) ∅
      = (nth (i - 1) (_refinements t') VtrRefinement_new, nth i (_levels t') VtrLevel_new).
Proof.
  destruct (RefineUniform 2 false true (Sample.tablesOn Sample.grid2x2)) as [t'|] eqn:Hrun;
    [|discriminate Hrun].
  exists t'. split; [reflexivity|].
  exact (RefineUniform_levels 2 false true (Sample.tablesOn Sample.grid2x2) t' Hrun).
Defined.

(** The 2 x 2 grid refined to level 1 and to level 2. *)
Lemma RefineUniform_prefix_witness :
  exists tj tk,
    RefineUniform 1 true true (Sample.tablesOn Sample.grid2x2) = Some tj /\
    RefineUniform 2 true true (Sample.tablesOn Sample.grid2x2) = Some tk /\
    take 1 (_levels tj) = take 1 (_levels tk) /\
    take (1 - 1) (_refinements tj) = take (1 - 1) (_refinements tk) /\
    (true = true \/ 1%Z = 2%Z ->
     _levels tj = take 2 (_levels tk) /\ _refinements tj = take 1 (_refinements tk)).
Proof.
  destruct (RefineUniform 1 true true (Sample.tablesOn Sample.grid2x2)) as [tj|] eqn:Hj;
    [|discriminate Hj].
  destruct (RefineUniform 2 true true (Sample.tablesOn Sample.grid2x2)) as [tk|] eqn:Hk;
    [|discriminate Hk].
  exists tj, tk. split; [reflexivity|]. split; [reflexivity|].
  apply (RefineUniform_prefix 1 2 true true (Sample.tablesOn Sample.grid2x2) tj tk).
  - discriminate.
  - exact Hj.
  - exact Hk.
Defined.

(** The 2 x 2 grid refined adaptively, three levels asked for. *)
Lemma RefineAdaptive_levels_witness :
  exists t',
    RefineAdaptive Sample.infinite 3 true true (Sample.tablesOn Sample.grid2x2) = Some t' /\
    exists m : nat,
      (Z.of_nat m <= 3)%Z /\
      _isUniform t' = false /\ _maxLevel t' = Z.of_nat m /\
      length (_levels t') = S m /\ length (_refinements t') = m /\
      (forall i, (1 <= i <= m)%nat ->
         let selector := adaptiveSelection Sample.infinite true i t' in
         let o := adaptiveLoopOptions true true in
         (_sparse o = true /\ _faceTopologyOnly o = false /\ _computeMasks o = true
          /\ _parentTagging o = true /\ _childTagging o = true) /\
         isSelectionEmpty selector = false /\
         refine o (nth (i - 1) (_levels t') VtrLevel_new) (selectedFaces selector)
         = (nth (i - 1) (_refinements t') VtrRefinement_new, nth i (_levels t') VtrLevel_new)) /\
      ((Z.of_nat m < 3)%Z ->
         isSelectionEmpty (adaptiveSelection Sample.infinite true (S m) t') = true).
Proof.
  destruct (RefineAdaptive Sample.infinite 3 true true (Sample.tablesOn Sample.grid2x2))
    as [t'|] eqn:Hrun; [|discriminate Hrun].
  exists t'. split; [reflexivity|].
  exact (RefineAdaptive_levels Sample.infinite 3 true true
           (Sample.tablesOn Sample.grid2x2) t' Hrun).
Defined.

Lemma torus2x2_regular : regularLevel Sample.torus2x2.
Proof.
  split; [|split].
  - intros f Hf.
    do 4 (destruct f as [|f];
          [vm_compute; split; [reflexivity | split; [lia | discriminate]]|]).
    vm_compute in Hf. lia.
  - intros v Hv.
    do 4 (destruct v as [|v];
          [split; [vm_compute; discriminate | left; split; reflexivity]|]).
    vm_compute in Hv. lia.
  - intros e He.
    do 8 (destruct e as [|e]; [vm_compute; discriminate|]).
    vm_compute in He. lia.
Qed.

(** The 2 x 2 torus, where nothing is irregular. *)
Lemma RefineAdaptive_regular_witness :
  exists t',
    RefineAdaptive Sample.infinite 4 true true (Sample.tablesOn Sample.torus2x2) = Some t' /\
    _levels t' = [nth 0 (_levels (Sample.tablesOn Sample.torus2x2)) VtrLevel_new] /\
    _refinements t' = [] /\ _maxLevel t' = 0%Z /\ _isUniform t' = false.
Proof.
  apply (RefineAdaptive_regular Sample.infinite 4 true true (Sample.tablesOn Sample.torus2x2)).
  - reflexivity.
  - discriminate.
  - exact torus2x2_regular.
Defined.

(** [Unrefine] after the 2 x 2 grid was refined uniformly to level 2. *)
Lemma Unrefine_after_refine_witness :
  exists t',
    RefineUniform 2 true true (Sample.tablesOn Sample.grid2x2) = Some t' /\
    _levels (Unrefine t') = [Sample.grid2x2] /\
    _refinements (Unrefine t') = [] /\
    _maxLevel (Unrefine t') = _maxLevel t' /\
    _isUniform (Unrefine t') = _isUniform t' /\
    Unrefine (Unrefine t') = Unrefine t'.
Proof.
  destruct (RefineUniform 2 true true (Sample.tablesOn Sample.grid2x2)) as [t'|] eqn:Hrun;
    [|discriminate Hrun].
  exists t'. split; [reflexivity|].
  exact (Unrefine_after_refine Sample.infinite 2 true true
           (Sample.tablesOn Sample.grid2x2) t' (or_introl Hrun)).
Defined.

(** One position fed twice, with the weights 1/4 and 3/4. *)
Lemma Tutorial_accumulate_partition_of_unity_witness :
  Tutorial.samePosition
    (Tutorial.accumulate [(SampleMore.p123, 1 # 4); (SampleMore.p123, 3 # 4)] SampleMore.p100)
    SampleMore.p123.
Proof.
  apply (Tutorial_accumulate_partition_of_unity
           [(SampleMore.p123, 1 # 4); (SampleMore.p123, 3 # 4)] SampleMore.p123 SampleMore.p100).
  - reflexivity.
  - repeat constructor.
Defined.
